(** * scrapper-tools: the fast-page launcher ([fastPage], [browser],
      [makePageFaster]) and the frame poller ([waitForFrame])

    A shallow embedding of [src/waitForFrames.ts].

    - JavaScript objects that the module shares by reference live in a
      store: the [config] object maps instance names to references of
      configuration records, and the arrays that the module mutates in place
      ([args], [hooks]) are references into array heaps.  The object spread
      [{ ...config.default }] copies the fields of a record, hence copies
      array references, not arrays.
    - [async] functions are cut at their [await]s.  A call in flight is a
      program counter; a step runs one synchronous stretch of code.  The
      scheduler and the outcome of every awaited call of the external
      browser library are inputs of the step function.  A call of [browser]
      and the start of its locked function are one step when the key is
      free; the call of [browser] inside [newPage] and [closeBrowser] is a
      step of its own, so the model has every interleaving of the source.
    - [lock] is the mutual exclusion per key of [async-lock]: a call that
      waits for a key takes it at some moment when it is free.  The order of
      the queue, the limit on pending calls and time-outs are not modelled.
    - Calls of the external library and of the loggers [error] and
      [console.log] are recorded as events; the [info] messages are not.
      Hook callbacks and the stealth patches are opaque calls.  A promise
      the code does not await (the hook actions, [close()] of a
      non-persistent browser) is a call whose outcome the code never sees.
    - Numbers are integers. *)

From stdpp Require Import base option list gmap strings pretty.
From Stdlib Require Import ZArith.

Open Scope string_scope.
Open Scope list_scope.

Set Warnings "-clear-no-such-hyp".

(** ** Values *)

(** Object identities handed out by the external library (browsers,
    browser contexts). *)
Abbreviation Handle := nat (only parsing).

(** References into the heaps of the store. *)
Abbreviation loc := nat (only parsing).

Inductive Engine := chromium | firefox | webkit.

#[global] Instance Engine_eq_dec : EqDecision Engine.
Proof. solve_decision. Defined.

(** [interface BrowserTypeLaunchOptionsProxy] *)
Record BrowserTypeLaunchOptionsProxy := {
  server : string;
  bypass : option string;
  username : option string;
  password : option string;
}.

#[global] Instance Proxy_eq_dec : EqDecision BrowserTypeLaunchOptionsProxy.
Proof. solve_decision. Defined.

Record WindowSize := { width : Z; height : Z }.

#[global] Instance WindowSize_eq_dec : EqDecision WindowSize.
Proof. solve_decision. Defined.

(** A registered hook [{ name, action }]; the callback is opaque and is
    identified by a number. *)
Record Hook := { hook_name : string; hook_action : nat }.

(** [interface ConfigValue].  [args] and [hooks] are references to arrays:
    the module pushes onto them in place.  [extensions] is only ever read or
    replaced as a whole, so its contents are kept in the record. *)
Record ConfigValue := {
  browserHandle : option Handle;
  nonPersistantBrowserHandle : option Handle;
  browser : Engine;
  proxy : option BrowserTypeLaunchOptionsProxy;
  headless : bool;
  devtools : bool;
  userDataDir : option string;
  windowSize : WindowSize;
  blockFonts : bool;
  blockImages : bool;
  blockCSS : bool;
  defaultNavigationTimeout : Z;
  extensions : list string;
  showPageError : bool;
  userAgent : string;
  args : loc;
  hooks : loc;
  enableStealth : bool;
  downloadDir : option string;
}.

(** Errors: the [TypeError] of a property access on [undefined], and the
    rejections of the external library. *)
Inductive Err := TypeError | LibraryError (code : nat).

#[global] Instance Err_eq_dec : EqDecision Err.
Proof. solve_decision. Defined.

Inductive Result (A : Type) := Ok (a : A) | Throw (e : Err).
Arguments Ok {A} a.
Arguments Throw {A} e.

(** Values of option objects passed to the external library. *)
Inductive Val :=
| VBool (b : bool)
| VStr (s : string)
| VArr (l : list string)
| VProxy (p : BrowserTypeLaunchOptionsProxy)
| VViewport (w : WindowSize).

(** A string in a condition is true when it is not empty; [undefined] and
    [null] are false. *)
Definition truthy (o : option string) : option string :=
  match o with
  | Some s => if decide (s = "") then None else Some s
  | None => None
  end.

(** [String.prototype.includes] *)
Fixpoint includes (s sub : string) : bool :=
  String.prefix sub s ||
  match s with
  | EmptyString => false
  | String _ s' => includes s' sub
  end.

(** ** Field assignments [ic.f = v] *)

Definition set_browserHandle (v : option Handle) (c : ConfigValue) : ConfigValue :=
  {| browserHandle := v; nonPersistantBrowserHandle := nonPersistantBrowserHandle c;
     browser := browser c; proxy := proxy c; headless := headless c; devtools := devtools c;
     userDataDir := userDataDir c; windowSize := windowSize c; blockFonts := blockFonts c;
     blockImages := blockImages c; blockCSS := blockCSS c;
     defaultNavigationTimeout := defaultNavigationTimeout c; extensions := extensions c;
     showPageError := showPageError c; userAgent := userAgent c; args := args c;
     hooks := hooks c; enableStealth := enableStealth c; downloadDir := downloadDir c |}.

Definition set_nonPersistantBrowserHandle (v : option Handle) (c : ConfigValue) : ConfigValue :=
  {| browserHandle := browserHandle c; nonPersistantBrowserHandle := v;
     browser := browser c; proxy := proxy c; headless := headless c; devtools := devtools c;
     userDataDir := userDataDir c; windowSize := windowSize c; blockFonts := blockFonts c;
     blockImages := blockImages c; blockCSS := blockCSS c;
     defaultNavigationTimeout := defaultNavigationTimeout c; extensions := extensions c;
     showPageError := showPageError c; userAgent := userAgent c; args := args c;
     hooks := hooks c; enableStealth := enableStealth c; downloadDir := downloadDir c |}.

Definition set_browser (v : Engine) (c : ConfigValue) : ConfigValue :=
  {| browserHandle := browserHandle c; nonPersistantBrowserHandle := nonPersistantBrowserHandle c;
     browser := v; proxy := proxy c; headless := headless c; devtools := devtools c;
     userDataDir := userDataDir c; windowSize := windowSize c; blockFonts := blockFonts c;
     blockImages := blockImages c; blockCSS := blockCSS c;
     defaultNavigationTimeout := defaultNavigationTimeout c; extensions := extensions c;
     showPageError := showPageError c; userAgent := userAgent c; args := args c;
     hooks := hooks c; enableStealth := enableStealth c; downloadDir := downloadDir c |}.

Definition set_proxy (v : option BrowserTypeLaunchOptionsProxy) (c : ConfigValue) : ConfigValue :=
  {| browserHandle := browserHandle c; nonPersistantBrowserHandle := nonPersistantBrowserHandle c;
     browser := browser c; proxy := v; headless := headless c; devtools := devtools c;
     userDataDir := userDataDir c; windowSize := windowSize c; blockFonts := blockFonts c;
     blockImages := blockImages c; blockCSS := blockCSS c;
     defaultNavigationTimeout := defaultNavigationTimeout c; extensions := extensions c;
     showPageError := showPageError c; userAgent := userAgent c; args := args c;
     hooks := hooks c; enableStealth := enableStealth c; downloadDir := downloadDir c |}.

Definition set_headless (v : bool) (c : ConfigValue) : ConfigValue :=
  {| browserHandle := browserHandle c; nonPersistantBrowserHandle := nonPersistantBrowserHandle c;
     browser := browser c; proxy := proxy c; headless := v; devtools := devtools c;
     userDataDir := userDataDir c; windowSize := windowSize c; blockFonts := blockFonts c;
     blockImages := blockImages c; blockCSS := blockCSS c;
     defaultNavigationTimeout := defaultNavigationTimeout c; extensions := extensions c;
     showPageError := showPageError c; userAgent := userAgent c; args := args c;
     hooks := hooks c; enableStealth := enableStealth c; downloadDir := downloadDir c |}.

Definition set_devtools (v : bool) (c : ConfigValue) : ConfigValue :=
  {| browserHandle := browserHandle c; nonPersistantBrowserHandle := nonPersistantBrowserHandle c;
     browser := browser c; proxy := proxy c; headless := headless c; devtools := v;
     userDataDir := userDataDir c; windowSize := windowSize c; blockFonts := blockFonts c;
     blockImages := blockImages c; blockCSS := blockCSS c;
     defaultNavigationTimeout := defaultNavigationTimeout c; extensions := extensions c;
     showPageError := showPageError c; userAgent := userAgent c; args := args c;
     hooks := hooks c; enableStealth := enableStealth c; downloadDir := downloadDir c |}.

Definition set_userDataDir (v : option string) (c : ConfigValue) : ConfigValue :=
  {| browserHandle := browserHandle c; nonPersistantBrowserHandle := nonPersistantBrowserHandle c;
     browser := browser c; proxy := proxy c; headless := headless c; devtools := devtools c;
     userDataDir := v; windowSize := windowSize c; blockFonts := blockFonts c;
     blockImages := blockImages c; blockCSS := blockCSS c;
     defaultNavigationTimeout := defaultNavigationTimeout c; extensions := extensions c;
     showPageError := showPageError c; userAgent := userAgent c; args := args c;
     hooks := hooks c; enableStealth := enableStealth c; downloadDir := downloadDir c |}.

Definition set_windowSize (v : WindowSize) (c : ConfigValue) : ConfigValue :=
  {| browserHandle := browserHandle c; nonPersistantBrowserHandle := nonPersistantBrowserHandle c;
     browser := browser c; proxy := proxy c; headless := headless c; devtools := devtools c;
     userDataDir := userDataDir c; windowSize := v; blockFonts := blockFonts c;
     blockImages := blockImages c; blockCSS := blockCSS c;
     defaultNavigationTimeout := defaultNavigationTimeout c; extensions := extensions c;
     showPageError := showPageError c; userAgent := userAgent c; args := args c;
     hooks := hooks c; enableStealth := enableStealth c; downloadDir := downloadDir c |}.

Definition set_blockFonts (v : bool) (c : ConfigValue) : ConfigValue :=
  {| browserHandle := browserHandle c; nonPersistantBrowserHandle := nonPersistantBrowserHandle c;
     browser := browser c; proxy := proxy c; headless := headless c; devtools := devtools c;
     userDataDir := userDataDir c; windowSize := windowSize c; blockFonts := v;
     blockImages := blockImages c; blockCSS := blockCSS c;
     defaultNavigationTimeout := defaultNavigationTimeout c; extensions := extensions c;
     showPageError := showPageError c; userAgent := userAgent c; args := args c;
     hooks := hooks c; enableStealth := enableStealth c; downloadDir := downloadDir c |}.

Definition set_blockImages (v : bool) (c : ConfigValue) : ConfigValue :=
  {| browserHandle := browserHandle c; nonPersistantBrowserHandle := nonPersistantBrowserHandle c;
     browser := browser c; proxy := proxy c; headless := headless c; devtools := devtools c;
     userDataDir := userDataDir c; windowSize := windowSize c; blockFonts := blockFonts c;
     blockImages := v; blockCSS := blockCSS c;
     defaultNavigationTimeout := defaultNavigationTimeout c; extensions := extensions c;
     showPageError := showPageError c; userAgent := userAgent c; args := args c;
     hooks := hooks c; enableStealth := enableStealth c; downloadDir := downloadDir c |}.

Definition set_blockCSS (v : bool) (c : ConfigValue) : ConfigValue :=
  {| browserHandle := browserHandle c; nonPersistantBrowserHandle := nonPersistantBrowserHandle c;
     browser := browser c; proxy := proxy c; headless := headless c; devtools := devtools c;
     userDataDir := userDataDir c; windowSize := windowSize c; blockFonts := blockFonts c;
     blockImages := blockImages c; blockCSS := v;
     defaultNavigationTimeout := defaultNavigationTimeout c; extensions := extensions c;
     showPageError := showPageError c; userAgent := userAgent c; args := args c;
     hooks := hooks c; enableStealth := enableStealth c; downloadDir := downloadDir c |}.

Definition set_defaultNavigationTimeout (v : Z) (c : ConfigValue) : ConfigValue :=
  {| browserHandle := browserHandle c; nonPersistantBrowserHandle := nonPersistantBrowserHandle c;
     browser := browser c; proxy := proxy c; headless := headless c; devtools := devtools c;
     userDataDir := userDataDir c; windowSize := windowSize c; blockFonts := blockFonts c;
     blockImages := blockImages c; blockCSS := blockCSS c;
     defaultNavigationTimeout := v; extensions := extensions c;
     showPageError := showPageError c; userAgent := userAgent c; args := args c;
     hooks := hooks c; enableStealth := enableStealth c; downloadDir := downloadDir c |}.

Definition set_extensions (v : list string) (c : ConfigValue) : ConfigValue :=
  {| browserHandle := browserHandle c; nonPersistantBrowserHandle := nonPersistantBrowserHandle c;
     browser := browser c; proxy := proxy c; headless := headless c; devtools := devtools c;
     userDataDir := userDataDir c; windowSize := windowSize c; blockFonts := blockFonts c;
     blockImages := blockImages c; blockCSS := blockCSS c;
     defaultNavigationTimeout := defaultNavigationTimeout c; extensions := v;
     showPageError := showPageError c; userAgent := userAgent c; args := args c;
     hooks := hooks c; enableStealth := enableStealth c; downloadDir := downloadDir c |}.

Definition set_showPageError (v : bool) (c : ConfigValue) : ConfigValue :=
  {| browserHandle := browserHandle c; nonPersistantBrowserHandle := nonPersistantBrowserHandle c;
     browser := browser c; proxy := proxy c; headless := headless c; devtools := devtools c;
     userDataDir := userDataDir c; windowSize := windowSize c; blockFonts := blockFonts c;
     blockImages := blockImages c; blockCSS := blockCSS c;
     defaultNavigationTimeout := defaultNavigationTimeout c; extensions := extensions c;
     showPageError := v; userAgent := userAgent c; args := args c;
     hooks := hooks c; enableStealth := enableStealth c; downloadDir := downloadDir c |}.

Definition set_userAgent (v : string) (c : ConfigValue) : ConfigValue :=
  {| browserHandle := browserHandle c; nonPersistantBrowserHandle := nonPersistantBrowserHandle c;
     browser := browser c; proxy := proxy c; headless := headless c; devtools := devtools c;
     userDataDir := userDataDir c; windowSize := windowSize c; blockFonts := blockFonts c;
     blockImages := blockImages c; blockCSS := blockCSS c;
     defaultNavigationTimeout := defaultNavigationTimeout c; extensions := extensions c;
     showPageError := showPageError c; userAgent := v; args := args c;
     hooks := hooks c; enableStealth := enableStealth c; downloadDir := downloadDir c |}.

Definition set_enableStealth (v : bool) (c : ConfigValue) : ConfigValue :=
  {| browserHandle := browserHandle c; nonPersistantBrowserHandle := nonPersistantBrowserHandle c;
     browser := browser c; proxy := proxy c; headless := headless c; devtools := devtools c;
     userDataDir := userDataDir c; windowSize := windowSize c; blockFonts := blockFonts c;
     blockImages := blockImages c; blockCSS := blockCSS c;
     defaultNavigationTimeout := defaultNavigationTimeout c; extensions := extensions c;
     showPageError := showPageError c; userAgent := userAgent c; args := args c;
     hooks := hooks c; enableStealth := v; downloadDir := downloadDir c |}.

Definition set_downloadDir (v : option string) (c : ConfigValue) : ConfigValue :=
  {| browserHandle := browserHandle c; nonPersistantBrowserHandle := nonPersistantBrowserHandle c;
     browser := browser c; proxy := proxy c; headless := headless c; devtools := devtools c;
     userDataDir := userDataDir c; windowSize := windowSize c; blockFonts := blockFonts c;
     blockImages := blockImages c; blockCSS := blockCSS c;
     defaultNavigationTimeout := defaultNavigationTimeout c; extensions := extensions c;
     showPageError := showPageError c; userAgent := userAgent c; args := args c;
     hooks := hooks c; enableStealth := enableStealth c; downloadDir := v |}.

(** ** The store *)

(** [config] is the module-level object [config : Config]; [records] is the
    heap of configuration records, [arg_arrays] and [hook_arrays] the heaps
    of the arrays behind [args] and [hooks]. *)
Record Store := {
  config : gmap string loc;
  records : list ConfigValue;
  arg_arrays : list (list string);
  hook_arrays : list (list Hook);
}.

(** [let defaultConfig: ConfigValue = { ... }].  Its two array literals are
    the arrays at reference 0 of the two array heaps. *)
Definition defaultConfig : ConfigValue :=
  {| browserHandle := None;
     browser := chromium;
     nonPersistantBrowserHandle := None;
     proxy := None;
     headless := false;
     devtools := false;
     userDataDir := None;
     windowSize := {| width := 595; height := 842 |};
     blockFonts := false;
     blockImages := false;
     blockCSS := false;
     enableStealth := true;
     defaultNavigationTimeout := 30 * 1000;
     extensions := [];
     showPageError := false;
     userAgent := "Mozilla/5.0 (Macintosh; Intel Mac OS X 10_15_1) AppleWebKit/537.36 (KHTML, like Gecko) Chrome/80.0.3987.87 Safari/537.36";
     args := 0%nat;
     hooks := 0%nat;
     downloadDir := None |}.

(** The store after the module is loaded:
    [let config: Config = { default: { ...defaultConfig } }]. *)
Definition initial_store : Store :=
  {| config := {[ "default" := 0%nat ]};
     records := [defaultConfig];
     arg_arrays := [[]];
     hook_arrays := [[]] |}.

(** [config[name]] together with the record it refers to. *)
Definition get_record (st : Store) (name : string) : option (loc * ConfigValue) :=
  l ← config st !! name; c ← records st !! l; Some (l, c).

Definition set_records (rs : list ConfigValue) (st : Store) : Store :=
  {| config := config st; records := rs;
     arg_arrays := arg_arrays st; hook_arrays := hook_arrays st |}.

(** [config[name] = { ...src }]: a new record with the fields of [src]. *)
Definition bind_copy (name : string) (src : ConfigValue) (st : Store) : Store :=
  {| config := <[name := length (records st)]> (config st);
     records := (records st ++ [src])%list;
     arg_arrays := arg_arrays st; hook_arrays := hook_arrays st |}.

(** [config[name].f = v], with [f] the assignment to the field. *)
Definition assign (name : string) (f : ConfigValue → ConfigValue) (st : Store) : Result Store :=
  match get_record st name with
  | Some (l, c) => Ok (set_records (<[l := f c]> (records st)) st)
  | None => Throw TypeError
  end.

(** The configuration of an instance as a reader of [getConfig] sees it:
    the record together with the contents of its arrays. *)
Record ConfigView := {
  view_record : ConfigValue;
  view_args : list string;
  view_hooks : list Hook;
}.

Definition view (st : Store) (name : string) : option ConfigView :=
  '(_, c) ← get_record st name;
  a ← arg_arrays st !! args c;
  h ← hook_arrays st !! hooks c;
  Some {| view_record := c; view_args := a; view_hooks := h |}.

(** ** The object returned by [fastPage(instanceName)]: synchronous methods *)

Module fastPage.

(** [async function init(useCurrentDefaultConfig = true)].  The body runs
    to its end without suspending.  The result is [None] only when
    [config.default] is missing, which no operation of the module brings
    about (see [store_wf]). *)
Definition init (instanceName : string) (useCurrentDefaultConfig : option bool)
    (st : Store) : option Store :=
  if default true useCurrentDefaultConfig then
    '(_, d) ← get_record st "default";
    Some (bind_copy instanceName d st)
  else
    Some (bind_copy instanceName defaultConfig st).

Definition setProxy (instanceName : string) (value : BrowserTypeLaunchOptionsProxy) :=
  assign instanceName (set_proxy (Some value)).

Definition setDefaultBrowser (instanceName : string) (name : Engine) :=
  assign instanceName (set_browser name).

Definition setShowPageError (instanceName : string) (value : bool) :=
  assign instanceName (set_showPageError value).

Definition setHeadless (instanceName : string) (value : option bool) :=
  assign instanceName (set_headless (default false value)).

Definition setDevtools (instanceName : string) (value : option bool) :=
  assign instanceName (set_devtools (default true value)).

Definition setUserDataDir (instanceName : string) (value : string) :=
  assign instanceName (set_userDataDir (Some value)).

Definition setUserAgent (instanceName : string) (value : string) :=
  assign instanceName (set_userAgent value).

Definition setWindowSizeArg (instanceName : string) (value : WindowSize) :=
  assign instanceName (set_windowSize value).

Definition setExtensionsPaths (instanceName : string) (value : list string) :=
  assign instanceName (set_extensions value).

Definition setStealth (instanceName : string) (value : bool) :=
  assign instanceName (set_enableStealth value).

Definition setDefaultNavigationTimeout (instanceName : string) (value : Z) :=
  assign instanceName (set_defaultNavigationTimeout value).

Definition setDownloadDir (instanceName : string) (value : string) :=
  assign instanceName (set_downloadDir (Some value)).

Definition blockImages (instanceName : string) (value : option bool) :=
  assign instanceName (set_blockImages (default true value)).

Definition blockFonts (instanceName : string) (value : option bool) :=
  assign instanceName (set_blockFonts (default true value)).

Definition blockCSS (instanceName : string) (value : option bool) :=
  assign instanceName (set_blockCSS (default true value)).

(** [config[instanceName].hooks.push({ name, action })]: the array behind
    the [hooks] field grows in place. *)
Definition addHook (instanceName : string) (name : string) (action : nat)
    (st : Store) : Result Store :=
  match get_record st instanceName with
  | Some (_, c) =>
      match hook_arrays st !! hooks c with
      | Some hs =>
          Ok {| config := config st; records := records st;
                arg_arrays := arg_arrays st;
                hook_arrays :=
                  <[hooks c := (hs ++ [{| hook_name := name; hook_action := action |}])%list]>
                    (hook_arrays st) |}
      | None => Throw TypeError
      end
  | None => Throw TypeError
  end.

(** [config[instanceName].args.push(arg)] *)
Definition addArg (instanceName : string) (arg : string) (st : Store) : Result Store :=
  match get_record st instanceName with
  | Some (_, c) =>
      match arg_arrays st !! args c with
      | Some a =>
          Ok {| config := config st; records := records st;
                arg_arrays := <[args c := (a ++ [arg])%list]> (arg_arrays st);
                hook_arrays := hook_arrays st |}
      | None => Throw TypeError
      end
  | None => Throw TypeError
  end.

(** The argument of [getConfig(instanceName: string = "default")]: left
    out, [null], or a name.  The parameter hides the instance name of the
    enclosing [fastPage] call. *)
Inductive GetConfigArg := Omitted | Null | Named (name : string).

Inductive GetConfigResult :=
| WholeConfig (c : gmap string loc)
| OneConfig (r : option loc).

Definition getConfig (arg : GetConfigArg) (st : Store) : GetConfigResult :=
  match arg with
  | Null => WholeConfig (config st)
  | Omitted => OneConfig (config st !! "default")
  | Named n => OneConfig (config st !! n)
  end.

End fastPage.

(** The setters of the object, as data. *)
Inductive Setter :=
| SetProxy (value : BrowserTypeLaunchOptionsProxy)
| SetDefaultBrowser (name : Engine)
| SetShowPageError (value : bool)
| SetHeadless (value : option bool)
| SetDevtools (value : option bool)
| SetUserDataDir (value : string)
| SetUserAgent (value : string)
| SetWindowSizeArg (value : WindowSize)
| SetExtensionsPaths (value : list string)
| SetStealth (value : bool)
| SetDefaultNavigationTimeout (value : Z)
| SetDownloadDir (value : string)
| BlockImages (value : option bool)
| BlockFonts (value : option bool)
| BlockCSS (value : option bool)
| AddHook (name : string) (action : nat)
| AddArg (arg : string).

Definition call_setter (instanceName : string) (s : Setter) : Store → Result Store :=
  match s with
  | SetProxy v => fastPage.setProxy instanceName v
  | SetDefaultBrowser v => fastPage.setDefaultBrowser instanceName v
  | SetShowPageError v => fastPage.setShowPageError instanceName v
  | SetHeadless v => fastPage.setHeadless instanceName v
  | SetDevtools v => fastPage.setDevtools instanceName v
  | SetUserDataDir v => fastPage.setUserDataDir instanceName v
  | SetUserAgent v => fastPage.setUserAgent instanceName v
  | SetWindowSizeArg v => fastPage.setWindowSizeArg instanceName v
  | SetExtensionsPaths v => fastPage.setExtensionsPaths instanceName v
  | SetStealth v => fastPage.setStealth instanceName v
  | SetDefaultNavigationTimeout v => fastPage.setDefaultNavigationTimeout instanceName v
  | SetDownloadDir v => fastPage.setDownloadDir instanceName v
  | BlockImages v => fastPage.blockImages instanceName v
  | BlockFonts v => fastPage.blockFonts instanceName v
  | BlockCSS v => fastPage.blockCSS instanceName v
  | AddHook n a => fastPage.addHook instanceName n a
  | AddArg a => fastPage.addArg instanceName a
  end.

(** The setters that assign a field of the record (all but [addHook] and
    [addArg], which push onto an array). *)
Definition assigns_field (s : Setter) : bool :=
  match s with
  | AddHook _ _ | AddArg _ => false
  | _ => true
  end.

(** ** Launch arguments, lines 105-160 of [browser] *)

Definition chromium_flags (ic : ConfigValue) : list string :=
  [ "--no-sandbox";
    "--allow-running-insecure-content";
    "--disable-background-timer-throttling";
    "--disable-backgrounding-occluded-windows";
    "--disable-renderer-backgrounding";
    "--disable-web-security";
    "--window-size=" +:+ pretty (width (windowSize ic)) +:+ ","
       +:+ pretty (height (windowSize ic)) ].

Definition extension_flags (ic : ConfigValue) : list string :=
  if decide (0 < length (extensions ic))%nat then
    [ "--disable-extensions-except=" +:+ String.concat "," (extensions ic);
      "--load-extension=" +:+ String.concat "," (extensions ic) ]
  else [].

(** [let args = [...ic.args]] and the chromium block; [ic_args] is the
    content of the array behind [ic.args]. *)
Definition launch_args (ic : ConfigValue) (ic_args : list string) : list string :=
  match browser ic with
  | chromium => (ic_args ++ chromium_flags ic ++ extension_flags ic)%list
  | _ => ic_args
  end.

Definition launchOption (ic : ConfigValue) (a : list string) : gmap string Val :=
  let o : gmap string Val :=
    {[ "headless" := VBool (headless ic);
       "args" := VArr a;
       "devtools" := VBool (devtools ic);
       "acceptDownloads" := VBool true ]} in
  let o :=
    match truthy (downloadDir ic) with
    | Some d => <["downloadsPath" := VStr d]> o
    | None => o
    end in
  match proxy ic with
  | Some p => <["proxy" := VProxy p]> o
  | None => o
  end.

(** [{ acceptDownloads: true, colorScheme: "dark", ...launchOption }]: the
    properties of [launchOption] come last and win. *)
Definition persistentOption (o : gmap string Val) : gmap string Val :=
  o ∪ {[ "acceptDownloads" := VBool true; "colorScheme" := VStr "dark" ]}.

Definition contextOption (ic : ConfigValue) : gmap string Val :=
  {[ "ignoreHTTPSErrors" := VBool true;
     "acceptDownloads" := VBool true;
     "bypassCSP" := VBool true;
     "userAgent" := VStr (userAgent ic);
     "colorScheme" := VStr "dark";
     "viewport" := VViewport (windowSize ic) ]}.

(** ** Events: calls of the external library and of the loggers *)

Inductive Event :=
| EvLaunch (instanceName : string) (engine : Engine) (options : gmap string Val)
| EvLaunchPersistentContext (instanceName : string) (engine : Engine)
    (userDataDir : string) (options : gmap string Val)
| EvNewContext (b : Handle) (options : gmap string Val)
| EvClose (h : Handle) (awaited : bool)
| EvError (message : string) (e : Err)
| EvConsoleLog (message : string) (e : Err).

Definition is_launch (name : string) (ev : Event) : bool :=
  match ev with
  | EvLaunch n _ _ | EvLaunchPersistentContext n _ _ _ => bool_decide (n = name)
  | _ => false
  end.

(** The number of launch calls made for an instance. *)
Definition launch_count (name : string) (tr : list Event) : nat :=
  length (filter (λ ev, is_launch name ev = true) tr).

(** ** The lock and the shared state *)

(** [let lock = new AsyncLock()]: a set of keys; [lock.acquire(key, fn)]
    runs [fn] when no other function holds [key] and keeps the key until the
    promise of [fn] settles.  A waiting call is a call that has not taken
    its first step. *)
Definition launch_key (instanceName : string) : string := "instance_" +:+ instanceName.
Definition close_key (instanceName : string) : string := "instance_close_" +:+ instanceName.

Record Shared := {
  store : Store;
  held : gset string;
  trace : list Event;
  next_handle : Handle;
}.

Definition with_store (st : Store) (sh : Shared) : Shared :=
  {| store := st; held := held sh; trace := trace sh; next_handle := next_handle sh |}.

Definition emit (ev : Event) (sh : Shared) : Shared :=
  {| store := store sh; held := held sh; trace := trace sh ++ [ev];
     next_handle := next_handle sh |}.

Definition acquire (key : string) (sh : Shared) : Shared :=
  {| store := store sh; held := {[ key ]} ∪ held sh; trace := trace sh;
     next_handle := next_handle sh |}.

Definition release (key : string) (sh : Shared) : Shared :=
  {| store := store sh; held := held sh ∖ {[ key ]}; trace := trace sh;
     next_handle := next_handle sh |}.

(** The external library resolves a promise with a new object. *)
Definition new_handle (sh : Shared) : Shared :=
  {| store := store sh; held := held sh; trace := trace sh;
     next_handle := S (next_handle sh) |}.

(** [ic.f = v] on the record behind the reference [ic]. *)
Definition update_record (ic : loc) (f : ConfigValue → ConfigValue) (sh : Shared) : Shared :=
  with_store (set_records (alter f ic (records (store sh))) (store sh)) sh.

(** The outcome of an awaited promise of the external library. *)
Inductive Response := Resolve | Reject (e : Err).

(** ** [browser(instanceName)] *)

Inductive BrowserPc :=
| BStart
| BLaunchPersistent (ic : loc)
| BLaunch (ic : loc)
| BNewContext (ic : loc) (b : Handle)
| BResolved (h : Handle)
| BRejected (e : Err).

(** [.catch((err) => { error(...); throw err })] *)
Definition launch_failed (e : Err) (sh : Shared) : BrowserPc * Shared :=
  (BRejected e, emit (EvError "Error on starting new page: Lock Error ->" e) sh).

(** The locked function from its start to its first [await], run when the
    key is free. *)
Definition browser_enter (instanceName : string) (sh : Shared) : BrowserPc * Shared :=
  match get_record (store sh) instanceName with
  | None => launch_failed TypeError sh
  | Some (ic, c) =>
      match browserHandle c with
      | Some h => (BResolved h, sh)
      | None =>
          match arg_arrays (store sh) !! args c with
          | None => launch_failed TypeError sh
          | Some ic_args =>
              let o := launchOption c (launch_args c ic_args) in
              match truthy (userDataDir c) with
              | Some dir =>
                  (BLaunchPersistent ic,
                   emit (EvLaunchPersistentContext instanceName (browser c) dir
                           (persistentOption o))
                     (acquire (launch_key instanceName) sh))
              | None =>
                  (BLaunch ic,
                   emit (EvLaunch instanceName (browser c) o)
                     (acquire (launch_key instanceName) sh))
              end
          end
      end
  end.

(** One step of a call of [browser].  [None]: the call cannot move, because
    it waits for the key, or has settled. *)
Definition browser_step (instanceName : string) (r : Response) (pc : BrowserPc)
    (sh : Shared) : option (BrowserPc * Shared) :=
  match pc with
  | BStart =>
      if decide (launch_key instanceName ∈ held sh) then None
      else Some (browser_enter instanceName sh)
  | BLaunchPersistent ic =>
      match r with
      | Resolve =>
          let h := next_handle sh in
          Some (BResolved h,
                release (launch_key instanceName)
                  (update_record ic (set_browserHandle (Some h)) (new_handle sh)))
      | Reject e => Some (launch_failed e (release (launch_key instanceName) sh))
      end
  | BLaunch ic =>
      match r with
      | Resolve =>
          let b := next_handle sh in
          c ← records (store sh) !! ic;
          Some (BNewContext ic b,
                emit (EvNewContext b (contextOption c))
                  (update_record ic (set_nonPersistantBrowserHandle (Some b))
                     (new_handle sh)))
      | Reject e => Some (launch_failed e (release (launch_key instanceName) sh))
      end
  | BNewContext ic b =>
      match r with
      | Resolve =>
          let h := next_handle sh in
          Some (BResolved h,
                release (launch_key instanceName)
                  (update_record ic (set_browserHandle (Some h)) (new_handle sh)))
      | Reject e => Some (launch_failed e (release (launch_key instanceName) sh))
      end
  | BResolved _ | BRejected _ => None
  end.

(** ** The asynchronous methods of [fastPage(instanceName)] *)

(** [newPage], up to the point where [browser(instanceName)] has settled;
    the rest of the method is [brow.newPage()] and [makePageFaster]. *)
Inductive NewPagePc :=
| NPStart
| NPInit
| NPBrowser (b : BrowserPc).

Inductive ClosePc :=
| CStart
| CBrowser (b : BrowserPc)
| CClosing (h : Handle)
| CResolved (v : option string).

Inductive Task :=
| TGetBrowserHandle (instanceName : string) (b : BrowserPc)
| TNewPage (instanceName : string) (p : NewPagePc)
| TNewPage1 (instanceName : string) (b : BrowserPc)
| TCloseBrowser (instanceName : string) (c : ClosePc).

(** [.catch((err) => console.log(...))]: the promise of [closeBrowser]
    resolves with [undefined]. *)
Definition close_failed (e : Err) (sh : Shared) : ClosePc * Shared :=
  (CResolved None, emit (EvConsoleLog "Error on closing browser: Lock Error ->" e) sh).

(** [config[instanceName].browserHandle = undefined;
     config[instanceName].nonPersistantBrowserHandle = undefined;
     return "closed"] *)
Definition close_clear (instanceName : string) (sh : Shared) : ClosePc * Shared :=
  match get_record (store sh) instanceName with
  | Some (l, _) =>
      (CResolved (Some "closed"),
       update_record l (set_nonPersistantBrowserHandle None)
         (update_record l (set_browserHandle None) sh))
  | None => close_failed TypeError sh
  end.

(** The locked function of [closeBrowser] from its start to its first
    [await] or to its end. *)
Definition close_enter (instanceName : string) (sh : Shared) : ClosePc * Shared :=
  match get_record (store sh) instanceName with
  | None => close_failed TypeError sh
  | Some (_, c) =>
      match nonPersistantBrowserHandle c with
      | Some b => close_clear instanceName (emit (EvClose b false) sh)
      | None =>
          match browserHandle c with
          | Some _ => (CBrowser BStart, acquire (close_key instanceName) sh)
          | None => close_clear instanceName sh
          end
      end
  end.

Definition close_step (instanceName : string) (r : Response) (pc : ClosePc)
    (sh : Shared) : option (ClosePc * Shared) :=
  match pc with
  | CStart =>
      if decide (close_key instanceName ∈ held sh) then None
      else Some (close_enter instanceName sh)
  | CBrowser (BResolved bHandle) =>
      Some (CClosing bHandle, emit (EvClose bHandle true) sh)
  | CBrowser (BRejected e) =>
      Some (close_failed e (release (close_key instanceName) sh))
  | CBrowser b =>
      '(b', sh') ← browser_step instanceName r b sh;
      Some (CBrowser b', sh')
  | CClosing _ =>
      match r with
      | Resolve => Some (close_clear instanceName (release (close_key instanceName) sh))
      | Reject e => Some (close_failed e (release (close_key instanceName) sh))
      end
  | CResolved _ => None
  end.

Definition newPage_step (instanceName : string) (r : Response) (pc : NewPagePc)
    (sh : Shared) : option (NewPagePc * Shared) :=
  match pc with
  | NPStart =>
      match config (store sh) !! instanceName with
      | None =>
          st ← fastPage.init instanceName None (store sh);
          Some (NPInit, with_store st sh)
      | Some _ => Some (NPBrowser BStart, sh)
      end
  | NPInit => Some (NPBrowser BStart, sh)
  | NPBrowser b =>
      '(b', sh') ← browser_step instanceName r b sh;
      Some (NPBrowser b', sh')
  end.

Definition task_step (r : Response) (t : Task) (sh : Shared) : option (Task * Shared) :=
  match t with
  | TGetBrowserHandle n b =>
      '(b', sh') ← browser_step n r b sh; Some (TGetBrowserHandle n b', sh')
  | TNewPage n p =>
      '(p', sh') ← newPage_step n r p sh; Some (TNewPage n p', sh')
  | TNewPage1 n b =>
      '(b', sh') ← browser_step n r b sh; Some (TNewPage1 n b', sh')
  | TCloseBrowser n c =>
      '(c', sh') ← close_step n r c sh; Some (TCloseBrowser n c', sh')
  end.

(** ** The system: calls in flight over the shared state *)

Record System := {
  shared : Shared;
  tasks : list Task;
}.

(** Task [i] runs until its next [await]; [r] is the outcome of the promise
    it was waiting for. *)
Definition step_at (i : nat) (r : Response) (s : System) : option System :=
  t ← tasks s !! i;
  '(t', sh') ← task_step r t (shared s);
  Some {| shared := sh'; tasks := <[i := t']> (tasks s) |}.

Fixpoint run (sched : list (nat * Response)) (s : System) : option System :=
  match sched with
  | [] => Some s
  | (i, r) :: sched' => s' ← step_at i r s; run sched' s'
  end.

(** The state a schedule leads to; the state itself when the schedule asks
    a call to move that cannot. *)
Definition run_or (sched : list (nat * Response)) (s : System) : System :=
  default s (run sched s).

(** No promise of the external library is rejected. *)
Definition all_resolve (sched : list (nat * Response)) : Prop :=
  Forall (λ x, x.2 = Resolve) sched.

Definition task_name (t : Task) : string :=
  match t with
  | TGetBrowserHandle n _ | TNewPage n _ | TNewPage1 n _ | TCloseBrowser n _ => n
  end.

(** The call of [browser] a task is in, if any. *)
Definition browser_pc (t : Task) : option BrowserPc :=
  match t with
  | TGetBrowserHandle _ b | TNewPage1 _ b => Some b
  | TNewPage _ (NPBrowser b) => Some b
  | TCloseBrowser _ (CBrowser b) => Some b
  | _ => None
  end.

Definition in_section (b : BrowserPc) : bool :=
  match b with
  | BLaunchPersistent _ | BLaunch _ | BNewContext _ _ => true
  | _ => false
  end.

Definition settled (b : BrowserPc) : bool :=
  match b with
  | BResolved _ | BRejected _ => true
  | _ => false
  end.

(** The keys a task holds. *)
Definition browser_keys (instanceName : string) (b : BrowserPc) : list string :=
  if in_section b then [launch_key instanceName] else [].

Definition task_keys (t : Task) : list string :=
  match t with
  | TGetBrowserHandle n b | TNewPage1 n b => browser_keys n b
  | TNewPage n (NPBrowser b) => browser_keys n b
  | TNewPage _ _ => []
  | TCloseBrowser n (CBrowser b) => close_key n :: browser_keys n b
  | TCloseBrowser n (CClosing _) => [close_key n]
  | TCloseBrowser _ _ => []
  end.

(** The page-open and handle requests: [getBrowserHandle], [newPage],
    [newPage1]. *)
Definition is_open_request (t : Task) : bool :=
  match t with
  | TCloseBrowser _ _ => false
  | _ => true
  end.

(** A call that has not started. *)
Definition not_started (t : Task) : bool :=
  match t with
  | TGetBrowserHandle _ BStart | TNewPage1 _ BStart | TNewPage _ NPStart
  | TCloseBrowser _ CStart => true
  | _ => false
  end.

(** The handle a page-open or handle request has received from [browser]. *)
Definition received (t : Task) : option Handle :=
  match t with
  | TGetBrowserHandle _ (BResolved h) | TNewPage1 _ (BResolved h)
  | TNewPage _ (NPBrowser (BResolved h)) => Some h
  | _ => None
  end.

(** Nothing in flight: no key is held and no call has started. *)
Definition quiescent (s : System) : Prop :=
  held (shared s) = ∅ ∧ Forall (λ t, not_started t = true) (tasks s).

(** Stores the operations of the module produce: [config.default] exists,
    every name refers to a record of its own, and the array references of
    the records are allocated. *)
Record store_wf (st : Store) : Prop := {
  wf_default : is_Some (config st !! "default");
  wf_records : ∀ n l, config st !! n = Some l → (l < length (records st))%nat;
  wf_inj : ∀ n1 n2 l, config st !! n1 = Some l → config st !! n2 = Some l → n1 = n2;
  wf_args : ∀ c, c ∈ records st → (args c < length (arg_arrays st))%nat;
  wf_hooks : ∀ c, c ∈ records st → (hooks c < length (hook_arrays st))%nat;
  wf_default_arrays : (0 < length (arg_arrays st))%nat ∧ (0 < length (hook_arrays st))%nat;
}.

(** ** Critical sections *)

Inductive SectionKind := LaunchSection | CloseSection.

Definition section_key (k : SectionKind) (instanceName : string) : string :=
  match k with
  | LaunchSection => launch_key instanceName
  | CloseSection => close_key instanceName
  end.

(** The task is suspended at an [await] inside the section. *)
Definition inside (k : SectionKind) (instanceName : string) (t : Task) : Prop :=
  task_name t = instanceName ∧
  match k with
  | LaunchSection => ∃ b, browser_pc t = Some b ∧ in_section b = true
  | CloseSection => ∃ c, t = TCloseBrowser instanceName c ∧
                         match c with CBrowser _ | CClosing _ => True | _ => False end
  end.

(** The next step of the task runs code of the section: it enters the
    section or continues in it. *)
Definition at_section (k : SectionKind) (instanceName : string) (t : Task) : Prop :=
  task_name t = instanceName ∧
  match k with
  | LaunchSection => ∃ b, browser_pc t = Some b ∧ settled b = false
  | CloseSection => ∃ c, t = TCloseBrowser instanceName c ∧
                         match c with CResolved _ => False | _ => True end
  end.

(** Sections of kind [k1] and of kind [k2] of an instance never execute
    concurrently: in no run does a task run code of a [k2] section while
    another task is suspended inside a [k1] section. *)
Definition sections_exclusive (k1 k2 : SectionKind) (instanceName : string) : Prop :=
  ∀ s0 sched s i j ti tj r s',
    quiescent s0 → run sched s0 = Some s →
    i ≠ j → tasks s !! i = Some ti → tasks s !! j = Some tj →
    inside k1 instanceName ti → at_section k2 instanceName tj →
    step_at j r s = Some s' → False.

(** The claim that launch and close of an instance are one exclusive
    section: one key, and no overlap in either order. *)
Definition same_exclusive_section (instanceName : string) : Prop :=
  section_key LaunchSection instanceName = section_key CloseSection instanceName
  ∧ sections_exclusive LaunchSection CloseSection instanceName
  ∧ sections_exclusive CloseSection LaunchSection instanceName.

(** The keys held by the calls in flight, and the invariant of the lock:
    no key is held twice, and the held keys are those of the calls. *)
Definition all_keys (ts : list Task) : list string := ts ≫= task_keys.

Definition lock_inv (s : System) : Prop :=
  NoDup (all_keys (tasks s))
  ∧ ∀ k, k ∈ held (shared s) ↔ k ∈ all_keys (tasks s).

(** ** [makePageFaster] *)

Abbreviation Page := nat (only parsing).
Abbreviation CDPSession := nat (only parsing).

Inductive Listener :=
| PageErrorListener1
| PageErrorListener2
| RequestListener (instanceConfig : loc).

Inductive PageEvent :=
| PHookAction (action : nat) (page : Page)
| PSetDefaultNavigationTimeout (page : Page) (t : Z)
| PSetDefaultTimeout (page : Page) (t : Z)
| PNewCDPSession (page : Page)
| PPageStealth (page : Page)
| PAddScriptTag (page : Page)
| POn (page : Page) (event : string) (l : Listener)
| PSend (session : CDPSession) (method : string) (state : string).

(** The outcomes of the awaited calls of [makePageFaster]. *)
Record PageEnv := {
  env_newCDPSession : Result CDPSession;
  env_pageStealth : Result unit;
  env_addScriptTag : Result unit;
  env_send : Result unit;
}.

(** An asynchronous computation run to its end: the calls it made and the
    value or error its promise settled with. *)
Definition Async (A : Type) : Type := list PageEvent * Result A.

Definition ret {A} (a : A) : Async A := ([], Ok a).

Definition bind {A B} (m : Async A) (f : A → Async B) : Async B :=
  match m with
  | (w, Ok a) => let '(w', r) := f a in (w ++ w', r)
  | (w, Throw e) => (w, Throw e)
  end.

Definition call (ev : PageEvent) : Async unit := ([ev], Ok tt).

Definition await {A} (ev : PageEvent) (r : Result A) : Async A := ([ev], r).

Definition when (b : bool) (m : Async unit) : Async unit := if b then m else ret tt.

Notation "'do' x <- m ;; k" := (bind m (λ x, k))
  (at level 10, x name, m at level 99, k at level 200, only parsing).

(** [hooks.filter((v) => v.name === name).forEach(async (v) => await v.action(...args))]:
    every matching action is called; none is waited for. *)
Definition loadHooks (hs : list Hook) (name : string) (page : Page) : Async unit :=
  (map (λ v, PHookAction (hook_action v) page)
       (filter (λ v, hook_name v = name) hs), Ok tt).

Definition makePageFaster (page : Page) (instanceName : string) (st : Store)
    (env : PageEnv) : Async (option CDPSession * Page) :=
  match get_record st instanceName with
  | None => ([], Throw TypeError)
  | Some (instanceConfig, c) =>
      match hook_arrays st !! hooks c with
      | None => ([], Throw TypeError)
      | Some hs =>
          do _ <- loadHooks hs "make_page_faster" page ;;
          do _ <- call (PSetDefaultNavigationTimeout page (defaultNavigationTimeout c)) ;;
          do _ <- call (PSetDefaultTimeout page (defaultNavigationTimeout c)) ;;
          do session <-
            (if decide (browser c = chromium) then
               do s <- await (PNewCDPSession page) (env_newCDPSession env) ;; ret (Some s)
             else ret None) ;;
          do _ <- when (enableStealth c) (await (PPageStealth page) (env_pageStealth env)) ;;
          do _ <- await (PAddScriptTag page) (env_addScriptTag env) ;;
          do _ <- when (showPageError c)
                    (do _ <- call (POn page "pageerror" PageErrorListener1) ;;
                     call (POn page "pageerror" PageErrorListener2)) ;;
          do _ <- when (blockCSS c || blockFonts c || blockImages c)
                    (call (POn page "request" (RequestListener instanceConfig))) ;;
          do _ <- match session with
                  | Some s =>
                      await (PSend s "Page.setWebLifecycleState" "active") (env_send env)
                  | None => ret tt
                  end ;;
          ret (session, page)
      end
  end.

Inductive RequestAction := Abort | Continue.

(** The listener installed on ["request"]; it reads the flags of the record
    it closed over when the request arrives. *)
Definition request_listener (st : Store) (instanceConfig : loc) (resourceType : string)
    : option RequestAction :=
  c ← records st !! instanceConfig;
  Some (if (blockImages c && bool_decide (resourceType = "image"))
           || (blockFonts c && bool_decide (resourceType = "font"))
           || (blockCSS c && bool_decide (resourceType = "stylesheet"))
        then Abort else Continue).

(** The resource type belongs to a category the record blocks. *)
Definition blocked (c : ConfigValue) (resourceType : string) : Prop :=
  (blockImages c = true ∧ resourceType = "image")
  ∨ (blockFonts c = true ∧ resourceType = "font")
  ∨ (blockCSS c = true ∧ resourceType = "stylesheet").

Definition is_request_listener (ev : PageEvent) : bool :=
  match ev with
  | POn _ "request" _ => true
  | _ => false
  end.

Definition is_send (ev : PageEvent) : bool :=
  match ev with
  | PSend _ _ _ => true
  | _ => false
  end.

Definition env_ok (env : PageEnv) : Prop :=
  (∃ s, env_newCDPSession env = Ok s) ∧ env_pageStealth env = Ok tt
  ∧ env_addScriptTag env = Ok tt ∧ env_send env = Ok tt.

(** ** [waitForFrame] *)

Record Frame := { frame_id : nat; url : string }.

(** [page.frames()] at the successive scans of the loop: [frames k] is the
    list the [k]-th call returns. *)
Definition FrameSource := nat → list Frame.

Definition matches (frameUrl : string) (f : Frame) : bool := includes (url f) frameUrl.

(** The loop of [waitForFrame], from scan [k], for at most [fuel] scans.
    The result is the frame returned and the delays slept through before. *)
Fixpoint waitForFrame_loop (fuel : nat) (frames : FrameSource) (frameUrl : string)
    (k : nat) (slept : list Z) : option (Frame * list Z) :=
  match fuel with
  | O => None
  | S fuel' =>
      match List.find (matches frameUrl) (frames k) with
      | Some f => Some (f, slept)
      | None => waitForFrame_loop fuel' frames frameUrl (S k) (slept ++ [100%Z])
      end
  end.

Definition waitForFrame (fuel : nat) (frames : FrameSource) (frameUrl : string)
    : option (Frame * list Z) :=
  waitForFrame_loop fuel frames frameUrl 0 [].

(** ** Example data *)

Definition example_frames : FrameSource := λ k,
  if (k <? 3)%nat then
    [ {| frame_id := 0; url := "about:blank" |} ]
  else
    [ {| frame_id := 0; url := "about:blank" |};
      {| frame_id := 1; url := "https://x.org/pay" |};
      {| frame_id := 2; url := "https://y.org/pay" |} ].

Definition example_env : PageEnv :=
  {| env_newCDPSession := Ok 7%nat; env_pageStealth := Ok tt;
     env_addScriptTag := Ok tt; env_send := Ok tt |}.

(** The store after [fastPage().blockImages()]. *)
Definition example_store_block_images : Store :=
  set_records [set_blockImages true defaultConfig] initial_store.

(** The shared state after the module is loaded. *)
Definition initial_shared : Shared :=
  {| store := initial_store; held := ∅; trace := []; next_handle := 0%nat |}.

(** One call in flight over a given store. *)
Definition single (st : Store) (t : Task) : System :=
  {| shared := with_store st initial_shared; tasks := [t] |}.

(** A handle request and a close request for the default instance. *)
Definition example_launch_and_close : System :=
  {| shared := initial_shared;
     tasks := [TGetBrowserHandle "default" BStart; TCloseBrowser "default" CStart] |}.

(** The store after [fastPage().setUserDataDir("/tmp/profile")]. *)
Definition example_store_persistent : Store :=
  set_records [set_userDataDir (Some "/tmp/profile") defaultConfig] initial_store.

(** Over a persistent profile: a handle request, a close request, and a
    second handle request. *)
Definition example_close_and_launch : System :=
  {| shared := with_store example_store_persistent initial_shared;
     tasks := [TGetBrowserHandle "default" BStart; TCloseBrowser "default" CStart;
               TGetBrowserHandle "default" BStart] |}.

(** Three concurrent requests for the default instance. *)
Definition example_three_requests : System :=
  {| shared := initial_shared;
     tasks := [TGetBrowserHandle "default" BStart; TNewPage "default" NPStart;
               TNewPage1 "default" BStart] |}.

(** The shared state while the launch of the default instance is awaited. *)
Definition example_shared_launching : Shared :=
  (browser_enter "default" initial_shared).2.

(** ** The invariant of lazy launching *)

(** The record a call of [browser] captured in [ic]. *)
Definition section_ic (b : BrowserPc) : option loc :=
  match b with
  | BLaunchPersistent ic | BLaunch ic | BNewContext ic _ => Some ic
  | _ => None
  end.

(** The call of [browser] made for the request has settled. *)
Definition finished (t : Task) : bool :=
  match browser_pc t with
  | Some b => settled b
  | None => false
  end.

Definition rejected (t : Task) : bool :=
  match browser_pc t with
  | Some (BRejected _) => true
  | _ => false
  end.

(** [k] launches of the instance were called before the requests were
    issued.  While the instance has no handle, one more launch was called
    exactly when the launch key is held; once it has a handle, exactly one
    more launch was called and the key is free. *)
Definition launch_state_ok (n : string) (k : nat) (c : ConfigValue) (sh : Shared) : Prop :=
  match browserHandle c with
  | None =>
      launch_count n (trace sh)
      = (k + if decide (launch_key n ∈ held sh) then 1 else 0)%nat
  | Some _ => launch_count n (trace sh) = S k ∧ launch_key n ∉ held sh
  end.

(** The invariant of a system of page-open and handle requests for an
    instance [n] that had no handle when they were issued; [h0] is the next
    object identity of the external library at that time. *)
Record launch_inv (n : string) (k : nat) (h0 : Handle) (s : System) : Prop := {
  li_wf : store_wf (store (shared s));
  li_lock : lock_inv s;
  li_open : Forall (λ t, is_open_request t = true) (tasks s);
  li_ic : ∀ t b ic, t ∈ tasks s → browser_pc t = Some b → section_ic b = Some ic →
          config (store (shared s)) !! task_name t = Some ic;
  li_not_rejected : ∀ t, t ∈ tasks s → task_name t = n → rejected t = false;
  li_next : (h0 ≤ next_handle (shared s))%nat;
  li_state : ∃ l c, get_record (store (shared s)) n = Some (l, c)
             ∧ launch_state_ok n k c (shared s)
             ∧ (∀ h, browserHandle c = Some h → (h0 ≤ h)%nat)
             ∧ ∀ t h, t ∈ tasks s → task_name t = n → received t = Some h →
                      browserHandle c = Some h;
}.

(** Both handle fields of the instance are [undefined]. *)
Definition handles_cleared (n : string) (st : Store) : Prop :=
  ∃ l c, get_record st n = Some (l, c)
         ∧ browserHandle c = None ∧ nonPersistantBrowserHandle c = None.

(** The claim that a resolved [closeBrowser] has cleared the handles and
    returned ["closed"], and that the next page-open or handle request
    launches: [s] is the state in which a call of [closeBrowser] has just
    resolved, in any run; a request issued then, once it has received a
    handle, has made a launch call. *)
Definition close_then_open_relaunches (instanceName : string) : Prop :=
  ∀ (s0 : System) (sched : list (nat * Response)) (s1 : System) (i : nat)
    (r : Response) (s : System) (v : option string),
    store_wf (store (shared s0)) → quiescent s0 →
    run sched s0 = Some s1 → step_at i r s1 = Some s →
    tasks s !! i = Some (TCloseBrowser instanceName (CResolved v)) →
    v = Some "closed"
    ∧ handles_cleared instanceName (store (shared s))
    ∧ ∀ t sched' s' t' h,
        is_open_request t = true → not_started t = true →
        task_name t = instanceName → all_resolve sched' →
        run sched' {| shared := shared s; tasks := tasks s ++ [t] |} = Some s' →
        tasks s' !! length (tasks s) = Some t' → received t' = Some h →
        launch_count instanceName (trace (shared s'))
        = S (launch_count instanceName (trace (shared s))).

(** The shared state after [getBrowserHandle] has launched the default
    instance over a persistent profile. *)
Definition example_shared_persistent_launched : Shared :=
  shared (run_or [(0%nat, Resolve); (0%nat, Resolve)]
            (single example_store_persistent (TGetBrowserHandle "default" BStart))).

(** A launch of the default instance is awaited and [closeBrowser] has just
    resolved. *)
Definition example_closed_during_launch : System :=
  run_or [(0%nat, Resolve); (1%nat, Resolve)] example_launch_and_close.

(** Then [newPage] is called and everything runs to its end. *)
Definition example_page_after_close : System :=
  run_or [(0%nat, Resolve); (0%nat, Resolve); (2%nat, Resolve); (2%nat, Resolve)]
    {| shared := shared example_closed_during_launch;
       tasks := tasks example_closed_during_launch ++ [TNewPage "default" NPStart] |}.

(** Over a persistent profile with its context open, [closeBrowser] has
    resolved after [close()] rejected. *)
Definition example_close_failed : System :=
  run_or [(0%nat, Resolve); (0%nat, Resolve); (0%nat, Resolve);
          (0%nat, Reject (LibraryError 1%nat))]
    {| shared := example_shared_persistent_launched;
       tasks := [TCloseBrowser "default" CStart] |}.

(** ** Progress *)

(** The awaits a call still has before it, at most. *)
Definition browser_weight (b : BrowserPc) : nat :=
  match b with
  | BStart => 3
  | BLaunch _ => 2
  | BLaunchPersistent _ | BNewContext _ _ => 1
  | BResolved _ | BRejected _ => 0
  end.

Definition task_weight (t : Task) : nat :=
  match t with
  | TGetBrowserHandle _ b | TNewPage1 _ b => browser_weight b
  | TNewPage _ NPStart => 5
  | TNewPage _ NPInit => 4
  | TNewPage _ (NPBrowser b) => browser_weight b
  | TCloseBrowser _ CStart => 6
  | TCloseBrowser _ (CBrowser b) => 2 + browser_weight b
  | TCloseBrowser _ (CClosing _) => 1
  | TCloseBrowser _ (CResolved _) => 0
  end.

Definition weight (s : System) : nat := sum_list (task_weight <$> tasks s).

(** The task is suspended inside the launch section. *)
Definition launching (t : Task) : bool :=
  match browser_pc t with
  | Some b => in_section b
  | None => false
  end.

(** The invariant of a system of page-open and handle requests, whatever
    their instances. *)
Record open_inv (s : System) : Prop := {
  oi_wf : store_wf (store (shared s));
  oi_lock : lock_inv s;
  oi_open : Forall (λ t, is_open_request t = true) (tasks s);
  oi_ic : ∀ t b ic, t ∈ tasks s → browser_pc t = Some b → section_ic b = Some ic →
          config (store (shared s)) !! task_name t = Some ic;
}.


(** ** What the module logs and what it drops *)

(** The errors the module has logged, with [error] or with [console.log],
    in the order of the calls. *)
Definition logged_errors (tr : list Event) : list Err :=
  omap (λ ev, match ev with
              | EvError _ e | EvConsoleLog _ e => Some e
              | _ => None
              end) tr.

(** The promise of a [close()] that was called without [await] is dropped:
    no code of the module waits for it and no handler is attached to it.
    [outcome h] tells how the library settles the [close()] of [h]; the
    rejections among the calls that were not awaited are handled nowhere. *)
Definition unhandled_rejections (outcome : Handle → Response) (tr : list Event)
    : list Err :=
  omap (λ ev, match ev with
              | EvClose h false =>
                  match outcome h with Reject e => Some e | Resolve => None end
              | _ => None
              end) tr.

(** ** Sessions: the calls a program makes, in the order they take effect *)

(** A call of [init] or of a setter of [fastPage(instanceName)]. *)
Inductive Op :=
| OpInit (instanceName : string) (useCurrentDefaultConfig : option bool)
| OpSet (instanceName : string) (s : Setter).

(** The store after the call.  A setter that throws has changed nothing:
    the [TypeError] comes from reading a property of [config[instanceName]]. *)
Definition apply_op (o : Op) (st : Store) : Store :=
  match o with
  | OpInit n u => default st (fastPage.init n u st)
  | OpSet n s =>
      match call_setter n s st with
      | Ok st' => st'
      | Throw _ => st
      end
  end.

(** What a program does next: it calls an asynchronous method (the call
    is then in flight), it calls [init] or a setter, or a call in flight
    runs up to its next [await]. *)
Inductive Action :=
| Call (t : Task)
| Sync (o : Op)
| Step (i : nat) (r : Response).

Definition act (a : Action) (s : System) : option System :=
  match a with
  | Call t =>
      if not_started t then Some {| shared := shared s; tasks := tasks s ++ [t] |}
      else None
  | Sync o =>
      Some {| shared := with_store (apply_op o (store (shared s))) (shared s);
              tasks := tasks s |}
  | Step i r => step_at i r s
  end.

Fixpoint session (acts : list Action) (s : System) : option System :=
  match acts with
  | [] => Some s
  | a :: acts' => s' ← act a s; session acts' s'
  end.

(** The module has just been loaded: nothing was called. *)
Definition loaded : System := {| shared := initial_shared; tasks := [] |}.

(** Every record refers to the two arrays of [defaultConfig]. *)
Definition arrays_shared (st : Store) : Prop :=
  ∀ c, c ∈ records st → args c = 0%nat ∧ hooks c = 0%nat.

(** The options object of a launch call. *)
Definition launch_options (ev : Event) : option (gmap string Val) :=
  match ev with
  | EvLaunch _ _ o | EvLaunchPersistentContext _ _ _ o => Some o
  | _ => None
  end.

(** The [args] of a launch call. *)
Definition launch_call_args (ev : Event) : list string :=
  match launch_options ev ≫= (.!! "args") with
  | Some (VArr l) => l
  | _ => []
  end.

Definition is_hook_action (ev : PageEvent) : bool :=
  match ev with
  | PHookAction _ _ => true
  | _ => false
  end.

(** The call has settled. *)
Definition completed (t : Task) : bool :=
  match t with
  | TGetBrowserHandle _ b | TNewPage1 _ b | TNewPage _ (NPBrowser b) => settled b
  | TNewPage _ _ => false
  | TCloseBrowser _ (CResolved _) => true
  | TCloseBrowser _ _ => false
  end.

(** The invariant of the calls in flight: the store is well formed, the
    lock is consistent, and the record a call of [browser] captured
    exists. *)
Record sys_inv (s : System) : Prop := {
  si_wf : store_wf (store (shared s));
  si_lock : lock_inv s;
  si_ic : ∀ t b ic, t ∈ tasks s → browser_pc t = Some b → section_ic b = Some ic →
          (ic < length (records (store (shared s))))%nat;
}.

(** A program: [fastPage("a").init()], [fastPage("a").addArg("--foo")],
    [fastPage().getBrowserHandle()] up to its first [await],
    [fastPage("b").init(false)],
    [fastPage("b").addHook("make_page_faster", f)], and the launch
    resolves. *)
Definition example_session : list Action :=
  [ Sync (OpInit "a" None);
    Sync (OpSet "a" (AddArg "--foo"));
    Call (TGetBrowserHandle "default" BStart);
    Step 0 Resolve;
    Sync (OpInit "b" (Some false));
    Sync (OpSet "b" (AddHook "make_page_faster" 5%nat));
    Step 0 Resolve ].

Definition example_session_state : System :=
  default loaded (session example_session loaded).

(** The invariant of sessions: stores are well formed, every record refers
    to the arrays of [defaultConfig], and there are no other arrays. *)
Definition store_inv (st : Store) : Prop :=
  store_wf st ∧ arrays_shared st
  ∧ length (arg_arrays st) = 1%nat ∧ length (hook_arrays st) = 1%nat.


(** The shared state after [getBrowserHandle] has launched the default
    instance without a profile directory: browser 0, context 1. *)
Definition example_shared_launched : Shared :=
  shared (run_or [(0%nat, Resolve); (0%nat, Resolve); (0%nat, Resolve)]
            (single initial_store (TGetBrowserHandle "default" BStart))).

(** Over a persistent profile, with a handle request, a close request and
    a second handle request in flight: the first request enters the launch
    section, [closeBrowser] runs to its end, and the launch fails. *)
Definition example_mixed_schedule : list (nat * Response) :=
  [(0%nat, Resolve); (1%nat, Resolve); (0%nat, Reject (LibraryError 2%nat))].

Definition example_mixed_run : System :=
  run_or example_mixed_schedule example_close_and_launch.

(** Then the second handle request launches. *)
Definition example_mixed_done : System :=
  run_or (example_mixed_schedule ++ [(2%nat, Resolve); (2%nat, Resolve)])
    example_close_and_launch.

(** The default instance runs a persistent context; [closeBrowser] is
    called for it and a handle is requested for an instance named
    ["close_default"]. *)
Definition example_prefixed : System :=
  {| shared := example_shared_persistent_launched;
     tasks := [TCloseBrowser "default" CStart;
               TGetBrowserHandle "close_default" BStart] |}.

(** The shared state while [getBrowserHandle] for the default instance
    awaits [newContext]: browser 0 is launched. *)
Definition example_shared_context_pending : Shared :=
  shared (run_or [(0%nat, Resolve); (0%nat, Resolve)]
            (single initial_store (TGetBrowserHandle "default" BStart))).

(** The calls of [makePageFaster] that come before its first [await]. *)
Definition is_hook_or_timeout (ev : PageEvent) : bool :=
  match ev with
  | PHookAction _ _ | PSetDefaultNavigationTimeout _ _ | PSetDefaultTimeout _ _ => true
  | _ => false
  end.

Definition is_listener (ev : PageEvent) : bool :=
  match ev with
  | POn _ _ _ => true
  | _ => false
  end.

Definition is_page_error_listener (ev : PageEvent) : bool :=
  match ev with
  | POn _ "pageerror" _ => true
  | _ => false
  end.

(** The awaited call [ev] of [makePageFaster] rejects with [e]. *)
Definition rejects (env : PageEnv) (ev : PageEvent) (e : Err) : Prop :=
  match ev with
  | PNewCDPSession _ => env_newCDPSession env = Throw e
  | PPageStealth _ => env_pageStealth env = Throw e
  | PAddScriptTag _ => env_addScriptTag env = Throw e
  | PSend _ _ _ => env_send env = Throw e
  | _ => False
  end.

(** The hooks [loadHooks] calls for a page. *)
Definition hook_calls (hs : list Hook) (page : Page) : list PageEvent :=
  map (λ v, PHookAction (hook_action v) page)
    (filter (λ v, hook_name v = "make_page_faster") hs).

(** The two records agree on every field but the two handles. *)
Definition same_settings (c c' : ConfigValue) : Prop :=
  set_browserHandle None (set_nonPersistantBrowserHandle None c)
  = set_browserHandle None (set_nonPersistantBrowserHandle None c').

(** A [closeBrowser] that is about to call [browser] still finds the
    handle it saw, and one that has called it was given a handle. *)
Definition close_inv (s : System) : Prop :=
  ∀ j n b, tasks s !! j = Some (TCloseBrowser n (CBrowser b)) →
    (b = BStart ∧ ∃ l c, get_record (store (shared s)) n = Some (l, c)
                         ∧ is_Some (browserHandle c))
    ∨ (∃ h, b = BResolved h).

(** No launch call is among the events. *)
Definition no_launch (evs : list Event) : Prop :=
  Forall (λ ev, ∀ m, is_launch m ev = false) evs.


(** ** [pageStealth] *)

Fixpoint string_drop (k : nat) (s : string) : string :=
  match k, s with
  | O, _ => s
  | S k', String _ s' => string_drop k' s'
  | S _, EmptyString => EmptyString
  end.

(** [s.replace(pattern, replacement)] for a string [pattern] and a
    [replacement] without [$]: the first occurrence is replaced. *)
Fixpoint replace_first (pattern replacement s : string) {struct s} : string :=
  if String.prefix pattern s then
    replacement +:+ string_drop (String.length pattern) s
  else
    match s with
    | EmptyString => EmptyString
    | String a s' => String a (replace_first pattern replacement s')
    end.

(** The character [a] is the one-character string [c]. *)
Definition is_char (c : string) (a : Ascii.ascii) : bool :=
  bool_decide (String a EmptyString = c).

(** A match of [[^)]+\)] at the start of [s]: what follows the match.
    [seen] tells that a character of the class has been read.  The class
    cannot read [")"], so the match ends at the first [")"]. *)
Fixpoint match_group (seen : bool) (s : string) : option string :=
  match s with
  | EmptyString => None
  | String a s' =>
      if is_char ")" a then (if seen then Some s' else None)
      else match_group true s'
  end.

(** [s.replace(/\(([^)]+)\)/, replacement)] for a [replacement] without
    [$]: the leftmost match is replaced. *)
Fixpoint replace_group (replacement s : string) : string :=
  match s with
  | EmptyString => EmptyString
  | String a s' =>
      if is_char "(" a then
        match match_group false s' with
        | Some rest => replacement +:+ rest
        | None => String a (replace_group replacement s')
        end
      else String a (replace_group replacement s')
  end.

(** The user agent [pageStealth] sets, from the one the browser reports. *)
Definition stealth_user_agent (ua : string) : string :=
  replace_group "(Windows NT 10.0; Win64; x64)"
    (replace_first "HeadlessChrome/" "Chrome/" ua).

(** The scripts the module can register with [evaluateOnNewDocument], one
    for each function of the file. *)
Inductive Patch :=
| RuntimeStealth
| ConsoleDebug
| NavigatorLanguages
| NavigatorPermissions
| NavigatorPlugin
| NavigatorWebDriver
| WebGlVendor
| OuterWindow.

#[global] Instance Patch_eq_dec : EqDecision Patch.
Proof. solve_decision. Defined.

Inductive StealthCall :=
| SUserAgent (page : Page)
| SSetUserAgent (page : Page) (ua : string)
| SEvaluateOnNewDocument (page : Page) (p : Patch).

(** The outcomes of the awaited calls of [pageStealth]. *)
Record StealthEnv := {
  env_userAgent : Result string;
  env_setUserAgent : Result unit;
  env_evaluateOnNewDocument : Patch → Result unit;
}.

(** An asynchronous function of the stealth code run to its end. *)
Definition Script (A : Type) : Type := list StealthCall * Result A.

Definition script_bind {A B} (m : Script A) (f : A → Script B) : Script B :=
  match m with
  | (w, Ok a) => let '(w', r) := f a in (w ++ w', r)
  | (w, Throw e) => (w, Throw e)
  end.

Notation "'wait' x <- m ;; k" := (script_bind m (λ x, k))
  (at level 10, x name, m at level 99, k at level 200, only parsing).

(** [await page.evaluateOnNewDocument(() => { ... })] *)
Definition evaluateOnNewDocument (page : Page) (env : StealthEnv) (p : Patch)
    : Script unit :=
  ([SEvaluateOnNewDocument page p], env_evaluateOnNewDocument env p).

Definition runtimeStealth page env := evaluateOnNewDocument page env RuntimeStealth.
Definition consoleDebug page env := evaluateOnNewDocument page env ConsoleDebug.
Definition navigatorLanguages page env := evaluateOnNewDocument page env NavigatorLanguages.
Definition navigatorPermissions page env :=
  evaluateOnNewDocument page env NavigatorPermissions.
Definition navigatorPlugin page env := evaluateOnNewDocument page env NavigatorPlugin.
Definition navigatorWebDriver page env := evaluateOnNewDocument page env NavigatorWebDriver.
Definition webGlVendor page env := evaluateOnNewDocument page env WebGlVendor.
Definition outerWindow page env := evaluateOnNewDocument page env OuterWindow.

Definition pageStealth (page : Page) (env : StealthEnv) : Script unit :=
  wait ua <- ([SUserAgent page], env_userAgent env) ;;
  wait _ <- ([SSetUserAgent page (stealth_user_agent ua)], env_setUserAgent env) ;;
  wait _ <- runtimeStealth page env ;;
  wait _ <- consoleDebug page env ;;
  wait _ <- navigatorLanguages page env ;;
  wait _ <- navigatorPermissions page env ;;
  wait _ <- navigatorWebDriver page env ;;
  wait _ <- webGlVendor page env ;;
  outerWindow page env.

(** The calls of [pageStealth] when none fails. *)
Definition stealth_calls (page : Page) (ua : string) : list StealthCall :=
  [ SUserAgent page;
    SSetUserAgent page (stealth_user_agent ua);
    SEvaluateOnNewDocument page RuntimeStealth;
    SEvaluateOnNewDocument page ConsoleDebug;
    SEvaluateOnNewDocument page NavigatorLanguages;
    SEvaluateOnNewDocument page NavigatorPermissions;
    SEvaluateOnNewDocument page NavigatorWebDriver;
    SEvaluateOnNewDocument page WebGlVendor;
    SEvaluateOnNewDocument page OuterWindow ].

(** The awaited call rejects with [e]. *)
Definition stealth_rejects (env : StealthEnv) (c : StealthCall) (e : Err) : Prop :=
  match c with
  | SUserAgent _ => env_userAgent env = Throw e
  | SSetUserAgent _ _ => env_setUserAgent env = Throw e
  | SEvaluateOnNewDocument _ p => env_evaluateOnNewDocument env p = Throw e
  end.

Definition example_stealth_env : StealthEnv :=
  {| env_userAgent :=
       Ok "Mozilla/5.0 (X11; Linux x86_64) AppleWebKit/537.36 (KHTML, like Gecko) HeadlessChrome/80.0.3987.87 Safari/537.36";
     env_setUserAgent := Ok tt;
     env_evaluateOnNewDocument := λ _, Ok tt |}.


(** The number of [close()] calls made. *)
Definition is_close (ev : Event) : bool :=
  match ev with
  | EvClose _ _ => true
  | _ => false
  end.

Definition close_count (tr : list Event) : nat :=
  length (filter (λ ev, is_close ev = true) tr).

(** The program counter of a call of [closeBrowser] for the instance. *)
Definition close_pc_in (n : string) (ok : ClosePc → Prop) (t : Task) : Prop :=
  ∃ pc, t = TCloseBrowser n pc ∧ ok pc.

(** The invariant of concurrent calls of [closeBrowser] for an instance
    [n] with a browser, [k] calls of [close()] having been made before:
    the browser is open and nothing was closed; or [close()] was called
    on the context and is awaited; or the handles are cleared. *)
Definition closing_inv (n : string) (k : nat) (s : System) : Prop :=
  ∃ l c, get_record (store (shared s)) n = Some (l, c) ∧
    ((close_count (trace (shared s)) = k
      ∧ is_Some (nonPersistantBrowserHandle c)
      ∧ Forall (close_pc_in n (λ pc, pc = CStart)) (tasks s))
     ∨ (close_count (trace (shared s)) = k
        ∧ nonPersistantBrowserHandle c = None ∧ is_Some (browserHandle c)
        ∧ Forall (close_pc_in n (λ pc, pc = CStart ∨ pc = CBrowser BStart
                                      ∨ ∃ h, pc = CBrowser (BResolved h))) (tasks s))
     ∨ (close_count (trace (shared s)) = S k
        ∧ close_key n ∈ held (shared s)
        ∧ Forall (close_pc_in n (λ pc, pc = CStart ∨ ∃ h, pc = CClosing h)) (tasks s))
     ∨ (close_count (trace (shared s)) = S k
        ∧ browserHandle c = None ∧ nonPersistantBrowserHandle c = None
        ∧ Forall (close_pc_in n (λ pc, pc = CStart ∨ pc = CResolved (Some "closed")))
            (tasks s))).

(** Three calls of [closeBrowser] for the default instance, which runs a
    browser launched without a profile directory. *)
Definition example_three_closes : System :=
  {| shared := example_shared_launched;
     tasks := [TCloseBrowser "default" CStart; TCloseBrowser "default" CStart;
               TCloseBrowser "default" CStart] |}.


(** ** Scripts that run in the page *)

(** The properties of [window] that the script of [outerWindow] reads
    and writes. *)
Record Window := {
  outerWidth : Z;
  outerHeight : Z;
  innerWidth : Z;
  innerHeight : Z;
}.

(** The script [outerWindow] registers: a number is true in a condition
    when it is not 0. *)
Definition outerWindow_script (window : Window) : Window :=
  if bool_decide (outerWidth window ≠ 0%Z) && bool_decide (outerHeight window ≠ 0%Z)
  then window
  else
    let windowFrame := 85%Z in
    {| outerWidth := innerWidth window;
       outerHeight := (innerHeight window + windowFrame)%Z;
       innerWidth := innerWidth window;
       innerHeight := innerHeight window |}.

(** [const getSubset = (keys, obj) =>
       keys.reduce((a, c) => ({ ...a, [c]: obj[c] }), {})]
    of the script of [navigatorPlugin].  An object is a map from property
    names to values; reading a property the object does not have gives
    [undefined]. *)
Section GetSubset.

Context {V : Type} (undefined : V).

Definition property (obj : gmap string V) (c : string) : V :=
  default undefined (obj !! c).

Definition getSubset (keys : list string) (obj : gmap string V) : gmap string V :=
  foldl (λ a c, <[c := property obj c]> a) ∅ keys.

End GetSubset.


(** * Properties *)

(** ** [waitForFrame] *)

Lemma prefix_spec (sub s : string) :
  String.prefix sub s = true ↔ ∃ post, s = sub +:+ post.
Proof.
  revert s. induction sub as [|a sub IH]; intros s.
  - destruct s; cbn; (split; [intros _; by eexists | done]).
  - destruct s as [|b s]; cbn.
    + split; [done | intros [post H]; discriminate].
    + destruct (Ascii.ascii_dec a b) as [->|Hne].
      * rewrite IH. split; intros [post H]; exists post.
        -- by rewrite H.
        -- by injection H.
      * split; [done | intros [post H]; by injection H].
Qed.

Lemma includes_spec (s sub : string) :
  includes s sub = true ↔ ∃ pre post, s = pre +:+ sub +:+ post.
Proof.
  induction s as [|a s IH]; cbn [includes].
  - rewrite orb_false_r, prefix_spec. split.
    + intros [post H]. by exists "", post.
    + intros (pre & post & H). destruct pre; [|discriminate]. by exists post.
  - rewrite orb_true_iff, prefix_spec, IH. split.
    + intros [[post H] | (pre & post & H)].
      * by exists "", post.
      * exists (String a pre), post. cbn. by rewrite H.
    + intros (pre & post & H). destruct pre as [|b pre]; cbn in H.
      * left. by exists post.
      * right. exists pre, post. by injection H.
Qed.

Section WaitForFrame.

Variable frames : FrameSource.
Variable frameUrl : string.

Lemma waitForFrame_loop_none fuel : ∀ k slept,
  (∀ j, (k ≤ j < k + fuel)%nat → List.find (matches frameUrl) (frames j) = None) →
  waitForFrame_loop fuel frames frameUrl k slept = None.
Proof.
  induction fuel as [|fuel IH]; intros k slept Hnone; simpl; [done|].
  rewrite Hnone by lia. apply IH. intros j Hj. apply Hnone. lia.
Qed.

Lemma waitForFrame_loop_found d : ∀ k slept f fuel,
  (∀ j, (k ≤ j < k + d)%nat → List.find (matches frameUrl) (frames j) = None) →
  List.find (matches frameUrl) (frames (k + d)) = Some f →
  (d < fuel)%nat →
  waitForFrame_loop fuel frames frameUrl k slept = Some (f, slept ++ replicate d 100%Z).
Proof.
  induction d as [|d IH]; intros k slept f fuel Hnone Hfound Hfuel;
    (destruct fuel as [|fuel]; [lia|]); simpl.
  - rewrite Nat.add_0_r in Hfound. rewrite Hfound. by rewrite app_nil_r.
  - rewrite Hnone by lia.
    rewrite (IH (S k) (slept ++ [100%Z]) f fuel).
    + by rewrite <- app_assoc.
    + intros j Hj. apply Hnone. lia.
    + by replace (S k + d)%nat with (k + S d)%nat by lia.
    + lia.
Qed.

End WaitForFrame.

(** C7.  [waitForFrame] scans [page.frames()] for the first frame whose URL
    contains [frameUrl] and sleeps 100 ms after each scan without a match.
    If scan [k] is the first with a match, every run of more than [k] scans
    returns the first matching frame of that scan, after exactly [k] sleeps
    of 100 ms.  As long as no scan has a match the loop has not returned,
    whatever the number of scans: there is no bound after which it gives
    up. *)
Theorem C7_waitForFrame_polls_until_match (frames : FrameSource) (frameUrl : string) :
  (∀ k f,
     (∀ j, (j < k)%nat → List.find (matches frameUrl) (frames j) = None) →
     List.find (matches frameUrl) (frames k) = Some f →
     (∃ pre post, url f = pre +:+ frameUrl +:+ post)
     ∧ (∃ before after, frames k = before ++ f :: after
          ∧ ∀ g, g ∈ before → ¬ ∃ pre post, url g = pre +:+ frameUrl +:+ post)
     ∧ ∀ fuel, (k < fuel)%nat →
         waitForFrame fuel frames frameUrl = Some (f, replicate k 100%Z))
  ∧ (∀ fuel,
       (∀ j, (j < fuel)%nat → List.find (matches frameUrl) (frames j) = None) →
       waitForFrame fuel frames frameUrl = None).
Proof.
  split.
  - intros k f Hnone Hfound. split; [|split].
    + apply find_some in Hfound as [_ Hm]. by apply includes_spec.
    + clear Hnone. induction (frames k) as [|g l IH]; simpl in Hfound; [done|].
      destruct (matches frameUrl g) eqn:Hg.
      * injection Hfound as ->. exists [], l. split; [done|]. intros g Hin. by apply elem_of_nil in Hin.
      * destruct (IH Hfound) as (before & after & -> & Hb).
        exists (g :: before), after. split; [done|].
        intros g' [->|Hin]%elem_of_cons; [|by apply Hb].
        intros Hc%includes_spec. unfold matches in Hg. congruence.
    + intros fuel Hfuel. unfold waitForFrame.
      rewrite (waitForFrame_loop_found frames frameUrl k 0 [] f fuel); try done.
      intros j Hj. apply Hnone. lia.
  - intros fuel Hnone. apply waitForFrame_loop_none. intros j Hj. apply Hnone. lia.
Qed.

Lemma C7_witness :
  waitForFrame 5 example_frames "pay"
    = Some ({| frame_id := 1; url := "https://x.org/pay" |}, [100%Z; 100%Z; 100%Z])
  ∧ waitForFrame 3 example_frames "pay" = None.
Proof.
  destruct (C7_waitForFrame_polls_until_match example_frames "pay") as [Hfound Hnone].
  split.
  - apply (Hfound 3%nat).
    + intros [|[|[|j]]] Hj; [reflexivity..|lia].
    + reflexivity.
    + lia.
  - apply Hnone. intros [|[|[|j]]] Hj; [reflexivity..|lia].
Defined.

(** ** [makePageFaster] *)

Lemma request_listener_spec (st : Store) (ic : loc) (c : ConfigValue) (ty : string) :
  records st !! ic = Some c →
  (blocked c ty → request_listener st ic ty = Some Abort)
  ∧ (¬ blocked c ty → request_listener st ic ty = Some Continue).
Proof.
  intros Hc. unfold request_listener, blocked. rewrite Hc. simpl.
  destruct (blockImages c), (blockFonts c), (blockCSS c); simpl;
    repeat case_bool_decide; simpl; split; intros Hb; try done;
    try (exfalso; apply Hb); intuition congruence.
Qed.

(** C4.  With the record of the instance in the store and the awaited calls
    before line 205 not failing: if one of the three flags is set,
    [makePageFaster] installs exactly one ["request"] listener, and that
    listener aborts a request when its resource type is of a category the
    record blocks at that time and continues it otherwise; if no flag is
    set, no ["request"] listener is installed, whatever the awaited calls
    do. *)
Theorem C4_request_filter (page : Page) (instanceName : string) (st : Store)
    (env : PageEnv) (ic : loc) (c : ConfigValue) (hs : list Hook) :
  get_record st instanceName = Some (ic, c) →
  hook_arrays st !! hooks c = Some hs →
  ((blockImages c || blockFonts c || blockCSS c = true) →
   (browser c = chromium → ∃ s, env_newCDPSession env = Ok s) →
   (enableStealth c = true → env_pageStealth env = Ok tt) →
   env_addScriptTag env = Ok tt →
   filter (λ ev, is_request_listener ev = true) (makePageFaster page instanceName st env).1
     = [POn page "request" (RequestListener ic)]
   ∧ ∀ st' c' resourceType,
       records st' !! ic = Some c' →
       (blocked c' resourceType → request_listener st' ic resourceType = Some Abort)
       ∧ (¬ blocked c' resourceType →
            request_listener st' ic resourceType = Some Continue))
  ∧ ((blockImages c || blockFonts c || blockCSS c = false) →
     filter (λ ev, is_request_listener ev = true) (makePageFaster page instanceName st env).1
       = []).
Proof.
  intros Hrec Hhooks.
  assert (Hh : ∀ l : list Hook,
    filter (λ ev, is_request_listener ev = true)
      (map (λ v, PHookAction (hook_action v) page) l) = []).
  { induction l as [|h l IH]; [done|]. simpl. by rewrite filter_cons_False. }
  split.
  - intros Hflag Hcdp Hstealth Htag. split.
    + unfold makePageFaster. rewrite Hrec, Hhooks.
      replace (blockCSS c || blockFonts c || blockImages c) with true
        by (destruct (blockImages c), (blockFonts c), (blockCSS c); done).
      rewrite Htag. unfold loadHooks, call, await, when, ret.
      destruct (decide (browser c = chromium)) as [Hb|Hb].
      * destruct (Hcdp Hb) as [s ->].
        destruct (enableStealth c) eqn:Hs; [rewrite (Hstealth eq_refl)|];
          destruct (showPageError c); destruct (env_send env); cbn;
          by rewrite filter_app, Hh.
      * destruct (enableStealth c) eqn:Hs; [rewrite (Hstealth eq_refl)|];
          destruct (showPageError c); cbn; by rewrite filter_app, Hh.
    + intros st' c' ty Hc'. by apply request_listener_spec.
  - intros Hflag.
    unfold makePageFaster. rewrite Hrec, Hhooks.
    replace (blockCSS c || blockFonts c || blockImages c) with false
      by (destruct (blockImages c), (blockFonts c), (blockCSS c); done).
    unfold loadHooks, call, await, when, ret.
    destruct (decide (browser c = chromium));
      destruct (env_newCDPSession env); destruct (enableStealth c);
      destruct (env_pageStealth env) as [[]|]; destruct (env_addScriptTag env) as [[]|];
      destruct (showPageError c); destruct (env_send env) as [[]|]; cbn;
      by rewrite filter_app, Hh.
Qed.

Lemma C4_witness :
  filter (λ ev, is_request_listener ev = true)
    (makePageFaster 3%nat "default" example_store_block_images example_env).1
  = [POn 3%nat "request" (RequestListener 0%nat)]
  ∧ request_listener example_store_block_images 0%nat "image" = Some Abort
  ∧ request_listener example_store_block_images 0%nat "font" = Some Continue
  ∧ filter (λ ev, is_request_listener ev = true)
      (makePageFaster 3%nat "default" initial_store example_env).1 = [].
Proof.
  destruct (C4_request_filter 3%nat "default" example_store_block_images example_env
              0%nat (set_blockImages true defaultConfig) [] eq_refl eq_refl) as [Hon _].
  destruct (Hon eq_refl (λ _, ex_intro _ 7%nat eq_refl) (λ _, eq_refl) eq_refl)
    as [Hinst Hlisten].
  destruct (Hlisten example_store_block_images (set_blockImages true defaultConfig)
              "image" eq_refl) as [Habort _].
  destruct (Hlisten example_store_block_images (set_blockImages true defaultConfig)
              "font" eq_refl) as [_ Hcont].
  destruct (C4_request_filter 3%nat "default" initial_store example_env
              0%nat defaultConfig [] eq_refl eq_refl) as [_ Hoff].
  split; [exact Hinst|]. split; [|split].
  - apply Habort. left. split; reflexivity.
  - apply Hcont. unfold blocked. simpl. intros [[_ H]|[[H _]|[H _]]]; discriminate.
  - apply Hoff. reflexivity.
Defined.

Lemma hook_actions_not_send (page : Page) (l : list Hook) :
  filter (λ ev, is_send ev = true) (map (λ v, PHookAction (hook_action v) page) l) = [].
Proof. induction l as [|h l IH]; [done|]. simpl. by rewrite filter_cons_False. Qed.

(** C10.  For an instance whose record is in the store: when the awaited
    calls succeed, [makePageFaster] resolves, and with the page it was
    given; whenever it resolves, the page of the result is that page and the
    session is non-null exactly when the configured browser is
    ["chromium"]; for ["firefox"] and ["webkit"] the session is null and no
    [Page.setWebLifecycleState] message is sent, whatever the awaited calls
    do. *)
Theorem C10_makePageFaster_result (page : Page) (instanceName : string) (st : Store)
    (env : PageEnv) (ic : loc) (c : ConfigValue) (hs : list Hook) :
  get_record st instanceName = Some (ic, c) →
  hook_arrays st !! hooks c = Some hs →
  (env_ok env →
     ∃ session, (makePageFaster page instanceName st env).2 = Ok (session, page))
  ∧ (∀ session page',
       (makePageFaster page instanceName st env).2 = Ok (session, page') →
       page' = page ∧ (session ≠ None ↔ browser c = chromium))
  ∧ (browser c ≠ chromium →
       filter (λ ev, is_send ev = true) (makePageFaster page instanceName st env).1 = []
       ∧ ∀ session page',
           (makePageFaster page instanceName st env).2 = Ok (session, page') →
           session = None).
Proof.
  intros Hrec Hhooks.
  unfold makePageFaster. rewrite Hrec, Hhooks.
  unfold loadHooks, call, await, when, ret.
  split; [|split].
  - intros ([s Hcdp] & Hstealth & Htag & Hsend).
    rewrite Hcdp, Hstealth, Htag, Hsend.
    destruct (decide (browser c = chromium));
      destruct (enableStealth c), (showPageError c),
        (blockCSS c || blockFonts c || blockImages c); cbn; eauto.
  - intros session page'.
    destruct (decide (browser c = chromium)) as [Hb|Hb];
      destruct (env_newCDPSession env); destruct (enableStealth c);
      destruct (env_pageStealth env) as [[]|]; destruct (env_addScriptTag env) as [[]|];
      destruct (showPageError c); destruct (blockCSS c || blockFonts c || blockImages c);
      destruct (env_send env) as [[]|]; cbn; intros Heq; try discriminate;
      injection Heq as <- <-; (split; [reflexivity|]); split; congruence.
  - intros Hb. destruct (decide (browser c = chromium)) as [|_]; [done|]. split.
    + destruct (enableStealth c);
        destruct (env_pageStealth env) as [[]|]; destruct (env_addScriptTag env) as [[]|];
        destruct (showPageError c); destruct (blockCSS c || blockFonts c || blockImages c);
        cbn; by rewrite filter_app, hook_actions_not_send.
    + intros session page'.
      destruct (enableStealth c);
        destruct (env_pageStealth env) as [[]|]; destruct (env_addScriptTag env) as [[]|];
        destruct (showPageError c); destruct (blockCSS c || blockFonts c || blockImages c);
        cbn; intros Heq; try discriminate; by injection Heq as <- <-.
Qed.

Lemma C10_witness :
  (∃ session, (makePageFaster 3%nat "default" initial_store example_env).2
                = Ok (session, 3%nat))
  ∧ (∀ session page',
       (makePageFaster 3%nat "default" initial_store example_env).2 = Ok (session, page') →
       page' = 3%nat ∧ (session ≠ None ↔ chromium = chromium)).
Proof.
  destruct (C10_makePageFaster_result 3%nat "default" initial_store example_env
              0%nat defaultConfig [] eq_refl eq_refl) as (Hres & Hsame & _).
  split.
  - apply Hres. repeat split. by exists 7%nat.
  - exact Hsame.
Defined.

(** ** The configuration registry *)

Lemma get_record_Some (st : Store) (name : string) (l : loc) (c : ConfigValue) :
  get_record st name = Some (l, c) ↔ config st !! name = Some l ∧ records st !! l = Some c.
Proof.
  unfold get_record. destruct (config st !! name) as [l'|] eqn:Hl; simpl.
  - destruct (records st !! l') as [c'|] eqn:Hc; simpl.
    + split; [by intros [= <- <-]|]. intros [[= <-] Hc']. congruence.
    + split; [done|]. intros [[= <-] Hc']. congruence.
  - split; [done|]. by intros [? _].
Qed.

Lemma store_wf_get_record (st : Store) (name : string) (l : loc) :
  store_wf st → config st !! name = Some l → ∃ c, get_record st name = Some (l, c).
Proof.
  intros Hwf Hl. destruct (lookup_lt_is_Some_2 (records st) l) as [c Hc].
  - by eapply wf_records.
  - exists c. by apply get_record_Some.
Qed.

Lemma initial_store_wf : store_wf initial_store.
Proof.
  split; simpl.
  - by rewrite lookup_singleton_eq.
  - intros n l [<- <-]%lookup_singleton_Some. simpl. lia.
  - intros n1 n2 l [<- _]%lookup_singleton_Some [<- _]%lookup_singleton_Some. done.
  - intros c ->%list_elem_of_singleton. simpl. lia.
  - intros c ->%list_elem_of_singleton. simpl. lia.
  - simpl. lia.
Qed.

(** A setter that assigns a field changes the record of its own instance
    only: every other instance looks the same afterwards. *)
Lemma assign_frame (st st' : Store) (name other : string) (f : ConfigValue → ConfigValue) :
  store_wf st → name ≠ other →
  (∀ c, args (f c) = args c ∧ hooks (f c) = hooks c) →
  assign name f st = Ok st' →
  view st' other = view st other.
Proof.
  intros Hwf Hne Hf. unfold assign.
  destruct (get_record st name) as [[l c]|] eqn:Hrec; [|done].
  intros [= <-]. apply get_record_Some in Hrec as [Hl Hc].
  unfold view, get_record. simpl.
  destruct (config st !! other) as [l'|] eqn:Hl'; [|done]. simpl.
  rewrite list_lookup_insert_ne; [done|].
  intros ->. apply Hne. by eapply wf_inj.
Qed.

Lemma field_setter_frame (st st' : Store) (name other : string) (s : Setter) :
  store_wf st → name ≠ other → assigns_field s = true →
  call_setter name s st = Ok st' →
  view st' other = view st other.
Proof.
  intros Hwf Hne Hs Hcall.
  destruct s; try discriminate; simpl in Hcall;
    (eapply assign_frame; [exact Hwf | exact Hne | | exact Hcall]); by intros [].
Qed.

(** C8 (defect).  [init] copies the fields of the default record, so the
    instance and ["default"] refer to one [args] array and one [hooks]
    array.  After [fastPage("a").init()], [fastPage("a").addArg("--foo")]
    and [fastPage("a").addHook("make_page_faster", f)] change what
    [getConfig("default")] shows; the same holds after [init(false)]. *)
Theorem C8_array_setters_leak_into_default :
  ∀ useCurrentDefaultConfig,
  ∃ st1 st2 st3,
    fastPage.init "a" useCurrentDefaultConfig initial_store = Some st1
    ∧ fastPage.addArg "a" "--foo" st1 = Ok st2
    ∧ fastPage.addHook "a" "make_page_faster" 5%nat st2 = Ok st3
    ∧ view_args <$> view st1 "default" = Some []
    ∧ view_hooks <$> view st1 "default" = Some []
    ∧ view_args <$> view st2 "default" = Some ["--foo"]
    ∧ view_hooks <$> view st3 "default"
        = Some [{| hook_name := "make_page_faster"; hook_action := 5%nat |}].
Proof.
  intros [[|]|]; do 3 eexists; repeat split; reflexivity.
Qed.

(** C9 (defect).  Only [newPage] creates the record of a name that was never
    initialised.  On such a name every setter throws a [TypeError], and
    [getBrowserHandle] and [newPage1] reject with one; the first step of
    [newPage] copies the default record to the name. *)
Theorem C9_uninitialised_instance_fails :
  config initial_store !! "a" = None
  ∧ (∀ s, call_setter "a" s initial_store = Throw TypeError)
  ∧ (∀ r, task_step r (TGetBrowserHandle "a" BStart) initial_shared
          = Some (TGetBrowserHandle "a" (BRejected TypeError),
                  emit (EvError "Error on starting new page: Lock Error ->" TypeError)
                    initial_shared))
  ∧ (∀ r, task_step r (TNewPage1 "a" BStart) initial_shared
          = Some (TNewPage1 "a" (BRejected TypeError),
                  emit (EvError "Error on starting new page: Lock Error ->" TypeError)
                    initial_shared))
  ∧ (∀ r, ∃ sh, task_step r (TNewPage "a" NPStart) initial_shared
                  = Some (TNewPage "a" NPInit, sh)
                ∧ get_record (store sh) "a" = Some (1%nat, defaultConfig)).
Proof.
  split; [reflexivity|]. split; [by intros []|].
  split; [by intros r|]. split; [by intros r|].
  intros r. eexists. split; reflexivity.
Qed.

(** What [browser] does pass on: the proxy in both launch calls, the window
    size in the chromium arguments, the user agent and the viewport in the
    options of [newContext]. *)
Lemma launch_options_reflect_config (ic : ConfigValue) (ic_args : list string) :
  (∀ p, proxy ic = Some p →
        launchOption ic (launch_args ic ic_args) !! "proxy" = Some (VProxy p)
        ∧ persistentOption (launchOption ic (launch_args ic ic_args)) !! "proxy"
          = Some (VProxy p))
  ∧ (browser ic = chromium →
     ("--window-size=" +:+ pretty (width (windowSize ic)) +:+ ","
        +:+ pretty (height (windowSize ic))) ∈ launch_args ic ic_args)
  ∧ launchOption ic (launch_args ic ic_args) !! "args"
    = Some (VArr (launch_args ic ic_args))
  ∧ contextOption ic !! "userAgent" = Some (VStr (userAgent ic))
  ∧ contextOption ic !! "viewport" = Some (VViewport (windowSize ic)).
Proof.
  split; [|split; [|split; [|split]]].
  - intros p Hp. unfold persistentOption, launchOption. rewrite Hp.
    split; [by rewrite lookup_insert_eq|].
    apply lookup_union_Some_l. by rewrite lookup_insert_eq.
  - intros Hb. unfold launch_args, chromium_flags. rewrite Hb.
    rewrite !elem_of_app. right. left. rewrite !elem_of_cons. do 6 right. by left.
  - unfold launchOption.
    destruct (proxy ic), (truthy (downloadDir ic)); by simplify_map_eq.
  - unfold contextOption. by simplify_map_eq.
  - unfold contextOption. by simplify_map_eq.
Qed.

(** C5 (defect).  With a persistent profile the launch call receives
    neither the user agent nor a viewport: after [setUserAgent],
    [setWindowSizeArg], [setDefaultBrowser("firefox")] and [setUserDataDir]
    on the default instance, [getBrowserHandle] makes one call,
    [launchPersistentContext], whose options have no [userAgent] and no
    [viewport] and whose [args] are empty; no context is created
    afterwards.  Without [setUserDataDir] the same settings reach
    [newContext]. *)
Theorem C5_persistent_launch_drops_user_agent :
  ∃ st1 st2 st3 st4 s options,
    fastPage.setUserAgent "default" "MyAgent/1.0" initial_store = Ok st1
    ∧ fastPage.setWindowSizeArg "default" {| width := 1024; height := 768 |} st1 = Ok st2
    ∧ fastPage.setDefaultBrowser "default" firefox st2 = Ok st3
    ∧ fastPage.setUserDataDir "default" "/tmp/profile" st3 = Ok st4
    ∧ run [(0%nat, Resolve); (0%nat, Resolve)]
        (single st4 (TGetBrowserHandle "default" BStart)) = Some s
    ∧ tasks s = [TGetBrowserHandle "default" (BResolved 0%nat)]
    ∧ trace (shared s)
        = [EvLaunchPersistentContext "default" firefox "/tmp/profile" options]
    ∧ options !! "userAgent" = None
    ∧ options !! "viewport" = None
    ∧ options !! "args" = Some (VArr [])
    ∧ ∃ s' launch_options context_options,
        run [(0%nat, Resolve); (0%nat, Resolve); (0%nat, Resolve)]
          (single st3 (TGetBrowserHandle "default" BStart)) = Some s'
        ∧ trace (shared s')
          = [EvLaunch "default" firefox launch_options;
             EvNewContext 0%nat context_options]
        ∧ context_options !! "userAgent" = Some (VStr "MyAgent/1.0")
        ∧ context_options !! "viewport"
          = Some (VViewport {| width := 1024; height := 768 |}).
Proof.
  do 6 eexists. repeat split; try reflexivity.
  do 3 eexists. repeat split; reflexivity.
Qed.

(** Closed equations between concrete runs are settled by evaluating both
    sides. *)
Ltac by_evaluation :=
  repeat match goal with |- _ ∧ _ => split end;
  vm_compute; reflexivity.


(** ** The lock *)

Lemma launch_key_inj (n m : string) : launch_key n = launch_key m → n = m.
Proof. unfold launch_key. intros H. by simplify_eq/=. Qed.

Lemma string_length_app (a b : string) :
  String.length (a +:+ b) = (String.length a + String.length b)%nat.
Proof.
  induction a as [|x a IH]; [done|].
  change (String x a +:+ b) with (String x (a +:+ b)). simpl. by rewrite IH.
Qed.

Lemma launch_key_ne_close_key (n : string) : launch_key n ≠ close_key n.
Proof.
  intros H. apply (f_equal String.length) in H.
  unfold launch_key, close_key in H. rewrite !string_length_app in H. simpl in H. lia.
Qed.

(** Induction over runs. *)
Lemma run_invariant (P : System → Prop) (ok : nat * Response → Prop) :
  (∀ i r s s', ok (i, r) → P s → step_at i r s = Some s' → P s') →
  ∀ sched s s', Forall ok sched → P s → run sched s = Some s' → P s'.
Proof.
  intros Hstep sched. induction sched as [|[i r] sched IH]; intros s s' Hok HP Hrun.
  - simpl in Hrun. by injection Hrun as <-.
  - simpl in Hrun. destruct (step_at i r s) as [s1|] eqn:Hs; [|done]. simpl in Hrun.
    apply Forall_cons in Hok as [Hir Hok].
    eapply IH; [done | | done]. by eapply Hstep.
Qed.

Lemma step_at_inv (i : nat) (r : Response) (s s' : System) :
  step_at i r s = Some s' →
  ∃ t t', tasks s !! i = Some t
        ∧ task_step r t (shared s) = Some (t', shared s')
        ∧ tasks s' = <[i := t']> (tasks s).
Proof.
  unfold step_at. intros H.
  destruct (tasks s !! i) as [t|] eqn:Ht; [|done]. simpl in H.
  destruct (task_step r t (shared s)) as [[t' sh']|] eqn:Hstep; [|done].
  simpl in H. injection H as <-. by exists t, t'.
Qed.

Lemma task_step_name (r : Response) (t t' : Task) (sh sh' : Shared) :
  task_step r t sh = Some (t', sh') → task_name t' = task_name t.
Proof.
  destruct t; simpl; intros H;
    repeat (match type of H with
            | context [mbind _ ?x] => destruct x as [[??]|] eqn:?; simpl in H
            end); by simplify_eq.
Qed.

(** How a step of [browser] changes the set of held keys. *)
Lemma browser_enter_held (n : string) (sh sh' : Shared) (b' : BrowserPc) :
  browser_enter n sh = (b', sh') →
  held sh' = list_to_set (browser_keys n b') ∪ held sh.
Proof.
  unfold browser_enter, launch_failed.
  destruct (get_record (store sh) n) as [[ic c]|]; [|intros [= <- <-]; set_solver].
  destruct (browserHandle c); [intros [= <- <-]; set_solver|].
  destruct (arg_arrays (store sh) !! args c); [|intros [= <- <-]; set_solver].
  destruct (truthy (userDataDir c)); intros [= <- <-]; set_solver.
Qed.

Lemma browser_step_held (n : string) (r : Response) (b b' : BrowserPc) (sh sh' : Shared) :
  browser_step n r b sh = Some (b', sh') →
  (∀ k, k ∈ browser_keys n b → k ∈ held sh) →
  (∀ k, k ∈ held sh' ↔ (k ∈ held sh ∧ k ∉ browser_keys n b) ∨ k ∈ browser_keys n b')
  ∧ (∀ k, k ∈ browser_keys n b' → k ∉ browser_keys n b → k ∉ held sh).
Proof.
  intros Hstep Hheld. destruct b as [|ic|ic|ic h| |]; simpl in Hstep; try done.
  - destruct (decide (launch_key n ∈ held sh)) as [|Hfree]; [done|].
    injection Hstep as Hstep. apply browser_enter_held in Hstep. rewrite Hstep.
    unfold browser_keys. destruct (in_section b'); set_solver.
  - destruct r; injection Hstep as <- <-; unfold browser_keys in *; simpl in *;
      set_solver.
  - destruct r.
    + destruct (records (store sh) !! ic); [|done].
      injection Hstep as <- <-; unfold browser_keys in *; simpl in *.
      split; [|set_solver]. intros k.
      destruct (decide (k = launch_key n)) as [->|Hk]; set_solver.
    + injection Hstep as <- <-; unfold browser_keys in *; simpl in *; set_solver.
  - destruct r; injection Hstep as <- <-; unfold browser_keys in *; simpl in *;
      set_solver.
Qed.

Lemma browser_keys_NoDup (n : string) (b : BrowserPc) : NoDup (browser_keys n b).
Proof. unfold browser_keys. destruct (in_section b); [apply NoDup_singleton | apply NoDup_nil_2]. Qed.

Lemma browser_keys_elem (n : string) (b : BrowserPc) (k : string) :
  k ∈ browser_keys n b → k = launch_key n.
Proof. unfold browser_keys. destruct (in_section b); set_solver. Qed.

Lemma close_clear_held (n : string) (sh sh' : Shared) (c' : ClosePc) :
  close_clear n sh = (c', sh') → held sh' = held sh ∧ ∃ v, c' = CResolved v.
Proof.
  unfold close_clear, close_failed.
  destruct (get_record (store sh) n) as [[l c]|]; intros [= <- <-]; eauto.
Qed.

Lemma close_step_held (n : string) (r : Response) (c c' : ClosePc) (sh sh' : Shared) :
  close_step n r c sh = Some (c', sh') →
  (∀ k, k ∈ task_keys (TCloseBrowser n c) → k ∈ held sh) →
  NoDup (task_keys (TCloseBrowser n c'))
  ∧ (∀ k, k ∈ held sh' ↔
          (k ∈ held sh ∧ k ∉ task_keys (TCloseBrowser n c))
          ∨ k ∈ task_keys (TCloseBrowser n c'))
  ∧ (∀ k, k ∈ task_keys (TCloseBrowser n c') → k ∉ task_keys (TCloseBrowser n c) →
          k ∉ held sh).
Proof.
  intros Hstep Hheld. pose proof (launch_key_ne_close_key n) as Hne.
  destruct c as [|b|h|v]; simpl in Hstep; try done.
  - destruct (decide (close_key n ∈ held sh)) as [|Hfree]; [done|].
    injection Hstep as Hstep. unfold close_enter, close_failed in Hstep.
    destruct (get_record (store sh) n) as [[l c]|];
      [|injection Hstep as <- <-; simpl; split; [apply NoDup_nil_2 | set_solver]].
    destruct (nonPersistantBrowserHandle c).
    { apply close_clear_held in Hstep as [-> [v ->]]. simpl.
      split; [apply NoDup_nil_2 | set_solver]. }
    destruct (browserHandle c).
    { injection Hstep as <- <-. simpl.
      split; [apply NoDup_singleton | set_solver]. }
    apply close_clear_held in Hstep as [-> [v ->]]. simpl.
    split; [apply NoDup_nil_2 | set_solver].
  - assert (Hgen : ∀ b'' sh'',
      browser_step n r b sh = Some (b'', sh'') →
      NoDup (task_keys (TCloseBrowser n (CBrowser b'')))
      ∧ (∀ k, k ∈ held sh'' ↔
              (k ∈ held sh ∧ k ∉ task_keys (TCloseBrowser n (CBrowser b)))
              ∨ k ∈ task_keys (TCloseBrowser n (CBrowser b'')))
      ∧ (∀ k, k ∈ task_keys (TCloseBrowser n (CBrowser b'')) →
              k ∉ task_keys (TCloseBrowser n (CBrowser b)) → k ∉ held sh)).
    { intros b'' sh'' Hb. apply browser_step_held in Hb as [Hiff Hnew];
        [|intros k Hk; apply Hheld; simpl; set_solver].
      simpl. split; [|split].
      - apply NoDup_cons. split; [|apply browser_keys_NoDup].
        intros Hin%browser_keys_elem. congruence.
      - intros k. rewrite Hiff. rewrite !elem_of_cons.
        assert (close_key n ∈ held sh) by (apply Hheld; simpl; set_solver).
        destruct (decide (k = close_key n)) as [->|Hk].
        + split; [auto|]. intros _. left. split; [done|].
          intros Hin%browser_keys_elem. congruence.
        + tauto.
      - intros k [->|Hk]%elem_of_cons Hnot.
        + exfalso. apply Hnot. set_solver.
        + apply Hnew; [done|]. intros Hin. apply Hnot. set_solver. }
    destruct b as [|ic|ic|ic h|h|e]; simpl in Hstep.
    + destruct (decide (launch_key n ∈ held sh)); [done|]. simpl in Hstep.
      destruct (browser_enter n sh) as [b'' sh''] eqn:He.
      injection Hstep as <- <-. apply Hgen. simpl. by rewrite decide_False, He.
    + destruct (browser_step n r (BLaunchPersistent ic) sh) as [[b'' sh'']|] eqn:Hb;
        simpl in Hstep; [|destruct r; simpl in Hb; done].
      revert Hstep. destruct r; simpl in Hb |- *; injection Hb as <- <-;
        intros [= <- <-]; by apply Hgen.
    + destruct (browser_step n r (BLaunch ic) sh) as [[b'' sh'']|] eqn:Hb.
      * assert (c' = CBrowser b'' ∧ sh' = sh'') as [-> ->].
        { revert Hstep. simpl in Hb. destruct r; simpl.
          - destruct (records (store sh) !! ic); [|done]. simpl in *.
            injection Hb as <- <-. by intros [= <- <-].
          - injection Hb as <- <-. by intros [= <- <-]. }
        by apply Hgen.
      * simpl in Hb. destruct r; [|done].
        destruct (records (store sh) !! ic); done.
    + destruct (browser_step n r (BNewContext ic h) sh) as [[b'' sh'']|] eqn:Hb;
        simpl in Hstep; [|destruct r; simpl in Hb; done].
      revert Hstep. destruct r; simpl in Hb |- *; injection Hb as <- <-;
        intros [= <- <-]; by apply Hgen.
    + injection Hstep as <- <-. simpl.
      split; [apply NoDup_singleton|]. split; [|set_solver].
      intros k. assert (close_key n ∈ held sh) by (apply Hheld; simpl; set_solver).
      unfold browser_keys. simpl.
      destruct (decide (k = close_key n)) as [->|Hk].
      { split; [intros _; right; apply list_elem_of_singleton; done | done]. }
      split.
      * intros Hin. left. split; [done|]. by intros ->%list_elem_of_singleton.
      * intros [[Hin _]|Hin%list_elem_of_singleton]; done.
    + unfold close_failed in Hstep. injection Hstep as <- <-. simpl.
      split; [apply NoDup_nil_2 | set_solver].
  - destruct r.
    + injection Hstep as Hstep. apply close_clear_held in Hstep as [-> [v ->]]. simpl.
      split; [apply NoDup_nil_2 | set_solver].
    + injection Hstep as <- <-. simpl. split; [apply NoDup_nil_2 | set_solver].
Qed.

Lemma task_step_held (r : Response) (t t' : Task) (sh sh' : Shared) :
  task_step r t sh = Some (t', sh') →
  (∀ k, k ∈ task_keys t → k ∈ held sh) →
  NoDup (task_keys t')
  ∧ (∀ k, k ∈ held sh' ↔ (k ∈ held sh ∧ k ∉ task_keys t) ∨ k ∈ task_keys t')
  ∧ (∀ k, k ∈ task_keys t' → k ∉ task_keys t → k ∉ held sh).
Proof.
  intros Hstep Hheld. destruct t as [n b|n p|n b|n c]; simpl in Hstep.
  - destruct (browser_step n r b sh) as [[b' sh'']|] eqn:Hb; [|done].
    injection Hstep as <- <-. simpl.
    split; [apply browser_keys_NoDup|]. by apply (browser_step_held n r).
  - destruct p as [| |b]; simpl in Hstep.
    + destruct (config (store sh) !! n).
      * injection Hstep as <- <-. simpl. split; [apply NoDup_nil_2 | set_solver].
      * destruct (fastPage.init n None (store sh)); [|done].
        injection Hstep as <- <-. simpl. split; [apply NoDup_nil_2 | set_solver].
    + injection Hstep as <- <-. simpl. split; [apply NoDup_nil_2 | set_solver].
    + destruct (browser_step n r b sh) as [[b' sh'']|] eqn:Hb; [|done].
      injection Hstep as <- <-. simpl.
      split; [apply browser_keys_NoDup|]. by apply (browser_step_held n r).
  - destruct (browser_step n r b sh) as [[b' sh'']|] eqn:Hb; [|done].
    injection Hstep as <- <-. simpl.
    split; [apply browser_keys_NoDup|]. by apply (browser_step_held n r).
  - destruct (close_step n r c sh) as [[c' sh'']|] eqn:Hc; [|done].
    injection Hstep as <- <-. by apply (close_step_held n r).
Qed.

Lemma all_keys_middle (ts1 ts2 : list Task) (t : Task) :
  all_keys (ts1 ++ t :: ts2) = all_keys ts1 ++ task_keys t ++ all_keys ts2.
Proof. unfold all_keys. by rewrite bind_app, bind_cons. Qed.

Lemma lookup_middle (ts : list Task) (i : nat) (t t' : Task) :
  ts !! i = Some t →
  ∃ ts1 ts2, ts = ts1 ++ t :: ts2 ∧ <[i := t']> ts = ts1 ++ t' :: ts2
             ∧ length ts1 = i.
Proof.
  intros Hi. exists (take i ts), (drop (S i) ts).
  pose proof (lookup_lt_Some _ _ _ Hi) as Hlt.
  split; [by rewrite take_drop_middle|]. split.
  - by rewrite insert_take_drop.
  - rewrite length_take. lia.
Qed.

Lemma task_keys_in_all (ts : list Task) (i : nat) (t : Task) (k : string) :
  ts !! i = Some t → k ∈ task_keys t → k ∈ all_keys ts.
Proof.
  intros Hi Hk. unfold all_keys. apply list_elem_of_bind. exists t.
  split; [done|]. by eapply list_elem_of_lookup_2.
Qed.

(** The invariant of the lock holds along every run. *)
Lemma lock_inv_step (i : nat) (r : Response) (s s' : System) :
  lock_inv s → step_at i r s = Some s' → lock_inv s'.
Proof.
  intros [Hnd Hheld] (t & t' & Hi & Hstep & Htasks)%step_at_inv.
  destruct (lookup_middle _ i t t' Hi) as (ts1 & ts2 & Hts & Hts' & _).
  destruct (task_step_held r t t' _ _ Hstep) as (Hnd' & Hiff & Hnew).
  { intros k Hk. apply Hheld. by eapply task_keys_in_all. }
  unfold lock_inv. rewrite Htasks, Hts'. rewrite Hts in Hnd, Hheld.
  rewrite all_keys_middle in *.
  apply NoDup_app in Hnd as (Hnd1 & Hdisj1 & Hnd2).
  apply NoDup_app in Hnd2 as (Hndt & Hdisj2 & Hnd2).
  assert (Hfresh : ∀ k, k ∈ task_keys t' → (k ∉ all_keys ts1) ∧ (k ∉ all_keys ts2)).
  { intros k Hk. destruct (decide (k ∈ task_keys t)) as [Hin|Hnin].
    - split.
      + intros H1. apply (Hdisj1 k H1). rewrite elem_of_app. by left.
      + by apply Hdisj2.
    - specialize (Hnew k Hk Hnin).
      split; intros Hc; apply Hnew; apply Hheld; rewrite !elem_of_app; auto. }
  split.
  - apply NoDup_app. split; [done|]. split.
    + intros k H1 [H2|H2]%elem_of_app.
      * by apply (proj1 (Hfresh k H2)).
      * apply (Hdisj1 k H1). rewrite elem_of_app. by right.
    + apply NoDup_app. split; [done|]. split; [|done].
      intros k H1. apply (proj2 (Hfresh k H1)).
  - intros k. rewrite Hiff, Hheld, !elem_of_app. split.
    + intros [[[H1|[H1|H1]] Hn]|H1]; [by left | done | by right; right | by right; left].
    + intros [H1|[H1|H1]].
      * left. split; [by left|].
        intros Hin. apply (Hdisj1 k H1). rewrite elem_of_app. by left.
      * by right.
      * left. split; [by right; right|].
        intros Hin. by apply (Hdisj2 k Hin).
Qed.

Lemma not_started_keys (t : Task) : not_started t = true → task_keys t = [].
Proof. destruct t as [n []|n []|n []|n []]; simpl; done. Qed.

Lemma quiescent_lock_inv (s : System) : quiescent s → lock_inv s.
Proof.
  intros [Hheld Hts]. unfold lock_inv.
  assert (Hk : all_keys (tasks s) = []).
  { induction Hts as [|t ts Ht _ IH]; [done|].
    unfold all_keys in *. rewrite bind_cons, IH, (not_started_keys t Ht). done. }
  rewrite Hk, Hheld. split; [apply NoDup_nil_2 | set_solver].
Qed.

Lemma lock_inv_no_keys (s : System) :
  lock_inv s → all_keys (tasks s) = [] → held (shared s) = ∅.
Proof.
  intros [_ Hheld] Hk. apply set_eq. intros k. rewrite Hheld, Hk. set_solver.
Qed.

Lemma lock_inv_run (sched : list (nat * Response)) (s s' : System) :
  quiescent s → run sched s = Some s' → lock_inv s'.
Proof.
  intros Hq Hrun.
  apply (run_invariant lock_inv (λ _, True)
           (λ i r s1 s2 _ H Hs, lock_inv_step i r s1 s2 H Hs) sched s s');
    [by apply Forall_true | by apply quiescent_lock_inv | done].
Qed.

(** A task whose next step enters the section holds no key of it yet, and
    the step needs the key to be free. *)
Lemma inside_key (k : SectionKind) (n : string) (t : Task) :
  inside k n t → section_key k n ∈ task_keys t.
Proof.
  intros [Hname Hin]. destruct k; simpl in *.
  - destruct Hin as (b & Hb & Hsec).
    destruct t as [m b'|m [| |b']|m b'|m [|b'| |]]; simpl in *; simplify_eq;
      unfold browser_keys; rewrite Hsec; set_solver.
  - destruct Hin as (c & -> & Hc). destruct c; simpl; try done; set_solver.
Qed.

Lemma at_section_blocked (k : SectionKind) (n : string) (r : Response) (t t' : Task)
    (sh sh' : Shared) :
  at_section k n t → section_key k n ∉ task_keys t →
  section_key k n ∈ held sh → task_step r t sh = Some (t', sh') → False.
Proof.
  intros [Hname Hat] Hnot Hheld Hstep. destruct k; simpl in *.
  - destruct Hat as (b & Hb & Hset).
    assert (Hstart : b = BStart).
    { destruct b; simpl in Hset; try done;
        destruct t as [m b'|m [| |b']|m b'|m [|b'| |]]; simpl in *; simplify_eq;
        exfalso; apply Hnot; unfold browser_keys; simpl; set_solver. }
    subst b.
    destruct t as [m b'|m [| |b']|m b'|m [|b'| |]]; simpl in *; simplify_eq;
      simpl in Hstep; rewrite decide_True in Hstep by done; done.
  - destruct Hat as (c & -> & Hc). destruct c as [|b|h|v]; simpl in *; try done.
    + by rewrite decide_True in Hstep.
    + exfalso. apply Hnot. set_solver.
    + exfalso. apply Hnot. set_solver.
Qed.

Lemma same_kind_exclusive (k : SectionKind) (n : string) : sections_exclusive k k n.
Proof.
  intros s0 sched s i j ti tj r s' Hq Hrun Hij Hi Hj Hin Hat Hstep.
  pose proof (lock_inv_run sched s0 s Hq Hrun) as [Hnd Hheld].
  apply step_at_inv in Hstep as (t & t' & Hj' & Hstep & _).
  rewrite Hj in Hj'. injection Hj' as <-.
  pose proof (inside_key k n ti Hin) as Hki.
  eapply (at_section_blocked k n r tj t'); [done | | | done].
  - intros Hkj.
    destruct (lookup_middle _ j tj tj Hj) as (ts1 & ts2 & Hts & _ & Hlen).
    rewrite Hts, all_keys_middle in Hnd.
    apply NoDup_app in Hnd as (_ & Hdisj1 & Hnd).
    apply NoDup_app in Hnd as (_ & Hdisj2 & _).
    rewrite Hts in Hi. destruct (decide (i < j)%nat) as [Hlt|Hge].
    + rewrite lookup_app_l in Hi by lia.
      apply (Hdisj1 (section_key k n)); [by apply (task_keys_in_all ts1 i ti)|].
      rewrite elem_of_app. by left.
    + rewrite lookup_app_r in Hi by lia.
      destruct (i - length ts1)%nat as [|i'] eqn:Hd; [lia|]. simpl in Hi.
      apply (Hdisj2 (section_key k n) Hkj). by apply (task_keys_in_all ts2 i' ti).
  - apply Hheld. by apply (task_keys_in_all (tasks s) i ti).
Qed.

(** C2 (as the code has it).  The launch section of an instance is guarded
    by the key ["instance_" + name] and the close section by the different
    key ["instance_close_" + name].  Two launch sections of one instance
    never execute concurrently, and neither do two close sections of one
    instance. *)
Theorem C2_launch_and_close_use_separate_keys (instanceName : string) :
  section_key LaunchSection instanceName ≠ section_key CloseSection instanceName
  ∧ sections_exclusive LaunchSection LaunchSection instanceName
  ∧ sections_exclusive CloseSection CloseSection instanceName.
Proof.
  split; [apply launch_key_ne_close_key|].
  split; apply same_kind_exclusive.
Qed.

Lemma C2_witness :
  run [(0%nat, Resolve)] example_three_requests
    ≫= step_at 2%nat Resolve = None.
Proof.
  destruct (run [(0%nat, Resolve)] example_three_requests) as [s|] eqn:Hrun;
    [|reflexivity].
  simpl. destruct (step_at 2%nat Resolve s) as [s'|] eqn:Hstep; [|reflexivity].
  exfalso.
  apply (proj1 (proj2 (C2_launch_and_close_use_separate_keys "default"))
           example_three_requests [(0%nat, Resolve)] s 0%nat 2%nat
           (TGetBrowserHandle "default" (BLaunch 0%nat))
           (TNewPage1 "default" BStart) Resolve s').
  - split; [reflexivity | repeat constructor].
  - exact Hrun.
  - discriminate.
  - vm_compute in Hrun. by injection Hrun as <-.
  - vm_compute in Hrun. by injection Hrun as <-.
  - split; [reflexivity|]. by exists (BLaunch 0%nat).
  - split; [reflexivity|]. by exists BStart.
  - exact Hstep.
Defined.

(** C2 fails as stated: launch and close of the default instance use two
    keys; [closeBrowser] runs its whole section while a launch is waiting
    for the browser, and [browser] runs its section while a close is waiting
    for [close()]. *)
Lemma C2_counterexample :
  ¬ same_exclusive_section "default"
  ∧ section_key LaunchSection "default" ≠ section_key CloseSection "default"
  ∧ ¬ sections_exclusive LaunchSection CloseSection "default"
  ∧ ¬ sections_exclusive CloseSection LaunchSection "default".
Proof.
  assert (Hlc : ¬ sections_exclusive LaunchSection CloseSection "default").
  { intros H.
    eapply (H example_launch_and_close [(0%nat, Resolve)] _ 0%nat 1%nat
              (TGetBrowserHandle "default" (BLaunch 0%nat))
              (TCloseBrowser "default" CStart) Resolve).
    - split; [reflexivity | repeat constructor].
    - reflexivity.
    - discriminate.
    - reflexivity.
    - reflexivity.
    - split; [reflexivity|]. by exists (BLaunch 0%nat).
    - split; [reflexivity|]. by exists CStart.
    - reflexivity. }
  assert (Hcl : ¬ sections_exclusive CloseSection LaunchSection "default").
  { intros H.
    eapply (H example_close_and_launch
              [(0%nat, Resolve); (0%nat, Resolve); (1%nat, Resolve); (1%nat, Resolve);
               (1%nat, Resolve)] _ 1%nat 2%nat
              (TCloseBrowser "default" (CClosing 0%nat))
              (TGetBrowserHandle "default" BStart) Resolve).
    - split; [reflexivity | repeat constructor].
    - reflexivity.
    - discriminate.
    - reflexivity.
    - reflexivity.
    - split; [reflexivity|]. by exists (CClosing 0%nat).
    - split; [reflexivity|]. by exists BStart.
    - reflexivity. }
  split; [|split; [|split]].
  - intros (_ & H & _). by apply Hlc.
  - apply launch_key_ne_close_key.
  - exact Hlc.
  - exact Hcl.
Qed.

(** ** Failures *)

(** Failures of awaited calls.  When an awaited call of the launch section
    rejects, [browser] logs the error and rejects with the same error, and
    so do [getBrowserHandle], [newPage] and [newPage1]; nothing is stored
    and no further call is made.  When the awaited [close()] or the nested
    [browser] call rejects inside [closeBrowser], the error is logged and
    [closeBrowser] resolves (with [undefined]); again no further call is
    made.  A settled call takes no more steps: nothing is retried.  The
    [TypeError] of an instance without a record is treated the same way:
    logged and re-thrown by [browser], logged and swallowed by
    [closeBrowser]. *)
Theorem awaited_failures_logged_not_retried (instanceName : string) (e : Err)
    (sh : Shared) :
  (∀ b, in_section b = true →
     ∃ sh',
       browser_step instanceName (Reject e) b sh = Some (BRejected e, sh')
       ∧ task_step (Reject e) (TGetBrowserHandle instanceName b) sh
           = Some (TGetBrowserHandle instanceName (BRejected e), sh')
       ∧ task_step (Reject e) (TNewPage instanceName (NPBrowser b)) sh
           = Some (TNewPage instanceName (NPBrowser (BRejected e)), sh')
       ∧ task_step (Reject e) (TNewPage1 instanceName b) sh
           = Some (TNewPage1 instanceName (BRejected e), sh')
       ∧ trace sh' = trace sh ++ [EvError "Error on starting new page: Lock Error ->" e]
       ∧ store sh' = store sh
       ∧ launch_key instanceName ∉ held sh')
  ∧ (∀ h, ∃ sh',
       task_step (Reject e) (TCloseBrowser instanceName (CClosing h)) sh
         = Some (TCloseBrowser instanceName (CResolved None), sh')
       ∧ trace sh' = trace sh ++ [EvConsoleLog "Error on closing browser: Lock Error ->" e]
       ∧ store sh' = store sh
       ∧ close_key instanceName ∉ held sh')
  ∧ (∀ r, ∃ sh',
       task_step r (TCloseBrowser instanceName (CBrowser (BRejected e))) sh
         = Some (TCloseBrowser instanceName (CResolved None), sh')
       ∧ trace sh' = trace sh ++ [EvConsoleLog "Error on closing browser: Lock Error ->" e]
       ∧ store sh' = store sh
       ∧ close_key instanceName ∉ held sh')
  ∧ (∀ r sh'',
       task_step r (TGetBrowserHandle instanceName (BRejected e)) sh'' = None
       ∧ task_step r (TNewPage instanceName (NPBrowser (BRejected e))) sh'' = None
       ∧ task_step r (TNewPage1 instanceName (BRejected e)) sh'' = None
       ∧ ∀ v, task_step r (TCloseBrowser instanceName (CResolved v)) sh'' = None)
  ∧ (get_record (store sh) instanceName = None →
     (launch_key instanceName ∉ held sh →
      ∀ r, browser_step instanceName r BStart sh
           = Some (BRejected TypeError,
                   emit (EvError "Error on starting new page: Lock Error ->" TypeError)
                     sh))
     ∧ (close_key instanceName ∉ held sh →
        ∀ r, task_step r (TCloseBrowser instanceName CStart) sh
             = Some (TCloseBrowser instanceName (CResolved None),
                     emit (EvConsoleLog "Error on closing browser: Lock Error ->"
                             TypeError) sh))).
Proof.
  split; [|split; [|split; [|split]]].
  - intros b Hb. destruct b; try discriminate; eexists; simpl;
      (repeat split; [reflexivity.. | set_solver]).
  - intros h. eexists. simpl. repeat split; [reflexivity.. | set_solver].
  - intros r. eexists. simpl. repeat split; [reflexivity.. | set_solver].
  - intros r sh''. repeat split; reflexivity.
  - intros Hnone. split; intros Hfree r; simpl; rewrite decide_False by done.
    + unfold browser_enter. by rewrite Hnone.
    + unfold close_enter. by rewrite Hnone.
Qed.

Lemma awaited_failures_logged_not_retried_witness :
  ∃ sh',
    task_step (Reject (LibraryError 1%nat))
      (TGetBrowserHandle "default" (BLaunch 0%nat)) example_shared_launching
      = Some (TGetBrowserHandle "default" (BRejected (LibraryError 1%nat)), sh')
    ∧ trace sh'
      = trace example_shared_launching
          ++ [EvError "Error on starting new page: Lock Error ->" (LibraryError 1%nat)]
    ∧ store sh' = store example_shared_launching.
Proof.
  destruct (awaited_failures_logged_not_retried "default" (LibraryError 1%nat)
              example_shared_launching) as (Hlaunch & _).
  destruct (Hlaunch (BLaunch 0%nat) eq_refl)
    as (sh' & _ & Hstep & _ & _ & Htrace & Hstore & _).
  exists sh'. split; [exact Hstep|]. split; [exact Htrace | exact Hstore].
Defined.

(** ** Stores along the steps *)

Lemma store_wf_alter (st : Store) (ic : loc) (f : ConfigValue → ConfigValue) :
  (∀ c, args (f c) = args c ∧ hooks (f c) = hooks c) →
  store_wf st → store_wf (set_records (alter f ic (records st)) st).
Proof.
  intros Hf [Hd Hr Hi Ha Hh Hz]. split; simpl; try done.
  - intros n l Hl. rewrite length_alter. exact (Hr n l Hl).
  - intros c (i & Hc)%list_elem_of_lookup_1.
    destruct (decide (i = ic)) as [->|Hne].
    + rewrite list_lookup_alter_eq in Hc.
      apply fmap_Some in Hc as (c0 & Hc0 & ->). rewrite (proj1 (Hf c0)).
      apply Ha. eapply list_elem_of_lookup_2; eassumption.
    + rewrite list_lookup_alter_ne in Hc by done.
      apply Ha. eapply list_elem_of_lookup_2; eassumption.
  - intros c (i & Hc)%list_elem_of_lookup_1.
    destruct (decide (i = ic)) as [->|Hne].
    + rewrite list_lookup_alter_eq in Hc.
      apply fmap_Some in Hc as (c0 & Hc0 & ->). rewrite (proj2 (Hf c0)).
      apply Hh. eapply list_elem_of_lookup_2; eassumption.
    + rewrite list_lookup_alter_ne in Hc by done.
      apply Hh. eapply list_elem_of_lookup_2; eassumption.
Qed.

Lemma store_wf_bind_copy (st : Store) (name : string) (d : ConfigValue) :
  d ∈ records st ∨ d = defaultConfig →
  store_wf st → store_wf (bind_copy name d st).
Proof.
  intros Hd [Hdef Hr Hi Ha Hh [Hz1 Hz2]]. split; simpl.
  - destruct (decide (name = "default")) as [->|Hne].
    + rewrite lookup_insert_eq. eauto.
    + by rewrite lookup_insert_ne.
  - intros n l. rewrite length_app. simpl.
    destruct (decide (name = n)) as [->|Hne].
    + rewrite lookup_insert_eq. intros [= <-]. lia.
    + rewrite lookup_insert_ne by done. intros Hl%Hr. lia.
  - intros n1 n2 l.
    destruct (decide (name = n1)) as [E1|Hne1], (decide (name = n2)) as [E2|Hne2];
      subst; rewrite ?lookup_insert_eq, ?lookup_insert_ne by done; try done.
    + intros [= <-] Hl%Hr. lia.
    + intros Hl%Hr [= <-]. lia.
    + apply Hi.
  - intros c [Hc | ->%list_elem_of_singleton]%elem_of_app; [by apply Ha|].
    destruct Hd as [Hd | ->]; [by apply Ha | done].
  - intros c [Hc | ->%list_elem_of_singleton]%elem_of_app; [by apply Hh|].
    destruct Hd as [Hd | ->]; [by apply Hh | done].
  - done.
Qed.

Lemma store_wf_init (st st' : Store) (name : string) (u : option bool) :
  store_wf st → fastPage.init name u st = Some st' → store_wf st'.
Proof.
  intros Hwf. unfold fastPage.init. destruct (default true u).
  - destruct (get_record st "default") as [[l d]|] eqn:Hd; [|done].
    simpl. intros [= <-]. apply store_wf_bind_copy; [|done].
    left. apply get_record_Some in Hd as [_ Hd]. eapply list_elem_of_lookup_2; eassumption.
  - intros [= <-]. apply store_wf_bind_copy; [by right | done].
Qed.

Lemma store_wf_init_total (st : Store) (name : string) (u : option bool) :
  store_wf st → is_Some (fastPage.init name u st).
Proof.
  intros Hwf. unfold fastPage.init. destruct (default true u); [|eauto].
  destruct (wf_default st Hwf) as [l Hl].
  destruct (store_wf_get_record st "default" l Hwf Hl) as [d ->]. simpl. eauto.
Qed.

Lemma store_wf_update_record (sh : Shared) (ic : loc) (f : ConfigValue → ConfigValue) :
  (∀ c, args (f c) = args c ∧ hooks (f c) = hooks c) →
  store_wf (store sh) → store_wf (store (update_record ic f sh)).
Proof. intros Hf Hwf. simpl. by apply store_wf_alter. Qed.

Lemma get_record_alter (st : Store) (ic : loc) (f : ConfigValue → ConfigValue)
    (n : string) (l : loc) (c : ConfigValue) :
  get_record st n = Some (l, c) →
  get_record (set_records (alter f ic (records st)) st) n
    = Some (l, if decide (l = ic) then f c else c).
Proof.
  intros [Hl Hc]%get_record_Some. apply get_record_Some. simpl. split; [done|].
  case_decide as Hd.
  - subst. by rewrite list_lookup_alter_eq, Hc.
  - by rewrite list_lookup_alter_ne.
Qed.

Lemma get_record_bind_copy (st : Store) (m n : string) (d : ConfigValue) (l : loc)
    (c : ConfigValue) :
  m ≠ n → get_record st n = Some (l, c) → get_record (bind_copy m d st) n = Some (l, c).
Proof.
  intros Hne [Hl Hc]%get_record_Some. apply get_record_Some. simpl.
  rewrite lookup_insert_ne by done. split; [done|].
  rewrite lookup_app_l; [done|]. eapply lookup_lt_Some; eassumption.
Qed.

Lemma launch_count_snoc (n : string) (tr : list Event) (ev : Event) :
  launch_count n (tr ++ [ev])
  = (launch_count n tr + if is_launch n ev then 1 else 0)%nat.
Proof.
  unfold launch_count. rewrite filter_app, length_app. f_equal.
  destruct (is_launch n ev) eqn:He.
  - by rewrite filter_cons_True.
  - rewrite filter_cons_False; [done|]. by rewrite He.
Qed.

Lemma set_browserHandle_arrays (v : option Handle) (c : ConfigValue) :
  args (set_browserHandle v c) = args c ∧ hooks (set_browserHandle v c) = hooks c.
Proof. done. Qed.

Lemma set_nonPersistantBrowserHandle_arrays (v : option Handle) (c : ConfigValue) :
  args (set_nonPersistantBrowserHandle v c) = args c
  ∧ hooks (set_nonPersistantBrowserHandle v c) = hooks c.
Proof. done. Qed.

(** Every step keeps the store well formed. *)
Lemma browser_step_wf (n : string) (r : Response) (b b' : BrowserPc) (sh sh' : Shared) :
  browser_step n r b sh = Some (b', sh') → store_wf (store sh) → store_wf (store sh').
Proof.
  intros Hstep Hwf. destruct b as [|ic|ic|ic h| |]; simpl in Hstep; try done.
  - destruct (decide (launch_key n ∈ held sh)); [done|]. injection Hstep as Hstep.
    unfold browser_enter, launch_failed in Hstep.
    destruct (get_record (store sh) n) as [[ic c]|]; [|by injection Hstep as <- <-].
    destruct (browserHandle c); [by injection Hstep as <- <-|].
    destruct (arg_arrays (store sh) !! args c); [|by injection Hstep as <- <-].
    destruct (truthy (userDataDir c)); by injection Hstep as <- <-.
  - destruct r; injection Hstep as <- <-; simpl; [|done].
    apply store_wf_alter; [apply set_browserHandle_arrays | done].
  - destruct r.
    + destruct (records (store sh) !! ic); [|done]. injection Hstep as <- <-. simpl.
      apply store_wf_alter; [apply set_nonPersistantBrowserHandle_arrays | done].
    + by injection Hstep as <- <-.
  - destruct r; injection Hstep as <- <-; simpl; [|done].
    apply store_wf_alter; [apply set_browserHandle_arrays | done].
Qed.

Lemma close_clear_wf (n : string) (sh sh' : Shared) (c' : ClosePc) :
  close_clear n sh = (c', sh') → store_wf (store sh) → store_wf (store sh').
Proof.
  unfold close_clear, close_failed.
  destruct (get_record (store sh) n) as [[l c]|]; intros [= <- <-] Hwf; [|done].
  apply store_wf_update_record; [apply set_nonPersistantBrowserHandle_arrays|].
  apply store_wf_update_record; [apply set_browserHandle_arrays | done].
Qed.

Lemma close_step_browser (n : string) (r : Response) (b : BrowserPc) (c' : ClosePc)
    (sh sh' : Shared) :
  close_step n r (CBrowser b) sh = Some (c', sh') →
  (∃ h, b = BResolved h ∧ c' = CClosing h ∧ sh' = emit (EvClose h true) sh)
  ∨ (∃ e, b = BRejected e ∧ c' = CResolved None
          ∧ sh' = emit (EvConsoleLog "Error on closing browser: Lock Error ->" e)
                    (release (close_key n) sh))
  ∨ (∃ b'', settled b = false ∧ browser_step n r b sh = Some (b'', sh')
            ∧ c' = CBrowser b'').
Proof.
  intros Hstep. destruct b as [|ic|ic|ic h|h|e]; cbn [close_step] in Hstep.
  1-4: right; right;
       destruct (browser_step n r _ sh) as [[b'' sh'']|] eqn:Hb; [|done];
       simpl in Hstep; injection Hstep as <- <-; by exists b''.
  - left. injection Hstep as <- <-. by exists h.
  - right. left. unfold close_failed in Hstep. injection Hstep as <- <-. by exists e.
Qed.

Lemma close_step_wf (n : string) (r : Response) (c c' : ClosePc) (sh sh' : Shared) :
  close_step n r c sh = Some (c', sh') → store_wf (store sh) → store_wf (store sh').
Proof.
  intros Hstep Hwf. destruct c as [|b|h|v].
  - simpl in Hstep.
    destruct (decide (close_key n ∈ held sh)); [done|]. injection Hstep as Hstep.
    unfold close_enter, close_failed in Hstep.
    destruct (get_record (store sh) n) as [[l c]|]; [|by injection Hstep as <- <-].
    destruct (nonPersistantBrowserHandle c).
    { by apply close_clear_wf in Hstep. }
    destruct (browserHandle c); [by injection Hstep as <- <-|].
    by apply close_clear_wf in Hstep.
  - apply close_step_browser in Hstep
      as [(h & -> & -> & ->)|[(e & -> & -> & ->)|(b'' & _ & Hb & ->)]]; try done.
    eapply browser_step_wf; eassumption.
  - simpl in Hstep. destruct r.
    + injection Hstep as Hstep. by apply close_clear_wf in Hstep.
    + unfold close_failed in Hstep. by simplify_eq/=.
  - done.
Qed.

Lemma task_step_wf (r : Response) (t t' : Task) (sh sh' : Shared) :
  task_step r t sh = Some (t', sh') → store_wf (store sh) → store_wf (store sh').
Proof.
  intros Hstep Hwf. destruct t as [n b|n p|n b|n c]; simpl in Hstep.
  - destruct (browser_step n r b sh) as [[b' sh'']|] eqn:Hb; [|done].
    injection Hstep as <- <-. eapply browser_step_wf; eassumption.
  - destruct p as [| |b]; simpl in Hstep.
    + destruct (config (store sh) !! n).
      * by injection Hstep as <- <-.
      * destruct (fastPage.init n None (store sh)) as [st|] eqn:Hi; [|done].
        injection Hstep as <- <-. simpl. eapply store_wf_init; eassumption.
    + by injection Hstep as <- <-.
    + destruct (browser_step n r b sh) as [[b' sh'']|] eqn:Hb; [|done].
      injection Hstep as <- <-. eapply browser_step_wf; eassumption.
  - destruct (browser_step n r b sh) as [[b' sh'']|] eqn:Hb; [|done].
    injection Hstep as <- <-. eapply browser_step_wf; eassumption.
  - destruct (close_step n r c sh) as [[c' sh'']|] eqn:Hc; [|done].
    injection Hstep as <- <-. eapply close_step_wf; eassumption.
Qed.

(** ** Steps of [browser], case by case *)

Lemma browser_enter_inv (n : string) (sh sh' : Shared) (b' : BrowserPc) :
  browser_enter n sh = (b', sh') →
  (b' = BRejected TypeError
   ∧ sh' = emit (EvError "Error on starting new page: Lock Error ->" TypeError) sh
   ∧ (get_record (store sh) n = None
      ∨ ∃ ic c, get_record (store sh) n = Some (ic, c)
                ∧ arg_arrays (store sh) !! args c = None))
  ∨ (∃ ic c h, get_record (store sh) n = Some (ic, c) ∧ browserHandle c = Some h
               ∧ b' = BResolved h ∧ sh' = sh)
  ∨ (∃ ic c ev, get_record (store sh) n = Some (ic, c) ∧ browserHandle c = None
                ∧ section_ic b' = Some ic ∧ in_section b' = true
                ∧ (∀ m, is_launch m ev = bool_decide (n = m))
                ∧ sh' = emit ev (acquire (launch_key n) sh)).
Proof.
  unfold browser_enter, launch_failed.
  destruct (get_record (store sh) n) as [[ic c]|] eqn:Hrec.
  2: { intros [= <- <-]. left. auto. }
  destruct (browserHandle c) as [h|] eqn:Hh.
  { intros [= <- <-]. right. left. by exists ic, c, h. }
  destruct (arg_arrays (store sh) !! args c) as [a|] eqn:Ha.
  2: { intros [= <- <-]. left. split; [done|]. split; [done|]. right. by exists ic, c. }
  destruct (truthy (userDataDir c)) as [dir|]; intros [= <- <-]; right; right;
    eexists ic, c, _; repeat split; try done.
Qed.

Lemma browser_step_resolve_inv (n : string) (b b' : BrowserPc) (sh sh' : Shared) :
  browser_step n Resolve b sh = Some (b', sh') →
  (b = BStart ∧ (launch_key n ∉ held sh) ∧ browser_enter n sh = (b', sh'))
  ∨ (∃ ic c, b = BLaunch ic ∧ records (store sh) !! ic = Some c
             ∧ b' = BNewContext ic (next_handle sh)
             ∧ sh' = emit (EvNewContext (next_handle sh) (contextOption c))
                       (update_record ic
                          (set_nonPersistantBrowserHandle (Some (next_handle sh)))
                          (new_handle sh)))
  ∨ (∃ ic, section_ic b = Some ic ∧ b' = BResolved (next_handle sh)
           ∧ sh' = release (launch_key n)
                     (update_record ic (set_browserHandle (Some (next_handle sh)))
                        (new_handle sh))).
Proof.
  intros Hstep. destruct b as [|ic|ic|ic h| |]; simpl in Hstep; try done.
  - destruct (decide (launch_key n ∈ held sh)); [done|]. injection Hstep as Hstep.
    by left.
  - injection Hstep as <- <-. right. right. by exists ic.
  - destruct (records (store sh) !! ic) as [c|] eqn:Hc; [|done].
    injection Hstep as <- <-. right. left. by exists ic, c.
  - injection Hstep as <- <-. right. right. by exists ic.
Qed.

(** Steps of the page-open and handle requests. *)
Lemma open_task_step_inv (r : Response) (t t' : Task) (sh sh' : Shared) :
  is_open_request t = true →
  task_step r t sh = Some (t', sh') →
  task_name t' = task_name t ∧ is_open_request t' = true ∧
  ((∃ b b', browser_pc t = Some b ∧ browser_pc t' = Some b'
            ∧ browser_step (task_name t) r b sh = Some (b', sh')
            ∧ task_keys t = browser_keys (task_name t) b
            ∧ received t' = match b' with BResolved h => Some h | _ => None end)
   ∨ (browser_pc t = None ∧ browser_pc t' = Some BStart ∧ sh' = sh
      ∧ (t = TNewPage (task_name t) NPInit
         ∨ is_Some (config (store sh) !! task_name t)))
   ∨ (browser_pc t = None ∧ browser_pc t' = None
      ∧ config (store sh) !! task_name t = None
      ∧ ∃ st, fastPage.init (task_name t) None (store sh) = Some st
              ∧ sh' = with_store st sh)).
Proof.
  intros Hopen Hstep. destruct t as [n b|n p|n b|n c]; simpl in *; try done.
  - destruct (browser_step n r b sh) as [[b' sh'']|] eqn:Hb; [|done].
    injection Hstep as <- <-. do 2 (split; [done|]). left. by exists b, b'.
  - destruct p as [| |b]; simpl in Hstep.
    + destruct (config (store sh) !! n) as [l|] eqn:Hl.
      * injection Hstep as <- <-. do 2 (split; [done|]). right. left.
        repeat split; try done. right. by exists l.
      * destruct (fastPage.init n None (store sh)) as [st|] eqn:Hi; [|done].
        injection Hstep as <- <-. do 2 (split; [done|]). right. right.
        repeat split; try done. by exists st.
    + injection Hstep as <- <-. do 2 (split; [done|]). right. left.
      repeat split; try done. by left.
    + destruct (browser_step n r b sh) as [[b' sh'']|] eqn:Hb; [|done].
      injection Hstep as <- <-. do 2 (split; [done|]). left. by exists b, b'.
  - destruct (browser_step n r b sh) as [[b' sh'']|] eqn:Hb; [|done].
    injection Hstep as <- <-. do 2 (split; [done|]). left. by exists b, b'.
Qed.

Lemma elem_of_insert_task (ts : list Task) (i : nat) (t t' u : Task) :
  ts !! i = Some t → u ∈ <[i := t']> ts → u = t' ∨ u ∈ ts.
Proof.
  intros Hi Hu. destruct (lookup_middle ts i t t' Hi) as (ts1 & ts2 & -> & Hins & _).
  rewrite Hins in Hu. rewrite !elem_of_app, !elem_of_cons in *. tauto.
Qed.

Lemma received_browser_pc (t : Task) (h : Handle) :
  is_open_request t = true →
  received t = Some h ↔ browser_pc t = Some (BResolved h).
Proof.
  intros Hopen. destruct t as [n b|n [| |b]|n b|n c]; simpl in *; try done;
    try (destruct b; simpl; split; congruence).
Qed.

(** The configuration object only gains names. *)
Lemma open_task_step_config (r : Response) (t t' : Task) (sh sh' : Shared)
    (m : string) (l : loc) :
  is_open_request t = true →
  task_step r t sh = Some (t', sh') →
  config (store sh) !! m = Some l → config (store sh') !! m = Some l.
Proof.
  intros Hopen Hstep Hm.
  destruct (open_task_step_inv r t t' sh sh' Hopen Hstep) as (_ & _ & Hcases).
  destruct Hcases as [(b & b' & _ & _ & Hb & _)|[(_ & _ & -> & _)|
    (_ & _ & Hnone & st & Hinit & ->)]]; [|done|].
  - destruct b as [|ic|ic|ic h| |]; simpl in Hb; try done.
    + destruct (decide (launch_key (task_name t) ∈ held sh)); [done|].
      injection Hb as Hb.
      apply browser_enter_inv in Hb
        as [(_ & -> & _)|[(? & ? & ? & _ & _ & _ & ->)|(? & ? & ? & _ & _ & _ & _ & _ & ->)]];
        done.
    + destruct r; by injection Hb as <- <-.
    + destruct r.
      * destruct (records (store sh) !! ic); [|done]. by injection Hb as <- <-.
      * by injection Hb as <- <-.
    + destruct r; by injection Hb as <- <-.
  - unfold fastPage.init in Hinit. simpl in Hinit.
    destruct (get_record (store sh) "default") as [[? d]|]; [|done].
    injection Hinit as <-. simpl. rewrite lookup_insert_ne; [done|]. congruence.
Qed.

Lemma section_ic_in_section (b : BrowserPc) (ic : loc) :
  section_ic b = Some ic → in_section b = true.
Proof. by destruct b. Qed.

Lemma get_record_elem (st : Store) (n : string) (l : loc) (c : ConfigValue) :
  get_record st n = Some (l, c) → c ∈ records st.
Proof. intros [_ Hc]%get_record_Some. eapply list_elem_of_lookup_2; eassumption. Qed.

(** A step made for another instance leaves the record, the launch count
    and the launch key of the instance alone. *)
Lemma other_instance_step (n : string) (t t' : Task) (sh sh' : Shared) (l : loc)
    (c : ConfigValue) :
  is_open_request t = true → task_name t ≠ n →
  store_wf (store sh) →
  (∀ b ic, browser_pc t = Some b → section_ic b = Some ic →
           config (store sh) !! task_name t = Some ic) →
  task_step Resolve t sh = Some (t', sh') →
  get_record (store sh) n = Some (l, c) →
  get_record (store sh') n = Some (l, c)
  ∧ launch_count n (trace sh') = launch_count n (trace sh)
  ∧ (launch_key n ∈ held sh' ↔ launch_key n ∈ held sh)
  ∧ (next_handle sh ≤ next_handle sh')%nat.
Proof.
  intros Hopen Hne Hwf Hic Hstep Hrec.
  assert (Hkey : launch_key n ≠ launch_key (task_name t))
    by (intros Hk%launch_key_inj; congruence).
  assert (Hloc : ∀ ic, config (store sh) !! task_name t = Some ic → l ≠ ic).
  { intros ic Hm ->. apply get_record_Some in Hrec as [Hl _].
    apply Hne. eapply wf_inj; eassumption. }
  destruct (open_task_step_inv Resolve t t' sh sh' Hopen Hstep) as (_ & _ & Hcases).
  destruct Hcases as [(b & b' & Hb & _ & Hbs & _)|[(_ & _ & -> & _)|
    (_ & _ & Hnone & st & Hinit & ->)]]; [|done|].
  - apply browser_step_resolve_inv in Hbs
      as [(-> & Hfree & Henter)|[(ic & c0 & -> & Hc0 & -> & ->)|(ic & Hsec & -> & ->)]].
    + apply browser_enter_inv in Henter
        as [(-> & -> & _)|[(? & ? & ? & _ & _ & _ & ->)|
            (ic & c1 & ev & _ & _ & _ & _ & Hev & ->)]]; simpl.
      * rewrite launch_count_snoc. simpl. split; [done|]. split; [lia|done].
      * done.
      * rewrite launch_count_snoc, Hev, bool_decide_eq_false_2 by congruence.
        split; [done|]. split; [lia|]. split; [set_solver|done].
    + simpl. rewrite launch_count_snoc. simpl.
      split; [|split; [lia|split; [done|lia]]].
      rewrite (get_record_alter _ ic _ n l c Hrec).
      rewrite decide_False; [done|]. by apply Hloc, (Hic (BLaunch ic)).
    + simpl. split; [|split; [done|split; [set_solver|lia]]].
      rewrite (get_record_alter _ ic _ n l c Hrec).
      rewrite decide_False; [done|]. by apply Hloc, (Hic b).
  - simpl. split; [|done]. unfold fastPage.init in Hinit. simpl in Hinit.
    destruct (get_record (store sh) "default") as [[? d]|]; [|done].
    injection Hinit as <-. by apply get_record_bind_copy.
Qed.

(** A step made for the instance itself keeps the launch state right. *)
Lemma same_instance_step (n : string) (k : nat) (t t' : Task) (sh sh' : Shared)
    (l : loc) (c : ConfigValue) :
  is_open_request t = true → task_name t = n →
  store_wf (store sh) →
  (∀ b ic, browser_pc t = Some b → section_ic b = Some ic →
           config (store sh) !! task_name t = Some ic) →
  (∀ k, k ∈ task_keys t → k ∈ held sh) →
  task_step Resolve t sh = Some (t', sh') →
  get_record (store sh) n = Some (l, c) →
  launch_state_ok n k c sh →
  ∃ c', get_record (store sh') n = Some (l, c')
      ∧ launch_state_ok n k c' sh'
      ∧ rejected t' = false
      ∧ (∀ h, received t' = Some h → browserHandle c' = Some h)
      ∧ (∀ h, browserHandle c = Some h → browserHandle c' = Some h)
      ∧ (∀ h, browserHandle c' = Some h →
              browserHandle c = Some h ∨ (next_handle sh ≤ h)%nat)
      ∧ (next_handle sh ≤ next_handle sh')%nat.
Proof.
  intros Hopen Hname Hwf Hic Hkeys Hstep Hrec Hok.
  pose proof Hrec as [Hl Hc]%get_record_Some.
  destruct (open_task_step_inv Resolve t t' sh sh' Hopen Hstep) as (_ & _ & Hcases).
  rewrite Hname in Hcases.
  destruct Hcases as [(b & b' & Hb & Hb' & Hbs & Htk & Hrcv)|[(_ & Hb' & -> & _)|
    (_ & _ & Hnone & _)]]; [| |congruence].
  - assert (Hsame : ∀ ic, section_ic b = Some ic → ic = l ∧ launch_key n ∈ held sh).
    { intros ic Hsec. split.
      - specialize (Hic b ic Hb Hsec). rewrite Hname in Hic. congruence.
      - apply Hkeys. rewrite Htk. unfold browser_keys.
        rewrite (section_ic_in_section b ic Hsec). set_solver. }
    apply browser_step_resolve_inv in Hbs
      as [(-> & Hfree & Henter)|[(ic & c0 & -> & Hc0 & -> & ->)|(ic & Hsec & -> & ->)]].
    + apply browser_enter_inv in Henter
        as [(-> & -> & [Hnone|(ic & c1 & Hrec1 & Harr)])|
            [(ic & c1 & h & Hrec1 & Hh & -> & ->)|
             (ic & c1 & ev & Hrec1 & Hh & Hsec & Hin & Hev & ->)]].
      * congruence.
      * exfalso. rewrite Hrec in Hrec1. injection Hrec1 as <- <-.
        apply get_record_elem in Hrec. apply (wf_args _ Hwf) in Hrec.
        apply lookup_lt_is_Some_2 in Hrec as [a Ha]. congruence.
      * rewrite Hrec in Hrec1. injection Hrec1 as <- <-.
        exists c. split; [done|]. split; [done|].
        unfold rejected. rewrite Hb'. split; [done|]. split; [|auto].
        intros h'. rewrite Hrcv. congruence.
      * rewrite Hrec in Hrec1. injection Hrec1 as <- <-.
        exists c. split; [done|]. split; [|split; [|split; [|auto]]].
        -- unfold launch_state_ok in *. rewrite Hh in *. simpl.
           rewrite launch_count_snoc, Hev, bool_decide_eq_true_2 by done.
           rewrite decide_False in Hok by done. rewrite decide_True by set_solver. lia.
        -- unfold rejected. rewrite Hb'. by destruct b'.
        -- intros h'. rewrite Hrcv. by destruct b'.
    + destruct (Hsame ic eq_refl) as [-> Hheld].
      exists (set_nonPersistantBrowserHandle (Some (next_handle sh)) c).
      split; [|split; [|split; [|split; [|split; [|split]]]]].
      * simpl. rewrite (get_record_alter _ l _ n l c Hrec).
        by rewrite decide_True.
      * unfold launch_state_ok in *. simpl.
        rewrite launch_count_snoc. simpl. rewrite Nat.add_0_r. exact Hok.
      * unfold rejected. by rewrite Hb'.
      * intros h'. by rewrite Hrcv.
      * done.
      * intros h'. simpl. auto.
      * simpl. lia.
    + destruct (Hsame ic Hsec) as [-> Hheld].
      exists (set_browserHandle (Some (next_handle sh)) c).
      assert (Hcount : launch_count n (trace sh) = S k).
      { unfold launch_state_ok in Hok. destruct (browserHandle c).
        - by destruct Hok.
        - rewrite decide_True in Hok by done. lia. }
      assert (Hnone : browserHandle c = None).
      { unfold launch_state_ok in Hok. destruct (browserHandle c); [|done].
        by destruct Hok. }
      split; [|split; [|split; [|split; [|split; [|split]]]]].
      * simpl. rewrite (get_record_alter _ l _ n l c Hrec).
        by rewrite decide_True.
      * unfold launch_state_ok. simpl. split; [done|]. set_solver.
      * unfold rejected. by rewrite Hb'.
      * intros h'. rewrite Hrcv. simpl. congruence.
      * intros h'. congruence.
      * intros h'. simpl. intros [= <-]. by right.
      * simpl. lia.
  - exists c. split; [done|]. split; [done|].
    unfold rejected. rewrite Hb'. split; [done|]. split; [|auto].
    intros h Hr. apply received_browser_pc in Hr; [congruence|].
    by destruct (open_task_step_inv Resolve t t' sh sh Hopen Hstep) as (_ & ? & _).
Qed.

(** ** Progress of the requests *)

Lemma browser_step_weight (n : string) (r : Response) (b b' : BrowserPc)
    (sh sh' : Shared) :
  browser_step n r b sh = Some (b', sh') → (browser_weight b' < browser_weight b)%nat.
Proof.
  intros Hstep. destruct b as [|ic|ic|ic h| |]; simpl in Hstep; try done.
  - destruct (decide (launch_key n ∈ held sh)); [done|]. injection Hstep as Hstep.
    unfold browser_enter, launch_failed in Hstep.
    destruct (get_record (store sh) n) as [[ic c]|]; [|injection Hstep as <- _; simpl; lia].
    destruct (browserHandle c); [injection Hstep as <- _; simpl; lia|].
    destruct (arg_arrays (store sh) !! args c); [|injection Hstep as <- _; simpl; lia].
    destruct (truthy (userDataDir c)); injection Hstep as <- _; simpl; lia.
  - destruct r; injection Hstep as <- _; simpl; lia.
  - destruct r.
    + destruct (records (store sh) !! ic); [|done]. injection Hstep as <- _; simpl; lia.
    + injection Hstep as <- _; simpl; lia.
  - destruct r; injection Hstep as <- _; simpl; lia.
Qed.

(** Every step brings the task that makes it closer to its end. *)
Lemma task_step_weight (r : Response) (t t' : Task) (sh sh' : Shared) :
  task_step r t sh = Some (t', sh') → (task_weight t' < task_weight t)%nat.
Proof.
  intros Hstep. destruct t as [n b|n p|n b|n c]; simpl in Hstep.
  - destruct (browser_step n r b sh) as [[b' sh'']|] eqn:Hb; [|done].
    injection Hstep as <- _. simpl. eapply browser_step_weight; eassumption.
  - destruct p as [| |b]; simpl in Hstep.
    + destruct (config (store sh) !! n).
      * injection Hstep as <- _. simpl. lia.
      * destruct (fastPage.init n None (store sh)); [|done].
        injection Hstep as <- _. simpl. lia.
    + injection Hstep as <- _. simpl. lia.
    + destruct (browser_step n r b sh) as [[b' sh'']|] eqn:Hb; [|done].
      injection Hstep as <- _. simpl. eapply browser_step_weight; eassumption.
  - destruct (browser_step n r b sh) as [[b' sh'']|] eqn:Hb; [|done].
    injection Hstep as <- _. simpl. eapply browser_step_weight; eassumption.
  - destruct (close_step n r c sh) as [[c' sh'']|] eqn:Hc; [|done].
    injection Hstep as <- _. destruct c as [|b|h|v].
    + simpl in Hc. destruct (decide (close_key n ∈ held sh)); [done|].
      injection Hc as Hc. unfold close_enter, close_failed in Hc.
      destruct (get_record (store sh) n) as [[l c]|]; [|injection Hc as <- _; simpl; lia].
      destruct (nonPersistantBrowserHandle c).
      { apply close_clear_held in Hc as [_ [v ->]]. simpl. lia. }
      destruct (browserHandle c); [injection Hc as <- _; simpl; lia|].
      apply close_clear_held in Hc as [_ [v ->]]. simpl. lia.
    + apply close_step_browser in Hc
        as [(h & -> & -> & _)|[(e & -> & -> & _)|(b'' & _ & Hb & ->)]]; simpl; try lia.
      apply browser_step_weight in Hb. lia.
    + simpl in Hc. destruct r.
      * injection Hc as Hc. apply close_clear_held in Hc as [_ [v ->]]. simpl. lia.
      * injection Hc as <- _. simpl. lia.
    + done.
Qed.

Lemma sum_list_append (l1 l2 : list nat) :
  sum_list (l1 ++ l2) = (sum_list l1 + sum_list l2)%nat.
Proof. induction l1 as [|x l1 IH]; simpl; [done | rewrite IH; lia]. Qed.

Lemma step_at_weight (i : nat) (r : Response) (s s' : System) :
  step_at i r s = Some s' → (weight s' < weight s)%nat.
Proof.
  intros (t & t' & Hi & Hstep & Htasks)%step_at_inv.
  destruct (lookup_middle _ i t t' Hi) as (ts1 & ts2 & Hts & Hts' & _).
  unfold weight. rewrite Htasks, Hts', Hts.
  rewrite !fmap_app, !fmap_cons, !sum_list_append. simpl.
  apply task_step_weight in Hstep. lia.
Qed.

(** The length of a run is bounded by the weight of its first state: no
    run goes on for ever. *)
Lemma run_bounded (sched : list (nat * Response)) (s s' : System) :
  run sched s = Some s' → (length sched + weight s' ≤ weight s)%nat.
Proof.
  revert s. induction sched as [|[i r] sched IH]; intros s Hrun; simpl in Hrun.
  - injection Hrun as <-. simpl. lia.
  - destruct (step_at i r s) as [s1|] eqn:Hs; [|done]. simpl in Hrun.
    apply IH in Hrun. apply step_at_weight in Hs. simpl. lia.
Qed.

Lemma open_inv_step (i : nat) (s s' : System) :
  open_inv s → step_at i Resolve s = Some s' → open_inv s'.
Proof.
  intros [Hwf Hlock Hopen Hic] Hs.
  pose proof Hs as (t & t' & Hi & Hstep & Htasks)%step_at_inv.
  assert (Hin : t ∈ tasks s) by (eapply list_elem_of_lookup_2; eassumption).
  assert (Hopen_t : is_open_request t = true)
    by (rewrite Forall_forall in Hopen; by apply Hopen).
  destruct (open_task_step_inv Resolve t t' _ _ Hopen_t Hstep)
    as (Hname & Hopen' & Hcases).
  assert (Hmono : ∀ m l0, config (store (shared s)) !! m = Some l0 →
                          config (store (shared s')) !! m = Some l0)
    by (intros m l0; apply (open_task_step_config Resolve t t' _ _ m l0 Hopen_t Hstep)).
  assert (Hic_t : ∀ b ic, browser_pc t = Some b → section_ic b = Some ic →
                          config (store (shared s)) !! task_name t = Some ic)
    by (intros b ic; apply (Hic t b ic Hin)).
  assert (Hmem : ∀ u, u ∈ tasks s' → u = t' ∨ u ∈ tasks s)
    by (intros u Hu; rewrite Htasks in Hu; by eapply elem_of_insert_task).
  split.
  - eapply task_step_wf; eassumption.
  - eapply lock_inv_step; eassumption.
  - rewrite Htasks. by apply Forall_insert.
  - intros u b ic Hu Hb Hsec.
    destruct (Hmem u Hu) as [-> | Hu']; [|by apply Hmono, (Hic u b ic)].
    rewrite Hname.
    destruct Hcases as [(b0 & b1 & Hb0 & Hb1 & Hbs & _)|[(_ & Hb1 & _)|(_ & Hb1 & _)]];
      [|rewrite Hb in Hb1; by simplify_eq/= ..].
    rewrite Hb in Hb1. injection Hb1 as <-.
    apply browser_step_resolve_inv in Hbs
      as [(-> & Hfree & Henter)|[(ic0 & c0 & -> & Hc0 & -> & Hsh)|(ic0 & Hsec0 & -> & Hsh)]].
    + apply browser_enter_inv in Henter
        as [(-> & _)|[(? & ? & ? & _ & _ & -> & _)|
            (ic1 & c1 & ev & Hrec1 & _ & Hsec1 & _ & _ & Hsh)]]; try done.
      rewrite Hsec in Hsec1. injection Hsec1 as <-. rewrite Hsh. simpl.
      by apply get_record_Some in Hrec1 as [? _].
    + simpl in Hsec. injection Hsec as <-. apply Hmono. by apply (Hic_t (BLaunch ic0)).
    + done.
Qed.

Lemma launching_keys (t : Task) :
  is_open_request t = true → launching t = false → task_keys t = [].
Proof.
  destruct t as [n b|n [| |b]|n b|n c]; simpl; try done;
    unfold launching, browser_keys; simpl; by intros _ ->.
Qed.

Lemma all_keys_nil (ts : list Task) :
  Forall (λ t, task_keys t = []) ts → all_keys ts = [].
Proof.
  induction 1 as [|t ts Ht _ IH]; [done|].
  unfold all_keys in *. by rewrite bind_cons, Ht, IH.
Qed.

(** While a request is unfinished, some request can take a step. *)
Lemma open_progress (s : System) :
  open_inv s →
  Exists (λ t, finished t = false) (tasks s) →
  ∃ i s', step_at i Resolve s = Some s'.
Proof.
  intros [Hwf Hlock Hopen Hic] Hex. rewrite Forall_forall in Hopen.
  assert (Hstep : ∀ i t, tasks s !! i = Some t →
            is_Some (task_step Resolve t (shared s)) →
            ∃ i s', step_at i Resolve s = Some s').
  { intros i t Hi [[t' sh'] Ht]. exists i. unfold step_at. rewrite Hi. simpl.
    rewrite Ht. simpl. eauto. }
  destruct (decide (Exists (λ t, launching t = true) (tasks s))) as [Hl|Hnl].
  - apply Exists_exists in Hl as (t & Hin & Hl).
    pose proof Hin as (i & Hi)%list_elem_of_lookup_1.
    apply (Hstep i t Hi). specialize (Hopen t Hin).
    assert (Hb : ∃ b, browser_pc t = Some b ∧ in_section b = true
                      ∧ is_Some (browser_step (task_name t) Resolve b (shared s))).
    { unfold launching in Hl. destruct (browser_pc t) as [b|] eqn:Hb; [|done].
      exists b. split; [done|]. split; [done|].
      destruct b as [|ic|ic|ic h| |]; simpl in *; try done; eauto.
      destruct (lookup_lt_is_Some_2 (records (store (shared s))) ic) as [c ->];
        [|simpl; eauto].
      eapply wf_records; [done|]. by apply (Hic t (BLaunch ic) ic). }
    destruct Hb as (b & Hb & _ & [[b' sh'] Hbs]).
    destruct t as [n b0|n [| |b0]|n b0|n c]; simpl in *; try done;
      injection Hb as ->; rewrite Hbs; simpl; eauto.
  - assert (Hfree : held (shared s) = ∅).
    { apply lock_inv_no_keys; [done|]. apply all_keys_nil.
      apply Forall_Exists_neg in Hnl. rewrite Forall_forall in Hnl.
      apply Forall_forall. intros t Ht. apply launching_keys; [by apply Hopen|].
      specialize (Hnl t Ht). by destruct (launching t). }
    apply Exists_exists in Hex as (t & Hin & Hfin).
    pose proof Hin as (i & Hi)%list_elem_of_lookup_1.
    apply (Hstep i t Hi). specialize (Hopen t Hin).
    apply Forall_Exists_neg in Hnl. rewrite Forall_forall in Hnl.
    specialize (Hnl t Hin). unfold launching, finished in *.
    destruct t as [n b|n [| |b]|n b|n c]; simpl in *; try done.
    + destruct b; simpl in *; try done.
      rewrite Hfree, decide_False by set_solver. simpl.
      destruct (browser_enter n (shared s)). eauto.
    + destruct (config (store (shared s)) !! n); [by eexists|].
      destruct (store_wf_init_total (store (shared s)) n None Hwf) as [st Hst].
      rewrite Hst. simpl. by eexists.
    + destruct b; simpl in *; try done.
      rewrite Hfree, decide_False by set_solver. simpl.
      destruct (browser_enter n (shared s)). eauto.
    + destruct b; simpl in *; try done.
      rewrite Hfree, decide_False by set_solver. simpl.
      destruct (browser_enter n (shared s)). eauto.
Qed.

(** With the external library resolving, the requests can always be run to
    their end. *)
Lemma open_requests_complete (s : System) :
  open_inv s →
  ∃ sched s', all_resolve sched ∧ run sched s = Some s'
              ∧ Forall (λ t, finished t = true) (tasks s').
Proof.
  remember (weight s) as w eqn:Hw. revert s Hw.
  induction w as [w IH] using lt_wf_ind. intros s -> Hinv.
  destruct (decide (Exists (λ t, finished t = false) (tasks s))) as [Hex|Hall].
  - destruct (open_progress s Hinv Hex) as (i & s1 & Hs).
    destruct (IH (weight s1) (step_at_weight i Resolve s s1 Hs) s1 eq_refl
                (open_inv_step i s s1 Hinv Hs)) as (sched & s' & Hres & Hrun & Hfin).
    exists ((i, Resolve) :: sched), s'. split; [by constructor|]. split; [|done].
    simpl. by rewrite Hs.
  - exists [], s. split; [constructor|]. split; [done|].
    apply Forall_Exists_neg in Hall. eapply Forall_impl; [exact Hall|].
    intros t Ht. simpl in Ht. by destruct (finished t).
Qed.

Lemma launch_inv_open_inv (n : string) (k : nat) (h0 : Handle) (s : System) :
  launch_inv n k h0 s → open_inv s.
Proof. intros [? ? ? ? _ _ _]. by split. Qed.

(** ** One launch for concurrent requests *)

Lemma launch_inv_step (n : string) (k : nat) (h0 : Handle) (i : nat) (s s' : System) :
  launch_inv n k h0 s → step_at i Resolve s = Some s' → launch_inv n k h0 s'.
Proof.
  intros Hinv Hs.
  destruct (open_inv_step i s s' (launch_inv_open_inv n k h0 s Hinv) Hs)
    as [Hwf' Hlock' Hopen' Hic'].
  destruct Hinv as [Hwf Hlock Hopen Hic Hrej Hnext (l & c & Hrec & Hok & Hfresh & Hrecv)].
  pose proof Hs as (t & t' & Hi & Hstep & Htasks)%step_at_inv.
  assert (Hin : t ∈ tasks s) by (eapply list_elem_of_lookup_2; eassumption).
  assert (Hopen_t : is_open_request t = true)
    by (rewrite Forall_forall in Hopen; by apply Hopen).
  assert (Hkeys : ∀ key, key ∈ task_keys t → key ∈ held (shared s)).
  { intros key Hk. apply (proj2 Hlock). by apply (task_keys_in_all _ i t). }
  assert (Hic_t : ∀ b ic, browser_pc t = Some b → section_ic b = Some ic →
                          config (store (shared s)) !! task_name t = Some ic)
    by (intros b ic; apply (Hic t b ic Hin)).
  assert (Hmem : ∀ u, u ∈ tasks s' → u = t' ∨ u ∈ tasks s)
    by (intros u Hu; rewrite Htasks in Hu; by eapply elem_of_insert_task).
  assert (Hname : task_name t' = task_name t) by (by eapply task_step_name).
  split; try done.
  - intros u Hu Hun. destruct (Hmem u Hu) as [-> | Hu']; [|by apply Hrej].
    rewrite Hname in Hun.
    destruct (same_instance_step n k t t' _ _ l c Hopen_t Hun Hwf Hic_t Hkeys Hstep
                Hrec Hok) as (c' & _ & _ & Hr & _). exact Hr.
  - destruct (decide (task_name t = n)) as [Hn|Hn].
    + destruct (same_instance_step n k t t' _ _ l c Hopen_t Hn Hwf Hic_t Hkeys Hstep
                  Hrec Hok) as (_ & _ & _ & _ & _ & _ & _ & Hle). lia.
    + destruct (other_instance_step n t t' _ _ l c Hopen_t Hn Hwf Hic_t Hstep Hrec)
        as (_ & _ & _ & Hle). lia.
  - destruct (decide (task_name t = n)) as [Hn|Hn].
    + destruct (same_instance_step n k t t' _ _ l c Hopen_t Hn Hwf Hic_t Hkeys Hstep
                  Hrec Hok) as (c' & Hrec' & Hok' & _ & Hr' & Hstable & Hnew & _).
      exists l, c'. split; [done|]. split; [done|]. split.
      * intros h Hh. destruct (Hnew h Hh) as [Hold|Hge]; [by apply Hfresh | lia].
      * intros u h Hu Hun Hr. destruct (Hmem u Hu) as [-> | Hu']; [by apply Hr'|].
        apply Hstable. by eapply Hrecv.
    + destruct (other_instance_step n t t' _ _ l c Hopen_t Hn Hwf Hic_t Hstep Hrec)
        as (Hrec' & Hcount & Hheld & _).
      exists l, c. split; [done|]. split; [|split; [done|]].
      * unfold launch_state_ok in *. rewrite Hcount.
        destruct (browserHandle c).
        -- split; [by destruct Hok|]. rewrite Hheld. by destruct Hok.
        -- rewrite Hok. f_equal. by apply decide_ext.
      * intros u h Hu Hun Hr. destruct (Hmem u Hu) as [-> | Hu']; [congruence|].
        by eapply Hrecv.
Qed.

Lemma launch_inv_init (n : string) (s : System) :
  store_wf (store (shared s)) →
  quiescent s →
  Forall (λ t, is_open_request t = true) (tasks s) →
  (∃ l c, get_record (store (shared s)) n = Some (l, c) ∧ browserHandle c = None) →
  launch_inv n (launch_count n (trace (shared s))) (next_handle (shared s)) s.
Proof.
  intros Hwf Hq Hopen (l & c & Hrec & Hh).
  pose proof Hq as [Hheld Hstart]. rewrite Forall_forall in Hstart.
  split; try done.
  - by apply quiescent_lock_inv.
  - intros t b ic Ht Hb Hsec. specialize (Hstart t Ht).
    destruct t as [m []|m [| |[]]|m []|m []]; simpl in *; by simplify_eq.
  - intros t Ht _. specialize (Hstart t Ht).
    by destruct t as [m []|m [| |[]]|m []|m []].
  - exists l, c. split; [done|]. split; [|split].
    + unfold launch_state_ok. rewrite Hh, Hheld. rewrite decide_False by done. lia.
    + intros h. congruence.
    + intros t h Ht _ Hr. specialize (Hstart t Ht).
      by destruct t as [m []|m [| |[]]|m []|m []].
Qed.

Lemma launch_inv_run (n : string) (k : nat) (h0 : Handle)
    (sched : list (nat * Response)) (s s' : System) :
  all_resolve sched → launch_inv n k h0 s → run sched s = Some s' → launch_inv n k h0 s'.
Proof.
  intros Hres Hinv Hrun.
  apply (run_invariant (launch_inv n k h0) (λ x, x.2 = Resolve)) with sched s; try done.
  intros i r s1 s2 Hr H1 Hs. simpl in Hr. subst r. by eapply launch_inv_step.
Qed.

Lemma finished_received (n : string) (k : nat) (h0 : Handle) (s : System) (t : Task) :
  launch_inv n k h0 s → t ∈ tasks s → task_name t = n → finished t = true →
  ∃ h, received t = Some h.
Proof.
  intros [_ _ Hopen _ Hrej _ _] Ht Hn Hfin. specialize (Hrej t Ht Hn).
  rewrite Forall_forall in Hopen. specialize (Hopen t Ht).
  unfold finished, rejected in *.
  destruct (browser_pc t) as [[| | | |h|e]|] eqn:Hb; try done.
  exists h. by apply received_browser_pc.
Qed.

Lemma received_launched (n : string) (k : nat) (h0 : Handle) (s : System) (t : Task)
    (h : Handle) :
  launch_inv n k h0 s → t ∈ tasks s → task_name t = n → received t = Some h →
  launch_count n (trace (shared s)) = S k ∧ (h0 ≤ h)%nat
  ∧ ∃ l c, get_record (store (shared s)) n = Some (l, c) ∧ browserHandle c = Some h.
Proof.
  intros [_ _ _ _ _ _ (l & c & Hrec & Hok & Hfresh & Hrecv)] Ht Hn Hr.
  specialize (Hrecv t h Ht Hn Hr).
  unfold launch_state_ok in Hok. rewrite Hrecv in Hok. split; [by destruct Hok|].
  split; [by apply Hfresh|]. by exists l, c.
Qed.

(** C1.  Take any number of concurrent [getBrowserHandle], [newPage] and
    [newPage1] requests, issued over a well-formed store while nothing is in
    flight, for an instance that is configured and has no handle.  In every
    run in which the external library resolves its promises: at most one
    launch call is made for the instance; a request that has received a
    handle has received the handle stored for the instance, exactly one
    launch call was made, and the handle was created after the requests were
    issued; all requests of the instance that have received a handle have
    received the same one; a request of the instance that is finished has
    received a handle; and the run can be continued until every request is
    finished, each request of the instance then having received the handle,
    with exactly one launch call made.  And whenever an instance has a
    handle and its key is free, [browser] returns that handle and leaves the
    state as it is: no launch. *)
Theorem C1_single_launch (instanceName : string) (s0 s : System)
    (sched : list (nat * Response)) :
  store_wf (store (shared s0)) →
  quiescent s0 →
  Forall (λ t, is_open_request t = true) (tasks s0) →
  (∃ l c, get_record (store (shared s0)) instanceName = Some (l, c)
          ∧ browserHandle c = None) →
  all_resolve sched →
  run sched s0 = Some s →
  (launch_count instanceName (trace (shared s))
   ≤ S (launch_count instanceName (trace (shared s0))))%nat
  ∧ (∀ t h, t ∈ tasks s → task_name t = instanceName → received t = Some h →
       launch_count instanceName (trace (shared s))
       = S (launch_count instanceName (trace (shared s0)))
       ∧ (next_handle (shared s0) ≤ h)%nat
       ∧ ∃ l c, get_record (store (shared s)) instanceName = Some (l, c)
                ∧ browserHandle c = Some h)
  ∧ (∀ t1 t2 h1 h2, t1 ∈ tasks s → t2 ∈ tasks s →
       task_name t1 = instanceName → task_name t2 = instanceName →
       received t1 = Some h1 → received t2 = Some h2 → h1 = h2)
  ∧ (∀ t, t ∈ tasks s → task_name t = instanceName → finished t = true →
       ∃ h, received t = Some h)
  ∧ (∃ sched' s',
       all_resolve sched' ∧ run sched' s = Some s'
       ∧ Forall (λ t, finished t = true) (tasks s')
       ∧ ∀ t, t ∈ tasks s' → task_name t = instanceName →
           (∃ h, received t = Some h)
           ∧ launch_count instanceName (trace (shared s'))
             = S (launch_count instanceName (trace (shared s0))))
  ∧ (∀ sh l c h r, get_record (store sh) instanceName = Some (l, c) →
       browserHandle c = Some h → launch_key instanceName ∉ held sh →
       browser_step instanceName r BStart sh = Some (BResolved h, sh)).
Proof.
  intros Hwf Hq Hopen Hrec Hres Hrun.
  pose proof (launch_inv_run instanceName _ _ sched s0 s Hres
                (launch_inv_init instanceName s0 Hwf Hq Hopen Hrec) Hrun) as Hinv.
  split; [|split; [|split; [|split; [|split]]]].
  - destruct Hinv as [_ _ _ _ _ _ (l & c & _ & Hok & _)].
    unfold launch_state_ok in Hok. destruct (browserHandle c).
    + destruct Hok as [-> _]. lia.
    + rewrite Hok. case_decide; lia.
  - intros t h Ht Hn Hr. by eapply received_launched.
  - intros t1 t2 h1 h2 Ht1 Ht2 Hn1 Hn2 Hr1 Hr2.
    destruct (received_launched _ _ _ s t1 h1 Hinv Ht1 Hn1 Hr1)
      as (_ & _ & l1 & c1 & Hrec1 & Hh1).
    destruct (received_launched _ _ _ s t2 h2 Hinv Ht2 Hn2 Hr2)
      as (_ & _ & l2 & c2 & Hrec2 & Hh2).
    congruence.
  - intros t Ht Hn Hfin. by eapply finished_received.
  - destruct (open_requests_complete s (launch_inv_open_inv _ _ _ s Hinv))
      as (sched' & s' & Hres' & Hrun' & Hfin).
    exists sched', s'. split; [done|]. split; [done|]. split; [done|].
    pose proof (launch_inv_run instanceName _ _ sched' s s' Hres' Hinv Hrun') as Hinv'.
    intros t Ht Hn. rewrite Forall_forall in Hfin.
    destruct (finished_received _ _ _ s' t Hinv' Ht Hn (Hfin t Ht)) as [h Hr].
    split; [by exists h|].
    by destruct (received_launched _ _ _ s' t h Hinv' Ht Hn Hr) as (? & _).
  - intros sh l0 c0 h r Hrec0 Hh Hfree. simpl.
    rewrite decide_False by done. unfold browser_enter. by rewrite Hrec0, Hh.
Qed.

Lemma C1_witness :
  ∃ s, run [(0%nat, Resolve); (1%nat, Resolve); (0%nat, Resolve); (0%nat, Resolve);
            (1%nat, Resolve); (2%nat, Resolve)] example_three_requests = Some s
     ∧ tasks s = [TGetBrowserHandle "default" (BResolved 1%nat);
                  TNewPage "default" (NPBrowser (BResolved 1%nat));
                  TNewPage1 "default" (BResolved 1%nat)]
     ∧ launch_count "default" (trace (shared s)) = 1%nat.
Proof.
  assert (∃ s, run [(0%nat, Resolve); (1%nat, Resolve); (0%nat, Resolve);
                    (0%nat, Resolve); (1%nat, Resolve); (2%nat, Resolve)]
                 example_three_requests = Some s
             ∧ tasks s = [TGetBrowserHandle "default" (BResolved 1%nat);
                          TNewPage "default" (NPBrowser (BResolved 1%nat));
                          TNewPage1 "default" (BResolved 1%nat)])
    as (s & Hrun & Htasks).
  { eexists. split; vm_compute; reflexivity. }
  exists s. split; [exact Hrun|]. split; [exact Htasks|].
  refine (proj1 (proj1 (proj2
    (C1_single_launch "default" example_three_requests s _
       initial_store_wf _ _ _ _ Hrun))
    (TGetBrowserHandle "default" (BResolved 1%nat)) 1%nat _ eq_refl eq_refl)).
  - split; [reflexivity | repeat constructor].
  - repeat constructor.
  - by exists 0%nat, defaultConfig.
  - repeat constructor.
  - rewrite Htasks. apply list_elem_of_here.
Defined.

(** ** Closing *)

Lemma task_names_step (i : nat) (r : Response) (s s' : System) :
  step_at i r s = Some s' → task_name <$> tasks s' = task_name <$> tasks s.
Proof.
  intros (t & t' & Hi & Hstep & ->)%step_at_inv.
  rewrite list_fmap_insert, (task_step_name r t t' _ _ Hstep).
  apply list_insert_id. by rewrite list_lookup_fmap, Hi.
Qed.

Lemma task_names_run (sched : list (nat * Response)) (s s' : System) :
  run sched s = Some s' → task_name <$> tasks s' = task_name <$> tasks s.
Proof.
  intros Hrun.
  apply (run_invariant (λ s1, task_name <$> tasks s1 = task_name <$> tasks s)
           (λ _, True)) with sched s; [|by apply Forall_true|done|done].
  intros i r s1 s2 _ H1 Hs. by rewrite (task_names_step i r s1 s2 Hs).
Qed.

Lemma close_clear_cleared (n : string) (sh sh' : Shared) :
  close_clear n sh = (CResolved (Some "closed"), sh') →
  handles_cleared n (store sh').
Proof.
  unfold close_clear, close_failed.
  destruct (get_record (store sh) n) as [[l c]|] eqn:Hrec; [|done].
  intros [= <-]. exists l, (set_nonPersistantBrowserHandle None (set_browserHandle None c)).
  split; [|done]. apply get_record_Some in Hrec as [Hl Hc].
  apply get_record_Some. simpl. split; [done|].
  by rewrite !list_lookup_alter_eq, Hc.
Qed.

Lemma close_step_cleared (n : string) (r : Response) (c : ClosePc) (sh sh' : Shared) :
  close_step n r c sh = Some (CResolved (Some "closed"), sh') →
  handles_cleared n (store sh').
Proof.
  intros Hstep. destruct c as [|b|h|v]; [| | |done].
  - simpl in Hstep. destruct (decide (close_key n ∈ held sh)); [done|].
    injection Hstep as Hstep. unfold close_enter, close_failed in Hstep.
    destruct (get_record (store sh) n) as [[l c]|]; [|done].
    destruct (nonPersistantBrowserHandle c).
    { by apply close_clear_cleared in Hstep. }
    destruct (browserHandle c); [done|]. by apply close_clear_cleared in Hstep.
  - apply close_step_browser in Hstep
      as [(h & _ & ? & _)|[(e & _ & ? & _)|(b'' & _ & _ & ?)]]; done.
  - simpl in Hstep. destruct r; [|done].
    injection Hstep as Hstep. by apply close_clear_cleared in Hstep.
Qed.

(** The invariant of one call of [closeBrowser] run alone. *)
Lemma close_alone_step (n : string) (i : nat) (r : Response) (s s' : System) :
  (∃ c, tasks s = [TCloseBrowser n c]
        ∧ store_wf (store (shared s)) ∧ lock_inv s
        ∧ (c = CResolved (Some "closed") → handles_cleared n (store (shared s)))) →
  step_at i r s = Some s' →
  ∃ c', tasks s' = [TCloseBrowser n c']
        ∧ store_wf (store (shared s')) ∧ lock_inv s'
        ∧ (c' = CResolved (Some "closed") → handles_cleared n (store (shared s'))).
Proof.
  intros (c & Hts & Hwf & Hlock & _) Hs.
  pose proof Hs as (t & t' & Hi & Hstep & Htasks)%step_at_inv.
  rewrite Hts in Hi, Htasks. destruct i as [|i]; [|done].
  injection Hi as <-. simpl in Hstep, Htasks.
  destruct (close_step n r c (shared s)) as [[c' sh']|] eqn:Hc; [|done].
  injection Hstep as <- Hsh. exists c'. split; [done|].
  split; [|split].
  - rewrite <- Hsh. eapply close_step_wf; eassumption.
  - eapply lock_inv_step; eassumption.
  - intros ->. rewrite <- Hsh. eapply close_step_cleared; eassumption.
Qed.

Lemma step_single (r : Response) (t t' : Task) (sh sh' : Shared) :
  task_step r t sh = Some (t', sh') →
  step_at 0 r {| shared := sh; tasks := [t] |} = Some {| shared := sh'; tasks := [t'] |}.
Proof. intros H. unfold step_at. simpl. by rewrite H. Qed.

(** With the external library resolving, [closeBrowser] on a configured
    instance resolves with ["closed"]. *)
Lemma close_resolves (n : string) (sh : Shared) :
  store_wf (store sh) → held sh = ∅ →
  is_Some (config (store sh) !! n) →
  ∃ sched s, all_resolve sched
    ∧ run sched {| shared := sh; tasks := [TCloseBrowser n CStart] |} = Some s
    ∧ tasks s = [TCloseBrowser n (CResolved (Some "closed"))].
Proof.
  intros Hwf Hheld [l Hl].
  destruct (store_wf_get_record _ n l Hwf Hl) as [c Hrec].
  assert (Hclear : ∀ sh1, store sh1 = store sh →
            ∃ sh2, close_clear n sh1 = (CResolved (Some "closed"), sh2)).
  { intros sh1 Hst. unfold close_clear. rewrite Hst, Hrec. eauto. }
  assert (Hfree : close_key n ∉ held sh) by (rewrite Hheld; set_solver).
  destruct (nonPersistantBrowserHandle c) as [b|] eqn:Hnp.
  { destruct (Hclear (emit (EvClose b false) sh) eq_refl) as [sh2 Hsh2].
    exists [(0%nat, Resolve)]. eexists. split; [repeat constructor|].
    simpl. rewrite (step_single Resolve _ (TCloseBrowser n (CResolved (Some "closed")))
                      sh sh2); [done|].
    simpl. rewrite decide_False by done.
    unfold close_enter. by rewrite Hrec, Hnp, Hsh2. }
  destruct (browserHandle c) as [h|] eqn:Hh.
  2: { destruct (Hclear sh eq_refl) as [sh2 Hsh2].
       exists [(0%nat, Resolve)]. eexists. split; [repeat constructor|].
       simpl. rewrite (step_single Resolve _ (TCloseBrowser n (CResolved (Some "closed")))
                         sh sh2); [done|].
       simpl. rewrite decide_False by done.
       unfold close_enter. by rewrite Hrec, Hnp, Hh, Hsh2. }
  destruct (Hclear (release (close_key n)
                      (emit (EvClose h true) (acquire (close_key n) sh))) eq_refl)
    as [sh2 Hsh2].
  exists [(0%nat, Resolve); (0%nat, Resolve); (0%nat, Resolve); (0%nat, Resolve)].
  eexists. split; [repeat constructor|].
  pose proof (launch_key_ne_close_key n) as Hne.
  assert (H1 : task_step Resolve (TCloseBrowser n CStart) sh
               = Some (TCloseBrowser n (CBrowser BStart), acquire (close_key n) sh)).
  { simpl. rewrite decide_False by done. unfold close_enter. by rewrite Hrec, Hnp, Hh. }
  assert (H2 : task_step Resolve (TCloseBrowser n (CBrowser BStart))
                 (acquire (close_key n) sh)
               = Some (TCloseBrowser n (CBrowser (BResolved h)),
                       acquire (close_key n) sh)).
  { simpl. rewrite decide_False by (rewrite Hheld; set_solver).
    unfold browser_enter. simpl. by rewrite Hrec, Hh. }
  assert (H4 : task_step Resolve (TCloseBrowser n (CClosing h))
                 (emit (EvClose h true) (acquire (close_key n) sh))
               = Some (TCloseBrowser n (CResolved (Some "closed")), sh2)).
  { simpl. by rewrite Hsh2. }
  cbn [run]. rewrite (step_single _ _ _ _ _ H1). cbn [mbind option_bind run].
  rewrite (step_single _ _ _ _ _ H2). cbn [mbind option_bind run].
  rewrite (step_single Resolve (TCloseBrowser n (CBrowser (BResolved h)))
             (TCloseBrowser n (CClosing h)) _
             (emit (EvClose h true) (acquire (close_key n) sh)) eq_refl).
  cbn [mbind option_bind run]. rewrite (step_single _ _ _ _ _ H4). done.
Qed.

Lemma browser_step_config (n : string) (r : Response) (b b' : BrowserPc)
    (sh sh' : Shared) :
  browser_step n r b sh = Some (b', sh') → config (store sh') = config (store sh).
Proof.
  intros Hstep. destruct b as [|ic|ic|ic h| |]; simpl in Hstep; try done.
  - destruct (decide (launch_key n ∈ held sh)); [done|]. injection Hstep as Hstep.
    apply browser_enter_inv in Hstep
      as [(_ & -> & _)|[(? & ? & ? & _ & _ & _ & ->)|(? & ? & ? & _ & _ & _ & _ & _ & ->)]];
      done.
  - destruct r; by injection Hstep as _ <-.
  - destruct r.
    + destruct (records (store sh) !! ic); [|done]. by injection Hstep as _ <-.
    + by injection Hstep as _ <-.
  - destruct r; by injection Hstep as _ <-.
Qed.

Lemma close_clear_config (n : string) (sh sh' : Shared) (c' : ClosePc) :
  close_clear n sh = (c', sh') → config (store sh') = config (store sh).
Proof.
  unfold close_clear, close_failed.
  destruct (get_record (store sh) n) as [[l c]|]; by intros [= _ <-].
Qed.

Lemma close_step_config (n : string) (r : Response) (c c' : ClosePc) (sh sh' : Shared) :
  close_step n r c sh = Some (c', sh') → config (store sh') = config (store sh).
Proof.
  intros Hstep. destruct c as [|b|h|v]; [| | |done].
  - simpl in Hstep. destruct (decide (close_key n ∈ held sh)); [done|].
    injection Hstep as Hstep. unfold close_enter, close_failed in Hstep.
    destruct (get_record (store sh) n) as [[l c]|]; [|by injection Hstep as _ <-].
    destruct (nonPersistantBrowserHandle c).
    { by apply close_clear_config in Hstep. }
    destruct (browserHandle c); [by injection Hstep as _ <-|].
    by apply close_clear_config in Hstep.
  - apply close_step_browser in Hstep
      as [(h & _ & _ & ->)|[(e & _ & _ & ->)|(b'' & _ & Hb & _)]]; try done.
    by apply browser_step_config in Hb.
  - simpl in Hstep. destruct r.
    + injection Hstep as Hstep. by apply close_clear_config in Hstep.
    + by injection Hstep as _ <-.
Qed.

(** With the external library resolving, a call of [closeBrowser] on a
    configured instance, run alone, catches no failure. *)
Lemma close_alone_resolve_step (n : string) (i : nat) (s s' : System) :
  (∃ c, tasks s = [TCloseBrowser n c]
        ∧ store_wf (store (shared s)) ∧ is_Some (config (store (shared s)) !! n)
        ∧ (∀ v, c = CResolved v → v = Some "closed")
        ∧ ∀ e, c ≠ CBrowser (BRejected e)) →
  step_at i Resolve s = Some s' →
  ∃ c', tasks s' = [TCloseBrowser n c']
        ∧ store_wf (store (shared s')) ∧ is_Some (config (store (shared s')) !! n)
        ∧ (∀ v, c' = CResolved v → v = Some "closed")
        ∧ ∀ e, c' ≠ CBrowser (BRejected e).
Proof.
  intros (c & Hts & Hwf & [l Hl] & Hnot & Hnrej) Hs.
  pose proof Hs as (t & t' & Hi & Hstep & Htasks)%step_at_inv.
  rewrite Hts in Hi, Htasks. destruct i as [|i]; [|done].
  injection Hi as <-. simpl in Hstep, Htasks.
  destruct (close_step n Resolve c (shared s)) as [[c' sh']|] eqn:Hc; [|done].
  injection Hstep as <- Hsh. exists c'. split; [done|]. rewrite <- Hsh.
  split; [eapply close_step_wf; eassumption|].
  split; [rewrite (close_step_config _ _ _ _ _ _ Hc); by exists l|].
  destruct (store_wf_get_record _ n l Hwf Hl) as [c0 Hrec].
  assert (Hclear : ∀ sh1 c1 sh2, store sh1 = store (shared s) →
            close_clear n sh1 = (c1, sh2) → c1 = CResolved (Some "closed")).
  { intros sh1 c1 sh2 Hst. unfold close_clear. rewrite Hst, Hrec. by intros [= <- _]. }
  assert (Hgood : c' = CResolved (Some "closed") →
            (∀ v, c' = CResolved v → v = Some "closed")
            ∧ ∀ e, c' ≠ CBrowser (BRejected e)).
  { intros ->. split; [by intros v [= <-] | done]. }
  destruct c as [|b|h|v]; [| | |done].
  - simpl in Hc. destruct (decide (close_key n ∈ held (shared s))); [done|].
    injection Hc as Hc. unfold close_enter in Hc. rewrite Hrec in Hc.
    destruct (nonPersistantBrowserHandle c0).
    { apply Hclear in Hc; [by apply Hgood|done]. }
    destruct (browserHandle c0); [by injection Hc as <- _|].
    apply Hclear in Hc; [by apply Hgood|done].
  - apply close_step_browser in Hc
      as [(h & -> & -> & _)|[(e & -> & _)|(b'' & _ & Hb & ->)]]; [done| |].
    { by destruct (Hnrej e). }
    split; [done|]. intros e [= ->].
    apply browser_step_resolve_inv in Hb
      as [(-> & _ & Henter)|[(? & ? & _ & _ & ? & _)|(? & _ & ? & _)]]; [|done..].
    apply browser_enter_inv in Henter
      as [(_ & _ & [Hnone|(ic & c1 & Hrec1 & Harr)])|
          [(? & ? & ? & _ & _ & ? & _)|(? & ? & ? & _ & _ & ? & _)]]; try done.
    + congruence.
    + apply get_record_elem in Hrec1. apply (wf_args _ Hwf) in Hrec1.
      apply lookup_lt_is_Some_2 in Hrec1 as [a Ha]. congruence.
  - simpl in Hc. injection Hc as Hc. apply Hclear in Hc; [by apply Hgood|done].
Qed.

Lemma close_alone_resolves_closed (n : string) (sh : Shared)
    (sched : list (nat * Response)) (s : System) (v : option string) :
  store_wf (store sh) → is_Some (config (store sh) !! n) →
  all_resolve sched →
  run sched {| shared := sh; tasks := [TCloseBrowser n CStart] |} = Some s →
  tasks s = [TCloseBrowser n (CResolved v)] →
  v = Some "closed".
Proof.
  intros Hwf Hcfg Hres Hrun Hts.
  assert (Hinv : ∃ c, tasks s = [TCloseBrowser n c]
                  ∧ store_wf (store (shared s))
                  ∧ is_Some (config (store (shared s)) !! n)
                  ∧ (∀ v, c = CResolved v → v = Some "closed")
                  ∧ ∀ e, c ≠ CBrowser (BRejected e)).
  { apply (run_invariant
             (λ s1, ∃ c, tasks s1 = [TCloseBrowser n c]
                ∧ store_wf (store (shared s1))
                ∧ is_Some (config (store (shared s1)) !! n)
                ∧ (∀ v, c = CResolved v → v = Some "closed")
                ∧ ∀ e, c ≠ CBrowser (BRejected e))
             (λ x, x.2 = Resolve)) with sched
      {| shared := sh; tasks := [TCloseBrowser n CStart] |}; try done.
    - intros i r s1 s2 Hr H1 Hs. simpl in Hr. subst r.
      by eapply close_alone_resolve_step.
    - exists CStart. split; [done|]. split; [done|]. split; [done|]. by split. }
  destruct Hinv as (c & Hc & _ & _ & Hval & _).
  rewrite Hts in Hc. injection Hc as <-. by apply Hval.
Qed.

(** C3 (as the code has it).  Run one call of [closeBrowser] alone, over a
    well-formed store with nothing in flight, until it has resolved.  With
    the external library resolving and the instance configured, it has
    resolved with ["closed"].  If it has resolved with ["closed"], both
    handle fields of the instance are cleared and no key is held; a
    page-open or handle request run alone afterwards, with the external
    library resolving, that has received a handle has made exactly one launch
    call and has received a handle created after [closeBrowser] resolved,
    and such a request can be run to the point where it has received a
    handle.  With the external library resolving, [closeBrowser] on a
    configured instance does resolve. *)
Theorem C3_closed_then_relaunch (instanceName : string) (sh : Shared) :
  store_wf (store sh) → held sh = ∅ →
  (∀ sched s v,
     run sched {| shared := sh; tasks := [TCloseBrowser instanceName CStart] |} = Some s →
     tasks s = [TCloseBrowser instanceName (CResolved v)] →
     (all_resolve sched → is_Some (config (store sh) !! instanceName) →
      v = Some "closed")
     ∧ (v = Some "closed" →
        handles_cleared instanceName (store (shared s))
        ∧ held (shared s) = ∅
        ∧ (∀ t sched' s' t' h,
             is_open_request t = true → not_started t = true →
             task_name t = instanceName → all_resolve sched' →
             run sched' {| shared := shared s; tasks := [t] |} = Some s' →
             tasks s' = [t'] → received t' = Some h →
             launch_count instanceName (trace (shared s'))
             = S (launch_count instanceName (trace (shared s)))
             ∧ (next_handle (shared s) ≤ h)%nat)
        ∧ (∀ t, is_open_request t = true → not_started t = true →
             task_name t = instanceName →
             ∃ sched' s' t' h,
               all_resolve sched'
               ∧ run sched' {| shared := shared s; tasks := [t] |} = Some s'
               ∧ tasks s' = [t'] ∧ received t' = Some h)))
  ∧ (is_Some (config (store sh) !! instanceName) →
     ∃ sched s, all_resolve sched
       ∧ run sched {| shared := sh; tasks := [TCloseBrowser instanceName CStart] |}
         = Some s
       ∧ tasks s = [TCloseBrowser instanceName (CResolved (Some "closed"))]).
Proof.
  intros Hwf Hheld. split; [|by apply close_resolves].
  intros sched s v Hrun Hts.
  split; [intros Hres Hcfg; by eapply close_alone_resolves_closed|].
  intros ->.
  assert (Hinv : ∃ c, tasks s = [TCloseBrowser instanceName c]
                  ∧ store_wf (store (shared s)) ∧ lock_inv s
                  ∧ (c = CResolved (Some "closed") →
                     handles_cleared instanceName (store (shared s)))).
  { apply (run_invariant _ (λ _, True)
             (λ i r s1 s2 _ H Hs, close_alone_step instanceName i r s1 s2 H Hs)
             sched {| shared := sh; tasks := [TCloseBrowser instanceName CStart] |} s);
      [by apply Forall_true| |done].
    exists CStart. split; [done|]. split; [done|]. split; [|done].
    apply quiescent_lock_inv. split; [done|]. by repeat constructor. }
  destruct Hinv as (c & Hc & Hwf' & Hlock & Hcl).
  rewrite Hts in Hc. injection Hc as <-. specialize (Hcl eq_refl).
  assert (Hfree : held (shared s) = ∅).
  { apply lock_inv_no_keys; [done|]. by rewrite Hts. }
  split; [done|]. split; [done|].
  destruct Hcl as (l & c & Hrec & Hh & _).
  assert (Hinit : ∀ t, is_open_request t = true → not_started t = true →
            launch_inv instanceName (launch_count instanceName (trace (shared s)))
              (next_handle (shared s)) {| shared := shared s; tasks := [t] |}).
  { intros t Hopen Hstart.
    apply (launch_inv_init instanceName {| shared := shared s; tasks := [t] |} Hwf').
    - split; [done|]. by repeat constructor.
    - by repeat constructor.
    - by exists l, c. }
  assert (Hone : ∀ t sched' s', task_name t = instanceName →
            run sched' {| shared := shared s; tasks := [t] |} = Some s' →
            ∃ t', tasks s' = [t'] ∧ task_name t' = instanceName).
  { intros t sched' s' Hname Hrun'.
    pose proof (task_names_run sched' _ s' Hrun') as Hnames. simpl in Hnames.
    destruct (tasks s') as [|t' [|? ?]]; try done.
    exists t'. split; [done|]. simpl in Hnames. congruence. }
  split.
  - intros t sched' s' t' h Hopen Hstart Hname Hres Hrun' Hts' Hr.
    pose proof (launch_inv_run instanceName _ _ sched' _ s' Hres
                  (Hinit t Hopen Hstart) Hrun') as Hinv'.
    destruct (Hone t sched' s' Hname Hrun') as (t'' & Hts'' & Hn').
    rewrite Hts' in Hts''. injection Hts'' as <-.
    destruct (received_launched _ _ _ s' t' h Hinv') as (Hcount & Hge & _); try done.
    rewrite Hts'. apply list_elem_of_here.
  - intros t Hopen Hstart Hname.
    destruct (open_requests_complete _ (launch_inv_open_inv _ _ _ _ (Hinit t Hopen Hstart)))
      as (sched' & s' & Hres' & Hrun' & Hfin).
    pose proof (launch_inv_run instanceName _ _ sched' _ s' Hres'
                  (Hinit t Hopen Hstart) Hrun') as Hinv'.
    destruct (Hone t sched' s' Hname Hrun') as (t' & Hts' & Hn').
    rewrite Hts' in Hfin. apply Forall_cons in Hfin as [Hfin _].
    destruct (finished_received _ _ _ s' t' Hinv') as [h Hr]; try done.
    { rewrite Hts'. apply list_elem_of_here. }
    by exists sched', s', t', h.
Qed.

Lemma example_shared_persistent_launched_wf :
  store_wf (store example_shared_persistent_launched).
Proof.
  assert (Hst : store example_shared_persistent_launched
                = set_records
                    (alter (set_browserHandle (Some 0%nat)
                              ∘ set_userDataDir (Some "/tmp/profile")) 0%nat
                       (records initial_store)) initial_store)
    by (vm_compute; reflexivity).
  rewrite Hst. apply store_wf_alter; [done | apply initial_store_wf].
Qed.

Lemma example_shared_persistent_launched_free :
  held example_shared_persistent_launched = ∅.
Proof. vm_compute. reflexivity. Qed.

Lemma C3_witness :
  ∃ s, run [(0%nat, Resolve); (0%nat, Resolve); (0%nat, Resolve); (0%nat, Resolve)]
         {| shared := example_shared_persistent_launched;
            tasks := [TCloseBrowser "default" CStart] |} = Some s
     ∧ handles_cleared "default" (store (shared s))
     ∧ held (shared s) = ∅.
Proof.
  assert (∃ s, run [(0%nat, Resolve); (0%nat, Resolve); (0%nat, Resolve);
                    (0%nat, Resolve)]
                 {| shared := example_shared_persistent_launched;
                    tasks := [TCloseBrowser "default" CStart] |} = Some s
             ∧ tasks s = [TCloseBrowser "default" (CResolved (Some "closed"))])
    as (s & Hrun & Hts).
  { eexists. split; vm_compute; reflexivity. }
  exists s. split; [exact Hrun|].
  pose proof example_shared_persistent_launched_wf as Hwf.
  destruct (proj2 (proj1 (C3_closed_then_relaunch "default"
                            example_shared_persistent_launched
                            Hwf example_shared_persistent_launched_free)
                     _ s (Some "closed") Hrun Hts) eq_refl) as (Hcl & Hfree & _).
  split; [exact Hcl | exact Hfree].
Defined.

(** C3 fails as stated.  While a launch of the default instance is awaited,
    [closeBrowser] finds no handle and resolves with ["closed"]; the launch
    then stores its handle, and a [newPage] issued after [closeBrowser]
    resolved receives that handle without a launch.  And over a persistent
    profile whose context is open, [closeBrowser] resolves with [undefined]
    when [close()] rejects; the handle is still stored, and the next
    [getBrowserHandle] returns it without a launch. *)
Lemma C3_counterexample :
  ¬ close_then_open_relaunches "default"
  ∧ (run [(0%nat, Resolve)] example_launch_and_close
       ≫= step_at 1%nat Resolve = Some example_closed_during_launch
     ∧ tasks example_closed_during_launch
       = [TGetBrowserHandle "default" (BLaunch 0%nat);
          TCloseBrowser "default" (CResolved (Some "closed"))]
     ∧ run [(0%nat, Resolve); (0%nat, Resolve); (2%nat, Resolve); (2%nat, Resolve)]
         {| shared := shared example_closed_during_launch;
            tasks := tasks example_closed_during_launch
                     ++ [TNewPage "default" NPStart] |}
       = Some example_page_after_close
     ∧ tasks example_page_after_close
       = [TGetBrowserHandle "default" (BResolved 1%nat);
          TCloseBrowser "default" (CResolved (Some "closed"));
          TNewPage "default" (NPBrowser (BResolved 1%nat))]
     ∧ launch_count "default" (trace (shared example_closed_during_launch)) = 1%nat
     ∧ launch_count "default" (trace (shared example_page_after_close)) = 1%nat)
  ∧ (run [(0%nat, Resolve); (0%nat, Resolve); (0%nat, Resolve);
          (0%nat, Reject (LibraryError 1%nat))]
       {| shared := example_shared_persistent_launched;
          tasks := [TCloseBrowser "default" CStart] |} = Some example_close_failed
     ∧ tasks example_close_failed = [TCloseBrowser "default" (CResolved None)]
     ∧ (browserHandle <$> records (store (shared example_close_failed)) !! 0%nat)
       = Some (Some 0%nat)
     ∧ (task_step Resolve (TGetBrowserHandle "default" BStart)
          (shared example_close_failed)
        = Some (TGetBrowserHandle "default" (BResolved 0%nat),
                shared example_close_failed))).
Proof.
  assert (Hfacts :
     run [(0%nat, Resolve)] example_launch_and_close
       ≫= step_at 1%nat Resolve = Some example_closed_during_launch
     ∧ tasks example_closed_during_launch
       = [TGetBrowserHandle "default" (BLaunch 0%nat);
          TCloseBrowser "default" (CResolved (Some "closed"))]
     ∧ run [(0%nat, Resolve); (0%nat, Resolve); (2%nat, Resolve); (2%nat, Resolve)]
         {| shared := shared example_closed_during_launch;
            tasks := tasks example_closed_during_launch
                     ++ [TNewPage "default" NPStart] |}
       = Some example_page_after_close
     ∧ tasks example_page_after_close
       = [TGetBrowserHandle "default" (BResolved 1%nat);
          TCloseBrowser "default" (CResolved (Some "closed"));
          TNewPage "default" (NPBrowser (BResolved 1%nat))]
     ∧ launch_count "default" (trace (shared example_closed_during_launch)) = 1%nat
     ∧ launch_count "default" (trace (shared example_page_after_close)) = 1%nat).
  { by_evaluation. }
  split; [|split; [exact Hfacts|]].
  - intros H. destruct Hfacts as (Hstep & Hts & Hrun' & Hts' & Hc & Hc').
    destruct (run [(0%nat, Resolve)] example_launch_and_close) as [s1|] eqn:Hrun;
      [|discriminate Hstep].
    simpl in Hstep.
    assert (Hq : quiescent example_launch_and_close)
      by (split; [reflexivity | repeat constructor]).
    assert (Hres : tasks example_closed_during_launch !! 1%nat
                   = Some (TCloseBrowser "default" (CResolved (Some "closed"))))
      by (by rewrite Hts).
    destruct (H example_launch_and_close [(0%nat, Resolve)] s1 1%nat Resolve
                example_closed_during_launch
                (Some "closed") initial_store_wf Hq Hrun Hstep Hres)
      as (_ & _ & Hnext).
    assert (Hall : all_resolve [(0%nat, Resolve); (0%nat, Resolve); (2%nat, Resolve);
                                (2%nat, Resolve)]) by repeat constructor.
    assert (Hlook : tasks example_page_after_close
                      !! length (tasks example_closed_during_launch)
                    = Some (TNewPage "default" (NPBrowser (BResolved 1%nat))))
      by (by rewrite Hts, Hts').
    pose proof (Hnext (TNewPage "default" NPStart) _ example_page_after_close _ 1%nat
                  eq_refl eq_refl eq_refl Hall Hrun' Hlook eq_refl) as Habs.
    rewrite Hc', Hc in Habs. discriminate Habs.
  - by_evaluation.
Qed.


(** ** The [close()] that is not awaited *)

Lemma logged_errors_snoc (tr : list Event) (ev : Event) :
  logged_errors (tr ++ [ev]) = logged_errors tr ++ logged_errors [ev].
Proof. unfold logged_errors. by rewrite omap_app. Qed.

Lemma unhandled_rejections_snoc (outcome : Handle → Response) (tr : list Event)
    (ev : Event) :
  unhandled_rejections outcome (tr ++ [ev])
  = unhandled_rejections outcome tr ++ unhandled_rejections outcome [ev].
Proof. unfold unhandled_rejections. by rewrite omap_app. Qed.

(** C6 (the code diverges).  While an instance has a browser that was
    launched without a profile directory, [closeBrowser] calls [close()]
    on it without [await].  Whatever becomes of that call, [closeBrowser]
    resolves with ["closed"] in the same step, clears both handle fields,
    logs nothing and takes no further step.  So when that [close()]
    rejects, the error is not logged and the rejection is handled nowhere.
    Where [close()] is awaited, on the context of a persistent profile,
    the same rejection is logged by the [.catch] and [closeBrowser]
    resolves with [undefined]. *)
Theorem C6_unawaited_close_failure_not_logged (instanceName : string) (sh : Shared)
    (l : loc) (c : ConfigValue) (b : Handle) (e : Err)
    (outcome : Handle → Response) :
  get_record (store sh) instanceName = Some (l, c) →
  nonPersistantBrowserHandle c = Some b →
  close_key instanceName ∉ held sh →
  outcome b = Reject e →
  (∀ r, ∃ sh',
     task_step r (TCloseBrowser instanceName CStart) sh
       = Some (TCloseBrowser instanceName (CResolved (Some "closed")), sh')
     ∧ trace sh' = trace sh ++ [EvClose b false]
     ∧ logged_errors (trace sh') = logged_errors (trace sh)
     ∧ unhandled_rejections outcome (trace sh')
       = unhandled_rejections outcome (trace sh) ++ [e]
     ∧ handles_cleared instanceName (store sh')
     ∧ held sh' = held sh
     ∧ ∀ r' sh'',
         task_step r' (TCloseBrowser instanceName (CResolved (Some "closed"))) sh''
         = None)
  ∧ (∀ h, ∃ sh',
       task_step (Reject e) (TCloseBrowser instanceName (CClosing h)) sh
         = Some (TCloseBrowser instanceName (CResolved None), sh')
       ∧ logged_errors (trace sh') = logged_errors (trace sh) ++ [e]
       ∧ unhandled_rejections outcome (trace sh')
         = unhandled_rejections outcome (trace sh)).
Proof.
  intros Hrec Hb Hfree Hout. split.
  - intros r.
    destruct (close_clear instanceName (emit (EvClose b false) sh)) as [pc sh']
      eqn:Hclear.
    assert (Hpc : pc = CResolved (Some "closed")
                  ∧ trace sh' = trace sh ++ [EvClose b false]
                  ∧ held sh' = held sh).
    { unfold close_clear in Hclear. simpl in Hclear. rewrite Hrec in Hclear.
      by injection Hclear as <- <-. }
    destruct Hpc as (-> & Htrace & Hheld).
    exists sh'. split.
    { simpl. rewrite decide_False by done. simpl.
      unfold close_enter. by rewrite Hrec, Hb, Hclear. }
    split; [exact Htrace|]. split.
    { rewrite Htrace, logged_errors_snoc. simpl. by rewrite app_nil_r. }
    split.
    { rewrite Htrace, unhandled_rejections_snoc. simpl. by rewrite Hout. }
    split; [by eapply close_clear_cleared|]. split; [exact Hheld|].
    reflexivity.
  - intros h. eexists. split; [reflexivity|]. simpl. split.
    + by rewrite logged_errors_snoc.
    + rewrite unhandled_rejections_snoc. simpl. by rewrite app_nil_r.
Qed.

Lemma C6_witness :
  ∃ sh',
    task_step (Reject (LibraryError 1%nat)) (TCloseBrowser "default" CStart)
      example_shared_launched
    = Some (TCloseBrowser "default" (CResolved (Some "closed")), sh')
    ∧ trace sh' = trace example_shared_launched ++ [EvClose 0%nat false]
    ∧ logged_errors (trace sh') = []
    ∧ unhandled_rejections (λ _, Reject (LibraryError 1%nat)) (trace sh')
      = [LibraryError 1%nat]
    ∧ handles_cleared "default" (store sh').
Proof.
  assert (Hfacts :
    (∃ c, get_record (store example_shared_launched) "default" = Some (0%nat, c)
          ∧ nonPersistantBrowserHandle c = Some 0%nat)
    ∧ held example_shared_launched = ∅
    ∧ logged_errors (trace example_shared_launched) = []
    ∧ unhandled_rejections (λ _, Reject (LibraryError 1%nat))
        (trace example_shared_launched) = []).
  { split; [eexists; split; vm_compute; reflexivity|]. by_evaluation. }
  destruct Hfacts as ((c & Hrec & Hb) & Hheld & Hlog & Hun).
  assert (Hfree : close_key "default" ∉ held example_shared_launched)
    by (rewrite Hheld; set_solver).
  destruct (proj1 (C6_unawaited_close_failure_not_logged "default"
                     example_shared_launched 0%nat c 0%nat (LibraryError 1%nat)
                     (λ _, Reject (LibraryError 1%nat)) Hrec Hb Hfree eq_refl)
              (Reject (LibraryError 1%nat)))
    as (sh' & Hstep & Htrace & Hlog' & Hun' & Hcl & _).
  exists sh'. rewrite Hlog in Hlog'. rewrite Hun in Hun'.
  exact (conj Hstep (conj Htrace (conj Hlog' (conj Hun' Hcl)))).
Defined.

(** * Further properties *)

(** ** The arrays behind [args] and [hooks] *)

Lemma arrays_shared_alter (st : Store) (l : loc) (f : ConfigValue → ConfigValue) :
  (∀ c, args (f c) = args c ∧ hooks (f c) = hooks c) →
  arrays_shared st → arrays_shared (set_records (alter f l (records st)) st).
Proof.
  intros Hf Hsh c Hc. simpl in Hc.
  apply list_elem_of_lookup_1 in Hc as [i Hi].
  destruct (decide (i = l)) as [->|Hne].
  - rewrite list_lookup_alter_eq in Hi.
    destruct (records st !! l) as [c0|] eqn:Hc0; [|done].
    injection Hi as <-. destruct (Hf c0) as [-> ->].
    apply Hsh. by eapply list_elem_of_lookup_2.
  - rewrite list_lookup_alter_ne in Hi by done.
    apply Hsh. by eapply list_elem_of_lookup_2.
Qed.

(** A property of stores that the two handle assignments keep, and [init]
    of a name without a record, is kept by every step of every call. *)
Section StoreInduction.

Variable P : Store → Prop.

Hypothesis P_browserHandle : ∀ st l v,
  P st → P (set_records (alter (set_browserHandle v) l (records st)) st).
Hypothesis P_nonPersistantBrowserHandle : ∀ st l v,
  P st → P (set_records (alter (set_nonPersistantBrowserHandle v) l (records st)) st).
Hypothesis P_init : ∀ st st' n,
  P st → config st !! n = None → fastPage.init n None st = Some st' → P st'.

Lemma browser_step_store_ind (n : string) (r : Response) (b b' : BrowserPc)
    (sh sh' : Shared) :
  browser_step n r b sh = Some (b', sh') → P (store sh) → P (store sh').
Proof.
  intros Hstep HP. destruct b as [|ic|ic|ic h| |]; simpl in Hstep; try done.
  - destruct (decide (launch_key n ∈ held sh)); [done|]. injection Hstep as Hstep.
    unfold browser_enter, launch_failed in Hstep.
    destruct (get_record (store sh) n) as [[ic c]|]; [|by injection Hstep as <- <-].
    destruct (browserHandle c); [by injection Hstep as <- <-|].
    destruct (arg_arrays (store sh) !! args c); [|by injection Hstep as <- <-].
    destruct (truthy (userDataDir c)); by injection Hstep as <- <-.
  - destruct r; injection Hstep as <- <-; simpl; [|done]. by apply P_browserHandle.
  - destruct r.
    + destruct (records (store sh) !! ic); [|done]. injection Hstep as <- <-. simpl.
      by apply P_nonPersistantBrowserHandle.
    + by injection Hstep as <- <-.
  - destruct r; injection Hstep as <- <-; simpl; [|done]. by apply P_browserHandle.
Qed.

Lemma close_clear_store_ind (n : string) (sh sh' : Shared) (c' : ClosePc) :
  close_clear n sh = (c', sh') → P (store sh) → P (store sh').
Proof.
  unfold close_clear, close_failed.
  destruct (get_record (store sh) n) as [[l c]|]; intros [= <- <-] HP; [|done].
  exact (P_nonPersistantBrowserHandle _ l None (P_browserHandle _ l None HP)).
Qed.

Lemma close_step_store_ind (n : string) (r : Response) (c c' : ClosePc)
    (sh sh' : Shared) :
  close_step n r c sh = Some (c', sh') → P (store sh) → P (store sh').
Proof.
  intros Hstep HP. destruct c as [|b|h|v].
  - simpl in Hstep.
    destruct (decide (close_key n ∈ held sh)); [done|]. injection Hstep as Hstep.
    unfold close_enter, close_failed in Hstep.
    destruct (get_record (store sh) n) as [[l c]|]; [|by injection Hstep as <- <-].
    destruct (nonPersistantBrowserHandle c).
    { by apply close_clear_store_ind in Hstep. }
    destruct (browserHandle c); [by injection Hstep as <- <-|].
    by apply close_clear_store_ind in Hstep.
  - apply close_step_browser in Hstep
      as [(h & -> & -> & ->)|[(e & -> & -> & ->)|(b'' & _ & Hb & ->)]]; try done.
    eapply browser_step_store_ind; eassumption.
  - simpl in Hstep. destruct r.
    + injection Hstep as Hstep. by apply close_clear_store_ind in Hstep.
    + unfold close_failed in Hstep. by simplify_eq/=.
  - done.
Qed.

Lemma task_step_store_ind (r : Response) (t t' : Task) (sh sh' : Shared) :
  task_step r t sh = Some (t', sh') → P (store sh) → P (store sh').
Proof.
  intros Hstep HP. destruct t as [n b|n p|n b|n c]; simpl in Hstep.
  - destruct (browser_step n r b sh) as [[b' sh'']|] eqn:Hb; [|done].
    injection Hstep as <- <-. eapply browser_step_store_ind; eassumption.
  - destruct p as [| |b]; simpl in Hstep.
    + destruct (config (store sh) !! n) eqn:Hn.
      * by injection Hstep as <- <-.
      * destruct (fastPage.init n None (store sh)) as [st|] eqn:Hi; [|done].
        injection Hstep as <- <-. simpl. eapply P_init; eassumption.
    + by injection Hstep as <- <-.
    + destruct (browser_step n r b sh) as [[b' sh'']|] eqn:Hb; [|done].
      injection Hstep as <- <-. eapply browser_step_store_ind; eassumption.
  - destruct (browser_step n r b sh) as [[b' sh'']|] eqn:Hb; [|done].
    injection Hstep as <- <-. eapply browser_step_store_ind; eassumption.
  - destruct (close_step n r c sh) as [[c' sh'']|] eqn:Hc; [|done].
    injection Hstep as <- <-. eapply close_step_store_ind; eassumption.
Qed.

End StoreInduction.

Lemma store_inv_initial : store_inv initial_store.
Proof.
  split; [apply initial_store_wf|]. split; [|done].
  by intros c ->%list_elem_of_singleton.
Qed.

Lemma store_inv_alter (st : Store) (l : loc) (f : ConfigValue → ConfigValue) :
  (∀ c, args (f c) = args c ∧ hooks (f c) = hooks c) →
  store_inv st → store_inv (set_records (alter f l (records st)) st).
Proof.
  intros Hf (Hwf & Hsh & Ha & Hh).
  split; [by apply store_wf_alter|]. split; [by apply arrays_shared_alter|]. done.
Qed.

Lemma store_inv_init (st st' : Store) (n : string) (u : option bool) :
  store_inv st → fastPage.init n u st = Some st' → store_inv st'.
Proof.
  intros (Hwf & Hsh & Ha & Hh) Hinit.
  split; [by eapply store_wf_init|]. revert Hinit. unfold fastPage.init.
  destruct (default true u).
  - destruct (get_record st "default") as [[l d]|] eqn:Hd; [|done].
    simpl. intros [= <-]. split; [|done].
    intros c [Hc | ->%list_elem_of_singleton]%elem_of_app; [by apply Hsh|].
    apply Hsh. apply get_record_Some in Hd as [_ Hd]. by eapply list_elem_of_lookup_2.
  - intros [= <-]. split; [|done].
    intros c [Hc | ->%list_elem_of_singleton]%elem_of_app; [by apply Hsh | done].
Qed.

Lemma list_insert_alter {A} (l : list A) (i : nat) (f : A → A) (x : A) :
  l !! i = Some x → <[i := f x]> l = alter f i l.
Proof.
  intros Hx. apply list_eq. intros j. destruct (decide (j = i)) as [->|Hne].
  - rewrite list_lookup_alter_eq, Hx. simpl.
    apply list_lookup_insert_eq. by eapply lookup_lt_Some.
  - by rewrite list_lookup_insert_ne, list_lookup_alter_ne.
Qed.

Lemma store_inv_assign (st st' : Store) (n : string) (f : ConfigValue → ConfigValue) :
  (∀ c, args (f c) = args c ∧ hooks (f c) = hooks c) →
  store_inv st → assign n f st = Ok st' → store_inv st'.
Proof.
  intros Hf Hinv. unfold assign.
  destruct (get_record st n) as [[l c]|] eqn:Hrec; [|done]. intros [= <-].
  apply get_record_Some in Hrec as [_ Hc].
  rewrite (list_insert_alter _ _ f c Hc). by apply store_inv_alter.
Qed.

Lemma store_inv_setter (st st' : Store) (n : string) (s : Setter) :
  store_inv st → call_setter n s st = Ok st' → store_inv st'.
Proof.
  intros Hinv Hcall. destruct s; simpl in Hcall;
    try (eapply store_inv_assign; [|exact Hinv|exact Hcall]; by intros []).
  - unfold fastPage.addHook in Hcall.
    destruct (get_record st n) as [[l c]|]; [|done].
    destruct (hook_arrays st !! hooks c); [|done]. injection Hcall as <-.
    destruct Hinv as ([Hd Hr Hi Ha Hh [Hz1 Hz2]] & Hsh & Hla & Hlh).
    split; [|split; [done|]; simpl; by rewrite ?length_insert].
    split; simpl; try done; rewrite ?length_insert; done.
  - unfold fastPage.addArg in Hcall.
    destruct (get_record st n) as [[l c]|]; [|done].
    destruct (arg_arrays st !! args c); [|done]. injection Hcall as <-.
    destruct Hinv as ([Hd Hr Hi Ha Hh [Hz1 Hz2]] & Hsh & Hla & Hlh).
    split; [|split; [done|]; simpl; by rewrite ?length_insert].
    split; simpl; try done; rewrite ?length_insert; done.
Qed.

Lemma store_inv_apply_op (o : Op) (st : Store) :
  store_inv st → store_inv (apply_op o st).
Proof.
  intros Hinv. destruct o as [n u|n s]; simpl.
  - destruct (fastPage.init n u st) as [st'|] eqn:Hi; [|done].
    simpl. by eapply store_inv_init.
  - destruct (call_setter n s st) as [st'|] eqn:Hs; [|done].
    by eapply store_inv_setter.
Qed.

Lemma store_inv_task_step (r : Response) (t t' : Task) (sh sh' : Shared) :
  task_step r t sh = Some (t', sh') → store_inv (store sh) → store_inv (store sh').
Proof.
  apply task_step_store_ind.
  - intros st l v. apply store_inv_alter. by intros [].
  - intros st l v. apply store_inv_alter. by intros [].
  - intros st st' n Hst _. by apply store_inv_init.
Qed.

Lemma store_inv_act (a : Action) (s s' : System) :
  act a s = Some s' → store_inv (store (shared s)) → store_inv (store (shared s')).
Proof.
  destruct a as [t|o|i r]; simpl.
  - destruct (not_started t); [|done]. by intros [= <-].
  - intros [= <-]. simpl. apply store_inv_apply_op.
  - intros (t & t' & Hi & Hstep & Htasks)%step_at_inv.
    by eapply store_inv_task_step.
Qed.

Lemma store_inv_session (acts : list Action) (s s' : System) :
  session acts s = Some s' → store_inv (store (shared s)) → store_inv (store (shared s')).
Proof.
  revert s. induction acts as [|a acts IH]; intros s; simpl.
  - by intros [= <-].
  - destruct (act a s) as [s1|] eqn:Ha; [|done]. simpl. intros Hrun Hinv.
    apply (IH s1 Hrun). by eapply store_inv_act.
Qed.


Lemma view_Some (st : Store) (n : string) (v : ConfigView) :
  view st n = Some v ↔
  ∃ l, get_record st n = Some (l, view_record v)
       ∧ arg_arrays st !! args (view_record v) = Some (view_args v)
       ∧ hook_arrays st !! hooks (view_record v) = Some (view_hooks v).
Proof.
  unfold view. destruct (get_record st n) as [[l c]|]; simpl.
  - destruct (arg_arrays st !! args c) as [a|] eqn:Ha; simpl.
    + destruct (hook_arrays st !! hooks c) as [h|] eqn:Hh; simpl.
      * split.
        -- intros [= <-]. by exists l.
        -- intros (l' & [= <- Hc] & Ha' & Hh'). destruct v as [c' a' h']. simpl in *.
           subst. rewrite Ha in Ha'. rewrite Hh in Hh'. by simplify_eq.
      * split; [done|]. intros (l' & [= <- Hc] & _ & Hh'). subst. congruence.
    + split; [done|]. intros (l' & [= <- Hc] & Ha' & _). subst. congruence.
  - split; [done|]. by intros (l' & ? & _).
Qed.

Lemma store_inv_view (st : Store) (n : string) (v : ConfigView) :
  store_inv st → view st n = Some v →
  arg_arrays st !! 0%nat = Some (view_args v)
  ∧ hook_arrays st !! 0%nat = Some (view_hooks v).
Proof.
  intros (_ & Hsh & _) (l & Hrec & Ha & Hh)%view_Some.
  apply get_record_elem in Hrec. destruct (Hsh _ Hrec) as [Ea Eh].
  by rewrite Ea in Ha; rewrite Eh in Hh.
Qed.

Lemma addArg_view (st st' : Store) (m n : string) (arg : string) (vn : ConfigView) :
  store_inv st → fastPage.addArg m arg st = Ok st' → view st n = Some vn →
  view st' n = Some {| view_record := view_record vn;
                       view_args := view_args vn ++ [arg];
                       view_hooks := view_hooks vn |}.
Proof.
  intros Hinv Hadd Hn.
  pose proof (store_inv_view _ n vn Hinv Hn) as [Han Hhn].
  apply view_Some in Hn as (l & Hrec & Ha & Hh).
  destruct Hinv as (_ & Hsh & _).
  destruct (Hsh _ (get_record_elem _ _ _ _ Hrec)) as [Ea Eh].
  unfold fastPage.addArg in Hadd.
  destruct (get_record st m) as [[lm cm]|] eqn:Hm; [|done].
  destruct (Hsh _ (get_record_elem _ _ _ _ Hm)) as [Eam _].
  rewrite Eam, Han in Hadd. injection Hadd as <-.
  apply view_Some. exists l. simpl. split; [done|]. rewrite Ea, Eh. split; [|done].
  apply list_lookup_insert_eq. by eapply lookup_lt_Some.
Qed.

Lemma addHook_view (st st' : Store) (m n : string) (name : string) (action : nat)
    (vn : ConfigView) :
  store_inv st → fastPage.addHook m name action st = Ok st' → view st n = Some vn →
  view st' n
  = Some {| view_record := view_record vn;
            view_args := view_args vn;
            view_hooks := view_hooks vn
                          ++ [{| hook_name := name; hook_action := action |}] |}.
Proof.
  intros Hinv Hadd Hn.
  pose proof (store_inv_view _ n vn Hinv Hn) as [Han Hhn].
  apply view_Some in Hn as (l & Hrec & Ha & Hh).
  destruct Hinv as (_ & Hsh & _).
  destruct (Hsh _ (get_record_elem _ _ _ _ Hrec)) as [Ea Eh].
  unfold fastPage.addHook in Hadd.
  destruct (get_record st m) as [[lm cm]|] eqn:Hm; [|done].
  destruct (Hsh _ (get_record_elem _ _ _ _ Hm)) as [_ Ehm].
  rewrite Ehm, Hhn in Hadd. injection Hadd as <-.
  apply view_Some. exists l. simpl. split; [done|]. rewrite Ea, Eh. split; [done|].
  apply list_lookup_insert_eq. by eapply lookup_lt_Some.
Qed.

Lemma session_store_inv (acts : list Action) (s : System) :
  session acts loaded = Some s → store_inv (store (shared s)).
Proof. intros Hrun. apply (store_inv_session acts loaded s Hrun). apply store_inv_initial. Qed.

(** X1.  In every state a program can reach from the loaded module, by
    any calls of [init], of the setters and of the asynchronous methods,
    all configured instances show the same [args] and the same [hooks];
    [addArg] and [addHook] on one instance append to what every configured
    instance shows, and change nothing else. *)
Theorem args_and_hooks_are_global (acts : list Action) (s : System) :
  session acts loaded = Some s →
  (∀ n m vn vm,
     view (store (shared s)) n = Some vn → view (store (shared s)) m = Some vm →
     view_args vn = view_args vm ∧ view_hooks vn = view_hooks vm)
  ∧ (∀ m arg st' n vn,
       fastPage.addArg m arg (store (shared s)) = Ok st' →
       view (store (shared s)) n = Some vn →
       view st' n = Some {| view_record := view_record vn;
                            view_args := view_args vn ++ [arg];
                            view_hooks := view_hooks vn |})
  ∧ (∀ m name action st' n vn,
       fastPage.addHook m name action (store (shared s)) = Ok st' →
       view (store (shared s)) n = Some vn →
       view st' n
       = Some {| view_record := view_record vn;
                 view_args := view_args vn;
                 view_hooks := view_hooks vn
                               ++ [{| hook_name := name; hook_action := action |}] |}).
Proof.
  intros Hrun. pose proof (session_store_inv acts s Hrun) as Hinv.
  split; [|split].
  - intros n m vn vm Hn Hm.
    destruct (store_inv_view _ n vn Hinv Hn) as [Han Hhn].
    destruct (store_inv_view _ m vm Hinv Hm) as [Ham Hhm].
    split; congruence.
  - intros m arg st' n vn. by apply addArg_view.
  - intros m name action st' n vn. by apply addHook_view.
Qed.

Lemma args_and_hooks_are_global_witness :
  session example_session loaded = Some example_session_state
  ∧ ∃ va vb,
      view (store (shared example_session_state)) "a" = Some va
      ∧ view (store (shared example_session_state)) "b" = Some vb
      ∧ view_args va = view_args vb ∧ view_hooks va = view_hooks vb.
Proof.
  assert (Hrun : session example_session loaded = Some example_session_state)
    by by_evaluation.
  split; [exact Hrun|].
  destruct (view (store (shared example_session_state)) "a") as [va|] eqn:Ha;
    [|by vm_compute in Ha].
  destruct (view (store (shared example_session_state)) "b") as [vb|] eqn:Hb;
    [|by vm_compute in Hb].
  exists va, vb. split; [done|]. split; [done|].
  exact (proj1 (args_and_hooks_are_global example_session example_session_state Hrun)
           "a" "b" va vb Ha Hb).
Defined.


(** ** The first launch of an instance *)

Lemma launchOption_args (c : ConfigValue) (a : list string) :
  launchOption c a !! "args" = Some (VArr a).
Proof. unfold launchOption. destruct (proxy c), (truthy (downloadDir c)); by simplify_map_eq. Qed.

Lemma persistentOption_lookup (o : gmap string Val) (k : string) (v : Val) :
  o !! k = Some v → persistentOption o !! k = Some v.
Proof. intros Hk. unfold persistentOption. by apply lookup_union_Some_l. Qed.

(** The step that enters the launch section of an instance without a
    handle. *)
Lemma browser_start_launches (n : string) (r : Response) (sh : Shared) (l : loc)
    (c : ConfigValue) (a : list string) :
  get_record (store sh) n = Some (l, c) → browserHandle c = None →
  arg_arrays (store sh) !! args c = Some a → launch_key n ∉ held sh →
  ∃ b ev o,
    browser_step n r BStart sh = Some (b, emit ev (acquire (launch_key n) sh))
    ∧ section_ic b = Some l
    ∧ launch_options ev = Some o
    ∧ is_launch n ev = true
    ∧ (∀ k v, launchOption c (launch_args c a) !! k = Some v → o !! k = Some v)
    ∧ match truthy (userDataDir c) with
      | Some dir =>
          ev = EvLaunchPersistentContext n (browser c) dir
                 (persistentOption (launchOption c (launch_args c a)))
      | None => ev = EvLaunch n (browser c) (launchOption c (launch_args c a))
      end.
Proof.
  intros Hrec Hh Ha Hfree. simpl. rewrite decide_False by done.
  unfold browser_enter. rewrite Hrec, Hh, Ha.
  destruct (truthy (userDataDir c)) as [dir|] eqn:Hdir.
  - eexists _, _, _. split; [reflexivity|]. split; [done|]. split; [done|].
    split; [simpl; by rewrite bool_decide_eq_true|].
    split; [apply persistentOption_lookup | done].
  - eexists _, _, _. split; [reflexivity|]. split; [done|]. split; [done|].
    split; [simpl; by rewrite bool_decide_eq_true|]. done.
Qed.

Lemma truthy_Some (o : option string) (s : string) :
  truthy o = Some s ↔ o = Some s ∧ s ≠ "".
Proof.
  unfold truthy. destruct o as [s'|]; [|naive_solver].
  destruct (decide (s' = "")); naive_solver.
Qed.

Lemma truthy_None (o : option string) :
  truthy o = None ↔ o = None ∨ o = Some "".
Proof.
  unfold truthy. destruct o as [s'|]; [|naive_solver].
  destruct (decide (s' = "")); naive_solver.
Qed.

(** X2.  The first step of a handle request for a configured instance
    without a handle, its key being free, takes the key and makes one
    call of the external library.  The call is [launchPersistentContext]
    with the directory when [userDataDir] is a string that is not empty,
    and [launch] when it is [undefined] or the empty string.  The [args]
    of the call are the [args] of the instance followed, for chromium, by
    the seven flags of the module and, when extensions are set, the two
    extension flags; for firefox and webkit they are the [args] of the
    instance and nothing else. *)
Theorem first_request_launches (n : string) (r : Response) (sh : Shared)
    (vn : ConfigView) :
  view (store sh) n = Some vn →
  browserHandle (view_record vn) = None →
  launch_key n ∉ held sh →
  ∃ b ev sh',
    browser_step n r BStart sh = Some (b, sh')
    ∧ in_section b = true
    ∧ trace sh' = trace sh ++ [ev]
    ∧ held sh' = {[ launch_key n ]} ∪ held sh
    ∧ store sh' = store sh
    ∧ (∀ dir, userDataDir (view_record vn) = Some dir → dir ≠ "" →
         ∃ o, ev = EvLaunchPersistentContext n (browser (view_record vn)) dir o)
    ∧ (userDataDir (view_record vn) = None ∨ userDataDir (view_record vn) = Some "" →
         ∃ o, ev = EvLaunch n (browser (view_record vn)) o)
    ∧ ∃ flags,
        launch_call_args ev = view_args vn ++ flags
        ∧ (browser (view_record vn) ≠ chromium → flags = [])
        ∧ (browser (view_record vn) = chromium →
             length flags = (if extensions (view_record vn) is [] then 7 else 9)%nat
             ∧ ("--window-size=" +:+ pretty (width (windowSize (view_record vn)))
                  +:+ "," +:+ pretty (height (windowSize (view_record vn)))) ∈ flags).
Proof.
  intros (l & Hrec & Ha & _)%view_Some Hh Hfree.
  destruct (browser_start_launches n r sh l _ _ Hrec Hh Ha Hfree)
    as (b & ev & o & Hstep & Hsec & Ho & _ & Hlook & Hev).
  exists b, ev, (emit ev (acquire (launch_key n) sh)).
  split; [done|]. split; [by eapply section_ic_in_section|].
  split; [done|]. split; [done|]. split; [done|].
  split; [|split].
  - intros dir Hd Hne.
    rewrite (proj2 (truthy_Some _ dir) (conj Hd Hne)) in Hev. eauto.
  - intros Hd. rewrite (proj2 (truthy_None _) Hd) in Hev. eauto.
  - assert (Hargs : launch_call_args ev
                    = launch_args (view_record vn) (view_args vn)).
    { unfold launch_call_args. rewrite Ho. simpl.
      by rewrite (Hlook "args" _ (launchOption_args _ _)). }
    rewrite Hargs. unfold launch_args.
    destruct (browser (view_record vn)) eqn:Hb.
    + exists (chromium_flags (view_record vn) ++ extension_flags (view_record vn)).
      split; [done|]. split; [done|]. intros _. split.
      * rewrite length_app. unfold extension_flags.
        destruct (extensions (view_record vn)) as [|e es]; [done|].
        destruct (decide (0 < length (e :: es))%nat) as [|Hn]; [done|].
        simpl in Hn. lia.
      * apply elem_of_app. left. unfold chromium_flags.
        rewrite !elem_of_cons. do 6 right. by left.
    + exists []. by rewrite app_nil_r.
    + exists []. by rewrite app_nil_r.
Qed.

Lemma first_request_launches_witness :
  ∃ b ev sh',
    browser_step "default" Resolve BStart
      (with_store example_store_persistent initial_shared) = Some (b, sh')
    ∧ in_section b = true
    ∧ trace sh' = [ev]
    ∧ ∃ o, ev = EvLaunchPersistentContext "default" chromium "/tmp/profile" o.
Proof.
  destruct (first_request_launches "default" Resolve
              (with_store example_store_persistent initial_shared)
              {| view_record := set_userDataDir (Some "/tmp/profile") defaultConfig;
                 view_args := []; view_hooks := [] |} eq_refl eq_refl)
    as (b & ev & sh' & Hstep & Hsec & Htr & _ & _ & Hdir & _).
  { simpl. apply not_elem_of_empty. }
  exists b, ev, sh'. split; [exact Hstep|]. split; [exact Hsec|]. split; [exact Htr|].
  by apply (Hdir "/tmp/profile").
Defined.

(** X3.  In every state a program can reach, an argument added with
    [addArg] on any configured instance is passed to the next launch of
    every instance: after [fastPage(m).addArg(arg)], the first request of
    an instance [n] without a handle makes a launch call whose [args]
    contain [arg], whatever [m] and [n] are. *)
Theorem added_arg_reaches_every_launch (acts : list Action) (s : System)
    (m n : string) (arg : string) (st' : Store) (vn : ConfigView) (r : Response) :
  session acts loaded = Some s →
  fastPage.addArg m arg (store (shared s)) = Ok st' →
  view (store (shared s)) n = Some vn →
  browserHandle (view_record vn) = None →
  launch_key n ∉ held (shared s) →
  ∃ b ev sh',
    browser_step n r BStart (with_store st' (shared s)) = Some (b, sh')
    ∧ trace sh' = trace (shared s) ++ [ev]
    ∧ is_launch n ev = true
    ∧ arg ∈ launch_call_args ev.
Proof.
  intros Hrun Hadd Hn Hh Hfree.
  pose proof (session_store_inv acts s Hrun) as Hinv.
  pose proof (addArg_view _ _ m n arg vn Hinv Hadd Hn) as Hn'.
  apply view_Some in Hn' as (l & Hrec & Ha & _). simpl in Hrec, Ha.
  destruct (browser_start_launches n r (with_store st' (shared s)) l _ _ Hrec Hh Ha Hfree)
    as (b & ev & o & Hstep & _ & Ho & Hl & Hlook & _).
  exists b, ev, (emit ev (acquire (launch_key n) (with_store st' (shared s)))).
  split; [done|]. split; [done|]. split; [done|].
  unfold launch_call_args. rewrite Ho. simpl.
  rewrite (Hlook "args" _ (launchOption_args _ _)).
  unfold launch_args. destruct (browser (view_record vn)); set_solver.
Qed.

Lemma added_arg_reaches_every_launch_witness :
  ∃ st' b ev sh',
    fastPage.addArg "a" "--lang=de" (store (shared example_session_state)) = Ok st'
    ∧ browser_step "b" Resolve BStart (with_store st' (shared example_session_state))
      = Some (b, sh')
    ∧ is_launch "b" ev = true
    ∧ trace sh' = trace (shared example_session_state) ++ [ev]
    ∧ "--lang=de" ∈ launch_call_args ev.
Proof.
  assert (Hrun : session example_session loaded = Some example_session_state)
    by by_evaluation.
  destruct (fastPage.addArg "a" "--lang=de" (store (shared example_session_state)))
    as [st'|] eqn:Hadd; [|by vm_compute in Hadd].
  assert (Hb : view (store (shared example_session_state)) "b"
               = Some {| view_record := defaultConfig; view_args := ["--foo"];
                         view_hooks := [{| hook_name := "make_page_faster";
                                           hook_action := 5%nat |}] |})
    by by_evaluation.
  assert (Hheld : held (shared example_session_state) = {[ launch_key "default" ]})
    by by_evaluation.
  assert (Hfree : launch_key "b" ∉ held (shared example_session_state)).
  { rewrite Hheld. intros Hin%elem_of_singleton%launch_key_inj. discriminate Hin. }
  destruct (added_arg_reaches_every_launch example_session example_session_state
              "a" "b" "--lang=de" st' _ Resolve Hrun Hadd Hb eq_refl Hfree)
    as (b & ev & sh' & Hstep & Htr & Hl & Hin).
  exists st', b, ev, sh'.
  exact (conj eq_refl (conj Hstep (conj Hl (conj Htr Hin)))).
Defined.


(** ** [init] *)

Lemma view_bind_copy_other (st : Store) (n m : string) (d : ConfigValue) :
  store_wf st → m ≠ n → view (bind_copy n d st) m = view st m.
Proof.
  intros Hwf Hne. unfold view, get_record. simpl.
  rewrite lookup_insert_ne by done.
  destruct (config st !! m) as [l|] eqn:Hl; [|done]. simpl.
  rewrite lookup_app_l; [done|]. by eapply wf_records.
Qed.

Lemma get_record_bind_copy_eq (st : Store) (n : string) (d : ConfigValue) :
  get_record (bind_copy n d st) n = Some (length (records st), d).
Proof.
  apply get_record_Some. simpl. rewrite lookup_insert_eq. split; [done|].
  by rewrite lookup_app_r, Nat.sub_diag.
Qed.

Lemma init_default (st : Store) (n : string) (l : loc) (c : ConfigValue) :
  get_record st "default" = Some (l, c) →
  fastPage.init n None st = Some (bind_copy n c st)
  ∧ fastPage.init n (Some true) st = Some (bind_copy n c st).
Proof. intros Hd. unfold fastPage.init. simpl. by rewrite Hd. Qed.

(** X4.  On a well-formed store [init] always succeeds, and it changes
    what [getConfig] shows for no other name.  With
    [useCurrentDefaultConfig] left out or true the instance then shows
    exactly what ["default"] showed before the call, handles included.
    With [false] the fields of the record are those of [defaultConfig],
    so the instance has no handle, while its [args] and [hooks] are the
    arrays of [defaultConfig] with everything that was pushed onto
    them. *)
Theorem init_copies_configuration (st : Store) (n : string) (u : option bool) :
  store_wf st →
  ∃ st',
    fastPage.init n u st = Some st'
    ∧ (∀ m, m ≠ n → view st' m = view st m)
    ∧ (default true u = true → view st' n = view st "default")
    ∧ (default true u = false →
         ∃ a h, arg_arrays st !! 0%nat = Some a ∧ hook_arrays st !! 0%nat = Some h
                ∧ view st' n = Some {| view_record := defaultConfig;
                                       view_args := a; view_hooks := h |}).
Proof.
  intros Hwf. destruct (wf_default st Hwf) as [l Hl].
  destruct (store_wf_get_record st "default" l Hwf Hl) as [d Hd].
  unfold fastPage.init. destruct (default true u).
  - rewrite Hd. simpl. eexists. split; [done|].
    split; [intros m Hm; by apply view_bind_copy_other|]. split; [|done].
    intros _. unfold view. rewrite get_record_bind_copy_eq, Hd. done.
  - eexists. split; [done|].
    split; [intros m Hm; by apply view_bind_copy_other|]. split; [done|].
    intros _. destruct (wf_default_arrays st Hwf) as [Ha Hh].
    destruct (lookup_lt_is_Some_2 _ _ Ha) as [a Ea].
    destruct (lookup_lt_is_Some_2 _ _ Hh) as [h Eh].
    exists a, h. split; [done|]. split; [done|].
    unfold view. rewrite get_record_bind_copy_eq. simpl.
    change (args defaultConfig) with 0%nat. change (hooks defaultConfig) with 0%nat.
    by rewrite Ea, Eh.
Qed.

Lemma init_copies_configuration_witness :
  ∃ st',
    fastPage.init "a" None example_store_persistent = Some st'
    ∧ view st' "a" = view example_store_persistent "default".
Proof.
  assert (Hwf : store_wf example_store_persistent).
  { apply (store_wf_alter initial_store 0%nat (set_userDataDir (Some "/tmp/profile")));
      [done | apply initial_store_wf]. }
  destruct (init_copies_configuration example_store_persistent "a" None Hwf)
    as (st' & Hinit & _ & Hcopy & _).
  exists st'. exact (conj Hinit (Hcopy eq_refl)).
Defined.


(** [browser] on an instance that has a handle. *)
Lemma browser_start_existing (n : string) (r : Response) (sh : Shared) (l : loc)
    (c : ConfigValue) (h : Handle) :
  get_record (store sh) n = Some (l, c) → browserHandle c = Some h →
  launch_key n ∉ held sh →
  browser_step n r BStart sh = Some (BResolved h, sh).
Proof.
  intros Hrec Hh Hfree. simpl. rewrite decide_False by done.
  unfold browser_enter. by rewrite Hrec, Hh.
Qed.

(** X5.  While the default instance has a handle, an instance that is
    initialised from it gets the handle with the other fields.  After
    [fastPage(n).init()] a handle request for [n] returns the handle of
    ["default"] and launches nothing; and [newPage] on a name that was
    never initialised, which calls [init] itself, obtains the same handle
    from [browser] without a launch call. *)
Theorem initialised_instance_reuses_default_handle (n : string) (sh : Shared)
    (l : loc) (c : ConfigValue) (h : Handle) :
  get_record (store sh) "default" = Some (l, c) →
  browserHandle c = Some h →
  launch_key n ∉ held sh →
  (∀ u st' r,
     default true u = true → fastPage.init n u (store sh) = Some st' →
     browser_step n r BStart (with_store st' sh) = Some (BResolved h, with_store st' sh))
  ∧ (config (store sh) !! n = None →
     ∀ r1 r2 r3, ∃ s',
       run [(0%nat, r1); (0%nat, r2); (0%nat, r3)]
         {| shared := sh; tasks := [TNewPage n NPStart] |} = Some s'
       ∧ tasks s' = [TNewPage n (NPBrowser (BResolved h))]
       ∧ trace (shared s') = trace sh
       ∧ next_handle (shared s') = next_handle sh).
Proof.
  intros Hd Hh Hfree. split.
  - intros u st' r Hu Hinit. unfold fastPage.init in Hinit. rewrite Hu, Hd in Hinit.
    injection Hinit as <-.
    eapply browser_start_existing; [apply get_record_bind_copy_eq | done | done].
  - intros Hnone r1 r2 r3.
    destruct (init_default (store sh) n l c Hd) as [Hinit _].
    eexists. split.
    + cbn [run].
      rewrite (step_single r1 (TNewPage n NPStart) (TNewPage n NPInit) sh
                 (with_store (bind_copy n c (store sh)) sh)).
      2:{ simpl. by rewrite Hnone, Hinit. }
      cbn [mbind option_bind].
      rewrite (step_single r2 (TNewPage n NPInit) (TNewPage n (NPBrowser BStart))
                 _ (with_store (bind_copy n c (store sh)) sh)) by done.
      cbn [mbind option_bind].
      rewrite (step_single r3 (TNewPage n (NPBrowser BStart))
                 (TNewPage n (NPBrowser (BResolved h)))
                 _ (with_store (bind_copy n c (store sh)) sh)).
      2:{ cbn [task_step newPage_step].
          rewrite (browser_start_existing n r3 _ (length (records (store sh))) c h);
            [done | apply get_record_bind_copy_eq | done | done]. }
      reflexivity.
    + done.
Qed.

Lemma initialised_instance_reuses_default_handle_witness :
  ∃ st',
    fastPage.init "a" None (store example_shared_persistent_launched) = Some st'
    ∧ browser_step "a" Resolve BStart (with_store st' example_shared_persistent_launched)
      = Some (BResolved 0%nat, with_store st' example_shared_persistent_launched).
Proof.
  assert (Hd : get_record (store example_shared_persistent_launched) "default"
               = Some (0%nat, set_browserHandle (Some 0%nat)
                                (set_userDataDir (Some "/tmp/profile") defaultConfig)))
    by by_evaluation.
  assert (Hheld : held example_shared_persistent_launched = ∅) by by_evaluation.
  assert (Hfree : launch_key "a" ∉ held example_shared_persistent_launched)
    by (rewrite Hheld; apply not_elem_of_empty).
  destruct (init_default _ "a" _ _ Hd) as [Hinit _].
  eexists. split; [exact Hinit|].
  exact (proj1 (initialised_instance_reuses_default_handle "a"
                  example_shared_persistent_launched _ _ 0%nat Hd eq_refl Hfree)
           None _ Resolve eq_refl Hinit).
Defined.

(** [closeBrowser] on an instance whose browser was launched without a
    profile directory: one step, whatever the key of the launch does. *)
Lemma close_start_non_persistent (n : string) (r : Response) (sh : Shared) (l : loc)
    (c : ConfigValue) (b : Handle) :
  get_record (store sh) n = Some (l, c) → nonPersistantBrowserHandle c = Some b →
  close_key n ∉ held sh →
  task_step r (TCloseBrowser n CStart) sh
  = Some (TCloseBrowser n (CResolved (Some "closed")),
          update_record l (set_nonPersistantBrowserHandle None)
            (update_record l (set_browserHandle None) (emit (EvClose b false) sh))).
Proof.
  intros Hrec Hb Hfree. simpl. rewrite decide_False by done. simpl.
  unfold close_enter. rewrite Hrec, Hb. unfold close_clear. simpl. by rewrite Hrec.
Qed.

(** X6.  While the default instance runs a browser launched without a
    profile directory, [closeBrowser] on an instance initialised from it
    closes that browser: the one call made is [close()] on the browser of
    ["default"].  The handle fields of the instance are cleared; those of
    ["default"] are not, so a handle request for ["default"] still
    returns the context of the closed browser and launches nothing. *)
Theorem closing_initialised_instance_closes_default_browser (n : string) (sh : Shared)
    (l : loc) (c : ConfigValue) (b h : Handle) (u : option bool) (st' : Store) :
  n ≠ "default" →
  get_record (store sh) "default" = Some (l, c) →
  nonPersistantBrowserHandle c = Some b →
  browserHandle c = Some h →
  default true u = true →
  fastPage.init n u (store sh) = Some st' →
  close_key n ∉ held sh →
  ∀ r, ∃ sh',
    task_step r (TCloseBrowser n CStart) (with_store st' sh)
    = Some (TCloseBrowser n (CResolved (Some "closed")), sh')
    ∧ trace sh' = trace sh ++ [EvClose b false]
    ∧ handles_cleared n (store sh')
    ∧ get_record (store sh') "default" = Some (l, c)
    ∧ (launch_key "default" ∉ held sh →
       ∀ r', browser_step "default" r' BStart sh' = Some (BResolved h, sh')).
Proof.
  intros Hne Hd Hb Hh Hu Hinit Hfree r.
  unfold fastPage.init in Hinit. rewrite Hu, Hd in Hinit. injection Hinit as <-.
  pose proof (get_record_bind_copy_eq (store sh) n c) as Hn.
  pose proof (get_record_bind_copy (store sh) n "default" c l c Hne Hd) as Hd'.
  assert (Hl : l ≠ length (records (store sh))).
  { apply get_record_Some in Hd as [_ Hc]. apply lookup_lt_Some in Hc. lia. }
  eexists. split.
  { apply (close_start_non_persistent n r (with_store (bind_copy n c (store sh)) sh)
             _ c b Hn Hb Hfree). }
  split; [done|].
  assert (Hdef : get_record
            (store (update_record (length (records (store sh)))
                      (set_nonPersistantBrowserHandle None)
                      (update_record (length (records (store sh)))
                         (set_browserHandle None)
                         (emit (EvClose b false)
                            (with_store (bind_copy n c (store sh)) sh)))))
            "default" = Some (l, c)).
  { cbn [store update_record with_store emit].
    erewrite get_record_alter.
    2:{ erewrite get_record_alter; [|exact Hd']. by rewrite decide_False. }
    by rewrite decide_False. }
  split; [|split; [exact Hdef|]].
  - exists (length (records (store sh))),
      (set_nonPersistantBrowserHandle None (set_browserHandle None c)).
    split; [|done]. cbn [store update_record with_store emit].
    erewrite get_record_alter.
    2:{ erewrite get_record_alter; [|exact Hn]. by rewrite decide_True. }
    by rewrite decide_True.
  - intros Hlk r'. by apply (browser_start_existing "default" r' _ l c h).
Qed.

Lemma closing_initialised_instance_closes_default_browser_witness :
  ∃ st' sh',
    fastPage.init "a" None (store example_shared_launched) = Some st'
    ∧ task_step Resolve (TCloseBrowser "a" CStart) (with_store st' example_shared_launched)
      = Some (TCloseBrowser "a" (CResolved (Some "closed")), sh')
    ∧ trace sh' = trace example_shared_launched ++ [EvClose 0%nat false]
    ∧ browser_step "default" Resolve BStart sh' = Some (BResolved 1%nat, sh').
Proof.
  assert (Hd : get_record (store example_shared_launched) "default"
               = Some (0%nat, set_browserHandle (Some 1%nat)
                                (set_nonPersistantBrowserHandle (Some 0%nat)
                                   defaultConfig)))
    by by_evaluation.
  assert (Hheld : held example_shared_launched = ∅) by by_evaluation.
  assert (Hfree : close_key "a" ∉ held example_shared_launched)
    by (rewrite Hheld; apply not_elem_of_empty).
  assert (Hfree' : launch_key "default" ∉ held example_shared_launched)
    by (rewrite Hheld; apply not_elem_of_empty).
  destruct (init_default _ "a" _ _ Hd) as [Hinit _].
  assert (Hne : "a" ≠ "default") by discriminate.
  destruct (closing_initialised_instance_closes_default_browser "a"
              example_shared_launched _ _ 0%nat 1%nat None _ Hne Hd eq_refl eq_refl
              eq_refl Hinit Hfree Resolve)
    as (sh' & Hstep & Htr & _ & _ & Hbrow).
  eexists _, sh'.
  exact (conj Hinit (conj Hstep (conj Htr (Hbrow Hfree' Resolve)))).
Defined.


(** ** Setters and the launch *)

Lemma launchOption_acceptDownloads (c : ConfigValue) (a : list string) :
  launchOption c a !! "acceptDownloads" = Some (VBool true).
Proof. unfold launchOption. destruct (proxy c), (truthy (downloadDir c)); by simplify_map_eq. Qed.

Lemma persistentOption_lookup_other (c : ConfigValue) (a : list string) (k : string) :
  k ≠ "colorScheme" →
  persistentOption (launchOption c a) !! k = launchOption c a !! k.
Proof.
  intros Hk. unfold persistentOption.
  destruct (launchOption c a !! k) as [v|] eqn:Hv.
  - by apply lookup_union_Some_l.
  - apply lookup_union_None. split; [done|].
    destruct (decide (k = "acceptDownloads")) as [->|Hne].
    + by rewrite launchOption_acceptDownloads in Hv.
    + by simplify_map_eq.
Qed.

(** The options of the launch call made for a record. *)
Lemma launch_call_options (n : string) (r : Response) (sh : Shared) (l : loc)
    (c : ConfigValue) (a : list string) :
  get_record (store sh) n = Some (l, c) → browserHandle c = None →
  arg_arrays (store sh) !! args c = Some a → launch_key n ∉ held sh →
  ∃ b ev o,
    browser_step n r BStart sh = Some (b, emit ev (acquire (launch_key n) sh))
    ∧ is_launch n ev = true
    ∧ launch_options ev = Some o
    ∧ ∀ k, k ≠ "colorScheme" → o !! k = launchOption c (launch_args c a) !! k.
Proof.
  intros Hrec Hh Ha Hfree.
  destruct (browser_start_launches n r sh l c a Hrec Hh Ha Hfree)
    as (b & ev & o & Hstep & _ & Ho & Hl & _ & Hev).
  exists b, ev, o. split; [done|]. split; [done|]. split; [done|].
  intros k Hk. destruct (truthy (userDataDir c)); subst ev; injection Ho as <-; [|done].
  by apply persistentOption_lookup_other.
Qed.

Lemma assign_get_record (st st' : Store) (n : string) (f : ConfigValue → ConfigValue) :
  assign n f st = Ok st' →
  ∃ l c, get_record st n = Some (l, c) ∧ get_record st' n = Some (l, f c)
         ∧ arg_arrays st' = arg_arrays st ∧ hook_arrays st' = hook_arrays st.
Proof.
  unfold assign. destruct (get_record st n) as [[l c]|] eqn:Hrec; [|done].
  intros [= <-]. exists l, c. split; [done|]. split; [|done].
  apply get_record_Some in Hrec as [Hl Hc]. apply get_record_Some. simpl.
  split; [done|]. apply list_lookup_insert_eq. by eapply lookup_lt_Some.
Qed.

(** The launch call made after a field of the record was assigned. *)
Lemma launch_after_assign (n : string) (f : ConfigValue → ConfigValue) (st st' : Store)
    (sh : Shared) (r : Response) (l : loc) (c : ConfigValue) :
  (∀ c, args (f c) = args c ∧ browserHandle (f c) = browserHandle c) →
  get_record st n = Some (l, c) → browserHandle c = None →
  is_Some (arg_arrays st !! args c) → launch_key n ∉ held sh →
  assign n f st = Ok st' →
  ∃ b ev o sh' a,
    browser_step n r BStart (with_store st' sh) = Some (b, sh')
    ∧ trace sh' = trace sh ++ [ev]
    ∧ is_launch n ev = true
    ∧ launch_options ev = Some o
    ∧ ∀ k, k ≠ "colorScheme" → o !! k = launchOption (f c) a !! k.
Proof.
  intros Hf Hrec Hh [a Ha] Hfree Hassign.
  destruct (assign_get_record _ _ _ _ Hassign) as (l' & c' & Hrec' & Hnew & Haa & _).
  rewrite Hrec in Hrec'. injection Hrec' as <- <-.
  destruct (Hf c) as [Hfa Hfh].
  destruct (launch_call_options n r (with_store st' sh) l (f c) a) as
    (b & ev & o & Hstep & Hl & Ho & Hlook); simpl; try done.
  - by rewrite Hfh.
  - by rewrite Haa, Hfa.
  - eexists b, ev, o, _, _. split; [exact Hstep|]. split; [done|]. split; [done|].
    split; [done|]. exact Hlook.
Qed.

Lemma launchOption_lookups (c : ConfigValue) (a : list string) :
  launchOption c a !! "headless" = Some (VBool (headless c))
  ∧ launchOption c a !! "devtools" = Some (VBool (devtools c))
  ∧ launchOption c a !! "proxy" = VProxy <$> proxy c
  ∧ launchOption c a !! "downloadsPath" = VStr <$> truthy (downloadDir c)
  ∧ launchOption c a !! "userAgent" = None
  ∧ launchOption c a !! "viewport" = None.
Proof.
  unfold launchOption. destruct (proxy c), (truthy (downloadDir c)); by simplify_map_eq.
Qed.

(** X7.  What the setters of the launch options do to the next launch.
    For a configured instance without a handle, its key being free, the
    launch call made after the setter ([launch] or
    [launchPersistentContext]) has [headless] as set, [false] when
    [setHeadless] was called without an argument; [devtools] as set,
    [true] when [setDevtools] was called without an argument; the proxy
    of [setProxy]; and [downloadsPath] as given to [setDownloadDir],
    except that the empty string gives no [downloadsPath] at all. *)
Theorem setters_reach_launch_options (n : string) (st : Store) (sh : Shared)
    (r : Response) (l : loc) (c : ConfigValue) :
  get_record st n = Some (l, c) →
  browserHandle c = None →
  is_Some (arg_arrays st !! args c) →
  launch_key n ∉ held sh →
  (∀ value st', fastPage.setHeadless n value st = Ok st' →
     ∃ b ev o sh',
       browser_step n r BStart (with_store st' sh) = Some (b, sh')
       ∧ trace sh' = trace sh ++ [ev] ∧ is_launch n ev = true
       ∧ launch_options ev = Some o
       ∧ o !! "headless" = Some (VBool (default false value)))
  ∧ (∀ value st', fastPage.setDevtools n value st = Ok st' →
       ∃ b ev o sh',
         browser_step n r BStart (with_store st' sh) = Some (b, sh')
         ∧ trace sh' = trace sh ++ [ev] ∧ is_launch n ev = true
         ∧ launch_options ev = Some o
         ∧ o !! "devtools" = Some (VBool (default true value)))
  ∧ (∀ value st', fastPage.setProxy n value st = Ok st' →
       ∃ b ev o sh',
         browser_step n r BStart (with_store st' sh) = Some (b, sh')
         ∧ trace sh' = trace sh ++ [ev] ∧ is_launch n ev = true
         ∧ launch_options ev = Some o
         ∧ o !! "proxy" = Some (VProxy value))
  ∧ (∀ value st', fastPage.setDownloadDir n value st = Ok st' →
       ∃ b ev o sh',
         browser_step n r BStart (with_store st' sh) = Some (b, sh')
         ∧ trace sh' = trace sh ++ [ev] ∧ is_launch n ev = true
         ∧ launch_options ev = Some o
         ∧ o !! "downloadsPath" = (if decide (value = "") then None
                                   else Some (VStr value))).
Proof.
  intros Hrec Hh Ha Hfree.
  split; [|split; [|split]]; intros value st' Hset.
  - destruct (launch_after_assign n (set_headless (default false value)) st st' sh r l c
                (λ _, conj eq_refl eq_refl)
                Hrec Hh Ha Hfree Hset) as (b & ev & o & sh' & a & H1 & H2 & H3 & H4 & H5).
    exists b, ev, o, sh'. rewrite H5 by done.
    by destruct (launchOption_lookups (set_headless (default false value) c) a)
      as (-> & _).
  - destruct (launch_after_assign n (set_devtools (default true value)) st st' sh r l c
                (λ _, conj eq_refl eq_refl)
                Hrec Hh Ha Hfree Hset) as (b & ev & o & sh' & a & H1 & H2 & H3 & H4 & H5).
    exists b, ev, o, sh'. rewrite H5 by done.
    by destruct (launchOption_lookups (set_devtools (default true value) c) a)
      as (_ & -> & _).
  - destruct (launch_after_assign n (set_proxy (Some value)) st st' sh r l c
                (λ _, conj eq_refl eq_refl)
                Hrec Hh Ha Hfree Hset) as (b & ev & o & sh' & a & H1 & H2 & H3 & H4 & H5).
    exists b, ev, o, sh'. rewrite H5 by done.
    by destruct (launchOption_lookups (set_proxy (Some value) c) a)
      as (_ & _ & -> & _).
  - destruct (launch_after_assign n (set_downloadDir (Some value)) st st' sh r l c
                (λ _, conj eq_refl eq_refl)
                Hrec Hh Ha Hfree Hset) as (b & ev & o & sh' & a & H1 & H2 & H3 & H4 & H5).
    exists b, ev, o, sh'. rewrite H5 by done.
    destruct (launchOption_lookups (set_downloadDir (Some value) c) a)
      as (_ & _ & _ & -> & _).
    simpl. by destruct (decide (value = "")).
Qed.

Lemma setters_reach_launch_options_witness :
  ∃ st' b ev o sh',
    fastPage.setDownloadDir "default" "" initial_store = Ok st'
    ∧ browser_step "default" Resolve BStart (with_store st' initial_shared)
      = Some (b, sh')
    ∧ trace sh' = [ev]
    ∧ launch_options ev = Some o
    ∧ o !! "downloadsPath" = None.
Proof.
  assert (Hfree : launch_key "default" ∉ held initial_shared)
    by apply not_elem_of_empty.
  destruct (fastPage.setDownloadDir "default" "" initial_store) as [st'|] eqn:Hset;
    [|discriminate Hset].
  destruct (proj2 (proj2 (proj2
              (setters_reach_launch_options "default" initial_store initial_shared
                 Resolve 0%nat defaultConfig eq_refl eq_refl (mk_is_Some _ _ eq_refl)
                 Hfree))) "" st' Hset)
    as (b & ev & o & sh' & H1 & H2 & H3 & H4 & H5).
  exists st', b, ev, o, sh'.
  exact (conj eq_refl (conj H1 (conj H2 (conj H4 H5)))).
Defined.







(** ** Calls in flight never lock each other out *)

Lemma task_step_records_length (r : Response) (t t' : Task) (sh sh' : Shared) :
  task_step r t sh = Some (t', sh') →
  (length (records (store sh)) ≤ length (records (store sh')))%nat.
Proof.
  intros Hstep.
  apply (task_step_store_ind
           (λ st, (length (records (store sh)) ≤ length (records st))%nat))
    with (r := r) (t := t) (t' := t') (sh := sh); [| | |done|lia].
  - intros st l v H. simpl. by rewrite length_alter.
  - intros st l v H. simpl. by rewrite length_alter.
  - intros st st' n H _. unfold fastPage.init. simpl.
    destruct (get_record st "default") as [[? d]|]; [|done]. simpl.
    intros [= <-]. simpl. rewrite length_app. lia.
Qed.

Lemma browser_step_section_ic (n : string) (r : Response) (b b' : BrowserPc)
    (sh sh' : Shared) (ic : loc) :
  browser_step n r b sh = Some (b', sh') →
  (∀ ic0, section_ic b = Some ic0 → (ic0 < length (records (store sh)))%nat) →
  section_ic b' = Some ic →
  (ic < length (records (store sh')))%nat.
Proof.
  intros Hstep Hic Hsec. destruct b as [|ic0|ic0|ic0 h| |]; simpl in Hstep; try done.
  - destruct (decide (launch_key n ∈ held sh)); [done|]. injection Hstep as Hstep.
    apply browser_enter_inv in Hstep
      as [(-> & _)|[(? & ? & ? & _ & _ & -> & _)|
          (ic1 & c1 & ev & Hrec1 & _ & Hsec1 & _ & _ & ->)]]; try done.
    rewrite Hsec in Hsec1. injection Hsec1 as <-. simpl.
    apply get_record_Some in Hrec1 as [_ Hc]. by eapply lookup_lt_Some.
  - destruct r; injection Hstep as <- <-; done.
  - destruct r.
    + destruct (records (store sh) !! ic0); [|done]. injection Hstep as <- <-.
      simpl in *. injection Hsec as <-. rewrite length_alter. by apply Hic.
    + by injection Hstep as <- <-.
  - destruct r; injection Hstep as <- <-; done.
Qed.

Lemma task_step_section_ic (r : Response) (t t' : Task) (sh sh' : Shared)
    (b' : BrowserPc) (ic : loc) :
  task_step r t sh = Some (t', sh') →
  (∀ b ic0, browser_pc t = Some b → section_ic b = Some ic0 →
            (ic0 < length (records (store sh)))%nat) →
  browser_pc t' = Some b' → section_ic b' = Some ic →
  (ic < length (records (store sh')))%nat.
Proof.
  intros Hstep Hic Hb' Hsec. destruct t as [n b|n p|n b|n c]; simpl in Hstep.
  - destruct (browser_step n r b sh) as [[b1 sh1]|] eqn:Hb; [|done].
    injection Hstep as <- <-. simpl in Hb'. injection Hb' as <-.
    eapply browser_step_section_ic; [exact Hb| |exact Hsec]. intros ic0. by apply Hic.
  - destruct p as [| |b]; simpl in Hstep.
    + destruct (config (store sh) !! n).
      * injection Hstep as <- <-. simpl in Hb'. by injection Hb' as <-.
      * destruct (fastPage.init n None (store sh)); [|done].
        by injection Hstep as <- <-.
    + injection Hstep as <- <-. simpl in Hb'. by injection Hb' as <-.
    + destruct (browser_step n r b sh) as [[b1 sh1]|] eqn:Hb; [|done].
      injection Hstep as <- <-. simpl in Hb'. injection Hb' as <-.
      eapply browser_step_section_ic; [exact Hb| |exact Hsec]. intros ic0. by apply Hic.
  - destruct (browser_step n r b sh) as [[b1 sh1]|] eqn:Hb; [|done].
    injection Hstep as <- <-. simpl in Hb'. injection Hb' as <-.
    eapply browser_step_section_ic; [exact Hb| |exact Hsec]. intros ic0. by apply Hic.
  - destruct (close_step n r c sh) as [[c1 sh1]|] eqn:Hc; [|done].
    injection Hstep as <- <-. destruct c as [|b|h|v].
    + simpl in Hc. destruct (decide (close_key n ∈ held sh)); [done|].
      injection Hc as Hc. unfold close_enter, close_failed in Hc.
      destruct (get_record (store sh) n) as [[l c]|];
        [|injection Hc as <- <-; done].
      destruct (nonPersistantBrowserHandle c).
      { apply close_clear_held in Hc as [_ [v ->]]. done. }
      destruct (browserHandle c).
      { injection Hc as <- <-. simpl in Hb'. by injection Hb' as <-. }
      apply close_clear_held in Hc as [_ [v ->]]. done.
    + apply close_step_browser in Hc
        as [(h & -> & -> & _)|[(e & -> & -> & _)|(b'' & _ & Hb & ->)]]; try done.
      simpl in Hb'. injection Hb' as <-.
      eapply browser_step_section_ic; [exact Hb| |exact Hsec]. intros ic0. by apply Hic.
    + simpl in Hc. destruct r.
      * injection Hc as Hc. apply close_clear_held in Hc as [_ [v ->]]. done.
      * injection Hc as <- <-. done.
    + done.
Qed.

Lemma sys_inv_step (i : nat) (r : Response) (s s' : System) :
  sys_inv s → step_at i r s = Some s' → sys_inv s'.
Proof.
  intros [Hwf Hlock Hic] Hs.
  pose proof Hs as (t & t' & Hi & Hstep & Htasks)%step_at_inv.
  assert (Hin : t ∈ tasks s) by (eapply list_elem_of_lookup_2; eassumption).
  split.
  - eapply task_step_wf; eassumption.
  - eapply lock_inv_step; eassumption.
  - intros u b ic Hu Hb Hsec. rewrite Htasks in Hu.
    destruct (elem_of_insert_task _ _ _ _ _ Hi Hu) as [-> | Hu'].
    + eapply task_step_section_ic; [exact Hstep| |exact Hb|exact Hsec].
      intros b0 ic0. by apply Hic.
    + eapply Nat.lt_le_trans; [by eapply Hic|].
      eapply task_step_records_length; eassumption.
Qed.

Lemma sys_inv_quiescent (s : System) :
  store_wf (store (shared s)) → quiescent s → sys_inv s.
Proof.
  intros Hwf Hq. split; [done | by apply quiescent_lock_inv|].
  intros t b ic Ht Hb Hsec. destruct Hq as [_ Hns].
  rewrite Forall_forall in Hns. specialize (Hns t Ht).
  destruct t as [n []|n []|n []|n []]; simpl in *; simplify_eq/=.
Qed.

Lemma sys_inv_run (sched : list (nat * Response)) (s s' : System) :
  sys_inv s → run sched s = Some s' → sys_inv s'.
Proof.
  intros Hinv Hrun.
  apply (run_invariant sys_inv (λ _, True)
           (λ i r s1 s2 _ H Hs, sys_inv_step i r s1 s2 H Hs) sched s s');
    [by apply Forall_true | done | done].
Qed.

Lemma close_key_launch_key (m : string) : close_key m = launch_key ("close_" +:+ m).
Proof. done. Qed.

Lemma in_section_can_step (n : string) (b : BrowserPc) (sh : Shared) :
  in_section b = true →
  (∀ ic, section_ic b = Some ic → (ic < length (records (store sh)))%nat) →
  is_Some (browser_step n Resolve b sh).
Proof.
  intros Hsec Hic. destruct b as [|ic|ic|ic h| |]; simpl in *; try done; eauto.
  destruct (lookup_lt_is_Some_2 (records (store sh)) ic) as [c ->]; [by apply Hic|].
  simpl. eauto.
Qed.

Lemma can_step_at (s : System) (i : nat) (t : Task) :
  tasks s !! i = Some t → is_Some (task_step Resolve t (shared s)) →
  ∃ j s', step_at j Resolve s = Some s'.
Proof.
  intros Hi [[t' sh'] Ht]. exists i. unfold step_at. rewrite Hi. simpl.
  rewrite Ht. simpl. eauto.
Qed.

Lemma browser_start_can_step (n : string) (sh : Shared) :
  launch_key n ∉ held sh → is_Some (browser_step n Resolve BStart sh).
Proof. intros Hfree. simpl. rewrite decide_False by done. eauto. Qed.

(** When the launch key of a name is held, some call can move: the call
    that holds the key is suspended inside a section, or it is a
    [closeBrowser] waiting for the launch key of a shorter name. *)
Lemma holder_can_step (s : System) :
  sys_inv s →
  ∀ k n, String.length n = k → launch_key n ∈ held (shared s) →
  ∃ j s', step_at j Resolve s = Some s'.
Proof.
  intros [Hwf [Hnd Hheld] Hic] k.
  induction k as [k IH] using lt_wf_ind. intros n Hlen Hin.
  apply Hheld in Hin. unfold all_keys in Hin.
  apply list_elem_of_bind in Hin as (t & Hk & Ht).
  pose proof Ht as (i & Hi)%list_elem_of_lookup_1.
  assert (Hsec : ∀ m b, browser_pc t = Some b → in_section b = true →
                        is_Some (browser_step m Resolve b (shared s))).
  { intros m b Hb Hs. apply in_section_can_step; [done|]. intros ic. by apply (Hic t b ic). }
  destruct t as [m b|m [| |b]|m b|m [|b|h|v]]; simpl in Hk;
    try (by apply elem_of_nil in Hk).
  - apply (can_step_at s i _ Hi).
    destruct (Hsec m b eq_refl) as [[b' sh'] Hb].
    { unfold browser_keys in Hk.
      destruct (in_section b); [done | by apply elem_of_nil in Hk]. }
    simpl. rewrite Hb. simpl. eauto.
  - apply (can_step_at s i _ Hi).
    destruct (Hsec m b eq_refl) as [[b' sh'] Hb].
    { unfold browser_keys in Hk.
      destruct (in_section b); [done | by apply elem_of_nil in Hk]. }
    simpl. rewrite Hb. simpl. eauto.
  - apply (can_step_at s i _ Hi).
    destruct (Hsec m b eq_refl) as [[b' sh'] Hb].
    { unfold browser_keys in Hk.
      destruct (in_section b); [done | by apply elem_of_nil in Hk]. }
    simpl. rewrite Hb. simpl. eauto.
  - destruct (in_section b) eqn:Hs.
    + apply (can_step_at s i _ Hi).
      destruct (Hsec m b eq_refl Hs) as [[b' sh'] Hb].
      destruct b; try done; simpl in *; rewrite Hb; simpl; eauto.
    + destruct b as [|ic|ic|ic h|h|e]; try done.
      * unfold browser_keys in Hk. simpl in Hk.
        apply list_elem_of_singleton in Hk.
        destruct (decide (launch_key m ∈ held (shared s))) as [Hm|Hm].
        -- apply (IH (String.length m)) with (n := m); [|done|done].
           rewrite close_key_launch_key in Hk. apply launch_key_inj in Hk.
           subst n. rewrite <- Hlen, string_length_app. simpl. lia.
        -- apply (can_step_at s i _ Hi). simpl.
           rewrite decide_False by done. simpl.
           destruct (browser_enter m (shared s)). simpl. eauto.
      * apply (can_step_at s i _ Hi). simpl. eauto.
      * apply (can_step_at s i _ Hi). simpl. eauto.
  - apply (can_step_at s i _ Hi). simpl.
    destruct (close_clear m (release (close_key m) (shared s))). simpl. eauto.
Qed.

(** While a call has not settled, some call can move. *)
Lemma calls_progress (s : System) :
  sys_inv s →
  Exists (λ t, completed t = false) (tasks s) →
  ∃ j s', step_at j Resolve s = Some s'.
Proof.
  intros Hinv Hex. pose proof Hinv as [Hwf [Hnd Hheld] Hic].
  apply Exists_exists in Hex as (t & Ht & Hc).
  pose proof Ht as (i & Hi)%list_elem_of_lookup_1.
  assert (Hbrowser : ∀ m b, browser_pc t = Some b → settled b = false →
            is_Some (browser_step m Resolve b (shared s))
            ∨ ∃ j s', step_at j Resolve s = Some s').
  { intros m b Hb Hs. destruct (in_section b) eqn:Hsec.
    - left. apply in_section_can_step; [done|]. intros ic. by apply (Hic t b ic).
    - destruct b; try done.
      destruct (decide (launch_key m ∈ held (shared s))) as [Hm|Hm].
      + right. by apply (holder_can_step s Hinv _ m eq_refl).
      + left. by apply browser_start_can_step. }
  destruct t as [m b|m [| |b]|m b|m [|b|h|v]]; simpl in Hc; try done.
  - destruct (Hbrowser m b eq_refl Hc) as [[[b' sh'] Hb]|?]; [|done].
    apply (can_step_at s i _ Hi). simpl. rewrite Hb. simpl. eauto.
  - apply (can_step_at s i _ Hi). simpl.
    destruct (config (store (shared s)) !! m); [by eexists|].
    destruct (store_wf_init_total (store (shared s)) m None Hwf) as [st Hst].
    rewrite Hst. simpl. by eexists.
  - apply (can_step_at s i _ Hi). simpl. eauto.
  - destruct (Hbrowser m b eq_refl Hc) as [[[b' sh'] Hb]|?]; [|done].
    apply (can_step_at s i _ Hi). simpl. rewrite Hb. simpl. eauto.
  - destruct (Hbrowser m b eq_refl Hc) as [[[b' sh'] Hb]|?]; [|done].
    apply (can_step_at s i _ Hi). simpl. rewrite Hb. simpl. eauto.
  - destruct (decide (close_key m ∈ held (shared s))) as [Hm|Hm].
    + rewrite close_key_launch_key in Hm.
      by apply (holder_can_step s Hinv _ ("close_" +:+ m) eq_refl).
    + apply (can_step_at s i _ Hi). simpl. rewrite decide_False by done. simpl.
      destruct (close_enter m (shared s)). simpl. eauto.
  - destruct (settled b) eqn:Hs.
    + apply (can_step_at s i _ Hi). destruct b; try done; simpl; eauto.
    + destruct (Hbrowser m b eq_refl Hs) as [[[b' sh'] Hb]|?]; [|done].
      apply (can_step_at s i _ Hi). simpl.
      destruct b; try done; simpl in *; rewrite Hb; simpl; eauto.
  - apply (can_step_at s i _ Hi). simpl.
    destruct (close_clear m (release (close_key m) (shared s))). simpl. eauto.
Qed.

Lemma completed_keys (t : Task) : completed t = true → task_keys t = [].
Proof.
  destruct t as [n b|n [| |b]|n b|n [|b|h|v]]; simpl; try done;
    unfold browser_keys; by destruct b.
Qed.

Lemma completed_free (s : System) :
  lock_inv s → Forall (λ t, completed t = true) (tasks s) → held (shared s) = ∅.
Proof.
  intros Hlock Hall. apply lock_inv_no_keys; [done|]. apply all_keys_nil.
  eapply Forall_impl; [exact Hall|]. intros t. apply completed_keys.
Qed.

(** With the external library resolving, the calls in flight can always
    be run until all have settled. *)
Lemma calls_complete (s : System) :
  sys_inv s →
  ∃ sched s', all_resolve sched ∧ run sched s = Some s'
              ∧ Forall (λ t, completed t = true) (tasks s').
Proof.
  remember (weight s) as w eqn:Hw. revert s Hw.
  induction w as [w IH] using lt_wf_ind. intros s -> Hinv.
  destruct (decide (Exists (λ t, completed t = false) (tasks s))) as [Hex|Hall].
  - destruct (calls_progress s Hinv Hex) as (i & s1 & Hs).
    destruct (IH (weight s1) (step_at_weight i Resolve s s1 Hs) s1 eq_refl
                (sys_inv_step i Resolve s s1 Hinv Hs)) as (sched & s' & Hres & Hrun & Hfin).
    exists ((i, Resolve) :: sched), s'. split; [by constructor|]. split; [|done].
    simpl. by rewrite Hs.
  - exists [], s. split; [constructor|]. split; [done|].
    apply Forall_Exists_neg in Hall. eapply Forall_impl; [exact Hall|].
    intros t Ht. simpl in Ht. by destruct (completed t).
Qed.

Lemma task_weight_le (t : Task) : (task_weight t ≤ 6)%nat.
Proof.
  destruct t as [n b|n [| |b]|n b|n [|b|h|v]]; cbn [task_weight]; try lia;
    destruct b; cbn [browser_weight]; lia.
Qed.

Lemma weight_le (s : System) : (weight s ≤ 6 * length (tasks s))%nat.
Proof.
  unfold weight. induction (tasks s) as [|t ts IH]; [simpl; lia|].
  rewrite fmap_cons.
  change (sum_list (task_weight t :: (task_weight <$> ts)))
    with (task_weight t + sum_list (task_weight <$> ts))%nat.
  pose proof (task_weight_le t). simpl length. lia.
Qed.

(** X9.  The calls never lock each other out.  Take any calls of
    [getBrowserHandle], [newPage], [newPage1] and [closeBrowser], for any
    instances, issued over a well-formed store while nothing is in
    flight, and any run of them, with the external library resolving or
    rejecting as it likes.  From the state reached, if the external
    library resolves from then on, the calls can be run until every one
    has settled, and then no key is held. *)
Theorem calls_never_deadlock (s0 s : System) (sched : list (nat * Response)) :
  store_wf (store (shared s0)) →
  quiescent s0 →
  run sched s0 = Some s →
  ∃ sched' s',
    all_resolve sched'
    ∧ run sched' s = Some s'
    ∧ Forall (λ t, completed t = true) (tasks s')
    ∧ held (shared s') = ∅.
Proof.
  intros Hwf Hq Hrun.
  assert (Hinv : sys_inv s) by (eapply sys_inv_run; [by apply sys_inv_quiescent | done]).
  destruct (calls_complete s Hinv) as (sched' & s' & Hres & Hrun' & Hall).
  exists sched', s'. split; [done|]. split; [done|]. split; [done|].
  apply completed_free; [|done].
  by destruct (sys_inv_run sched' s s' Hinv Hrun').
Qed.

(** X10.  However a run of calls issued while nothing was in flight goes,
    with the external library resolving or rejecting: once every call
    has settled no key is held, so a failed launch or a failed close
    leaves nothing locked; and no call moves more than six times, so the
    run is no longer than six steps for each call. *)
Theorem settled_calls_hold_no_key (s0 s : System) (sched : list (nat * Response)) :
  quiescent s0 →
  run sched s0 = Some s →
  (Forall (λ t, completed t = true) (tasks s) → held (shared s) = ∅)
  ∧ (length sched ≤ 6 * length (tasks s0))%nat.
Proof.
  intros Hq Hrun. split.
  - apply completed_free. by eapply lock_inv_run.
  - pose proof (run_bounded sched s0 s Hrun). pose proof (weight_le s0). lia.
Qed.

Lemma example_store_persistent_wf : store_wf example_store_persistent.
Proof.
  apply (store_wf_alter initial_store 0%nat (set_userDataDir (Some "/tmp/profile")));
    [done | apply initial_store_wf].
Qed.

Lemma example_close_and_launch_quiescent : quiescent example_close_and_launch.
Proof. split; [reflexivity | repeat constructor]. Qed.

Lemma calls_never_deadlock_witness :
  ∃ sched' s',
    all_resolve sched'
    ∧ run sched' example_mixed_run = Some s'
    ∧ Forall (λ t, completed t = true) (tasks s')
    ∧ held (shared s') = ∅.
Proof.
  assert (Hrun : run example_mixed_schedule example_close_and_launch
                 = Some example_mixed_run) by by_evaluation.
  exact (calls_never_deadlock example_close_and_launch example_mixed_run
           example_mixed_schedule example_store_persistent_wf
           example_close_and_launch_quiescent Hrun).
Defined.

Lemma settled_calls_hold_no_key_witness :
  tasks example_mixed_done
  = [TGetBrowserHandle "default" (BRejected (LibraryError 2%nat));
     TCloseBrowser "default" (CResolved (Some "closed"));
     TGetBrowserHandle "default" (BResolved 0%nat)]
  ∧ held (shared example_mixed_done) = ∅.
Proof.
  assert (Hrun : run (example_mixed_schedule ++ [(2%nat, Resolve); (2%nat, Resolve)])
                   example_close_and_launch = Some example_mixed_done) by by_evaluation.
  assert (Hts : tasks example_mixed_done
                = [TGetBrowserHandle "default" (BRejected (LibraryError 2%nat));
                   TCloseBrowser "default" (CResolved (Some "closed"));
                   TGetBrowserHandle "default" (BResolved 0%nat)]) by by_evaluation.
  split; [exact Hts|].
  apply (proj1 (settled_calls_hold_no_key example_close_and_launch example_mixed_done _
                  example_close_and_launch_quiescent Hrun)).
  rewrite Hts. repeat constructor.
Defined.


(** ** Keys of different instances *)

Lemma start_blocked (r : Response) (t : Task) (sh : Shared) :
  browser_pc t = Some BStart → launch_key (task_name t) ∈ held sh →
  task_step r t sh = None.
Proof.
  intros Hb Hheld.
  destruct t as [m b|m [| |b]|m b|m [|b|h|v]]; simpl in *; simplify_eq;
    simpl; by rewrite decide_True.
Qed.

(** X11.  The keys of the lock are strings built from the instance name,
    and the launch key of the instance ["close_" + n] is the close key of
    the instance [n].  So while a call of [closeBrowser] for [n] is
    suspended inside its section, no call of [browser] for the instance
    ["close_" + n] can enter its section: it waits although nothing of
    its own instance is in flight. *)
Theorem close_section_blocks_prefixed_instance (n : string) (s0 s : System)
    (sched : list (nat * Response)) (i j : nat) (ti tj : Task) (r : Response) :
  quiescent s0 →
  run sched s0 = Some s →
  tasks s !! i = Some ti →
  inside CloseSection n ti →
  tasks s !! j = Some tj →
  task_name tj = "close_" +:+ n →
  browser_pc tj = Some BStart →
  launch_key (task_name tj) = close_key n ∧ step_at j r s = None.
Proof.
  intros Hq Hrun Hi Hin Hj Hname Hb.
  assert (Hk : launch_key (task_name tj) = close_key n) by by rewrite Hname.
  split; [done|].
  pose proof (lock_inv_run sched s0 s Hq Hrun) as [_ Hheld].
  unfold step_at. rewrite Hj. simpl.
  rewrite (start_blocked r tj (shared s) Hb); [done|].
  rewrite Hk. apply Hheld. apply (task_keys_in_all (tasks s) i ti); [done|].
  by apply (inside_key CloseSection n ti).
Qed.

Lemma close_section_blocks_prefixed_instance_witness :
  ∃ s,
    run [(0%nat, Resolve)] example_prefixed = Some s
    ∧ tasks s = [TCloseBrowser "default" (CBrowser BStart);
                 TGetBrowserHandle "close_default" BStart]
    ∧ step_at 1 Resolve s = None.
Proof.
  assert (∃ s, run [(0%nat, Resolve)] example_prefixed = Some s
               ∧ tasks s = [TCloseBrowser "default" (CBrowser BStart);
                            TGetBrowserHandle "close_default" BStart])
    as (s & Hrun & Hts).
  { eexists. split; vm_compute; reflexivity. }
  exists s. split; [exact Hrun|]. split; [exact Hts|].
  assert (Hq : quiescent example_prefixed).
  { split; [by_evaluation | repeat constructor]. }
  refine (proj2 (close_section_blocks_prefixed_instance "default" example_prefixed s
                   [(0%nat, Resolve)] 0 1 (TCloseBrowser "default" (CBrowser BStart))
                   (TGetBrowserHandle "close_default" BStart) Resolve
                   Hq Hrun _ _ _ eq_refl eq_refl)).
  - by rewrite Hts.
  - split; [done|]. by eexists.
  - by rewrite Hts.
Defined.


(** ** [closeBrowser] with nothing to close, and a launch that fails half way *)

Lemma set_handles_None_id (c : ConfigValue) :
  browserHandle c = None → nonPersistantBrowserHandle c = None →
  set_nonPersistantBrowserHandle None (set_browserHandle None c) = c.
Proof. destruct c. simpl. by intros -> ->. Qed.

Lemma alter_same {A} (f : A → A) (l : list A) (i : nat) (x : A) :
  l !! i = Some x → f x = x → alter f i l = l.
Proof.
  intros Hx Hf. apply list_eq. intros j. destruct (decide (j = i)) as [->|Hne].
  - by rewrite list_lookup_alter_eq, Hx; simpl; rewrite Hf.
  - by rewrite list_lookup_alter_ne.
Qed.

Lemma close_clear_nothing (n : string) (sh : Shared) (l : loc) (c : ConfigValue) :
  get_record (store sh) n = Some (l, c) →
  browserHandle c = None → nonPersistantBrowserHandle c = None →
  close_clear n sh = (CResolved (Some "closed"), sh).
Proof.
  intros Hrec Hb Hnp. unfold close_clear. rewrite Hrec. f_equal.
  apply get_record_Some in Hrec as [_ Hc].
  destruct sh as [[cfg rs aa ha] hd tr nh]. unfold update_record, with_store. simpl in *.
  f_equal. unfold set_records. simpl. f_equal.
  rewrite (alter_same (set_browserHandle None) rs l c Hc).
  - apply (alter_same _ rs l c Hc). destruct c; simpl in *; by subst.
  - destruct c; simpl in *; by subst.
Qed.

(** X12.  [closeBrowser] on a configured instance that has no browser,
    its close key being free, resolves with ["closed"] in one step and
    does nothing: no call of the external library, no key taken, the
    state unchanged.  This is the case after a [closeBrowser] that
    resolved with ["closed"]: closing twice closes once. *)
Theorem close_without_browser_does_nothing (n : string) (sh : Shared) (r : Response) :
  handles_cleared n (store sh) →
  close_key n ∉ held sh →
  task_step r (TCloseBrowser n CStart) sh
  = Some (TCloseBrowser n (CResolved (Some "closed")), sh).
Proof.
  intros (l & c & Hrec & Hb & Hnp) Hfree. simpl.
  rewrite decide_False by done. simpl. unfold close_enter. rewrite Hrec, Hnp, Hb.
  by rewrite (close_clear_nothing n sh l c Hrec Hb Hnp).
Qed.

Lemma close_without_browser_does_nothing_witness :
  task_step Resolve (TCloseBrowser "default" CStart) initial_shared
  = Some (TCloseBrowser "default" (CResolved (Some "closed")), initial_shared).
Proof.
  apply (close_without_browser_does_nothing "default" initial_shared Resolve).
  - by exists 0%nat, defaultConfig.
  - apply not_elem_of_empty.
Defined.

(** X13.  When [newContext] rejects, [browser] logs and rejects, and that
    is all: the browser that [launch] had returned stays in
    [nonPersistantBrowserHandle], nothing closes it, and [browserHandle]
    stays [undefined].  The next handle request therefore launches a
    second browser, and stores it over the first: afterwards no field
    of the record refers to the first browser, which was never closed. *)
Theorem failed_newContext_leaves_browser_open (n : string) (sh : Shared) (ic : loc)
    (c : ConfigValue) (b : Handle) (e : Err) :
  get_record (store sh) n = Some (ic, c) →
  browserHandle c = None →
  nonPersistantBrowserHandle c = Some b →
  truthy (userDataDir c) = None →
  is_Some (arg_arrays (store sh) !! args c) →
  (b < next_handle sh)%nat →
  ∃ sh1,
    browser_step n (Reject e) (BNewContext ic b) sh = Some (BRejected e, sh1)
    ∧ trace sh1 = trace sh ++ [EvError "Error on starting new page: Lock Error ->" e]
    ∧ store sh1 = store sh
    ∧ ∃ s2 o co c2,
        run [(0%nat, Resolve); (0%nat, Resolve); (0%nat, Resolve)]
          {| shared := sh1; tasks := [TGetBrowserHandle n BStart] |} = Some s2
        ∧ tasks s2 = [TGetBrowserHandle n (BResolved (S (next_handle sh)))]
        ∧ trace (shared s2)
          = trace sh1 ++ [EvLaunch n (browser c) o; EvNewContext (next_handle sh) co]
        ∧ get_record (store (shared s2)) n = Some (ic, c2)
        ∧ nonPersistantBrowserHandle c2 = Some (next_handle sh)
        ∧ browserHandle c2 = Some (S (next_handle sh))
        ∧ next_handle sh ≠ b ∧ S (next_handle sh) ≠ b.
Proof.
  intros Hrec Hbh Hnp Hdir [a Ha] Hlt.
  eexists. split; [reflexivity|]. split; [done|]. split; [done|].
  set (sh1 := emit (EvError "Error on starting new page: Lock Error ->" e)
                (release (launch_key n) sh)).
  set (o := launchOption c (launch_args c a)).
  set (sh2 := emit (EvLaunch n (browser c) o) (acquire (launch_key n) sh1)).
  set (sh3 := emit (EvNewContext (next_handle sh) (contextOption c))
                (update_record ic (set_nonPersistantBrowserHandle (Some (next_handle sh)))
                   (new_handle sh2))).
  set (sh4 := release (launch_key n)
                (update_record ic (set_browserHandle (Some (S (next_handle sh))))
                   (new_handle sh3))).
  assert (H1 : task_step Resolve (TGetBrowserHandle n BStart) sh1
               = Some (TGetBrowserHandle n (BLaunch ic), sh2)).
  { simpl. rewrite decide_False by set_solver. simpl.
    unfold browser_enter. simpl. by rewrite Hrec, Hbh, Ha, Hdir. }
  assert (H2 : task_step Resolve (TGetBrowserHandle n (BLaunch ic)) sh2
               = Some (TGetBrowserHandle n (BNewContext ic (next_handle sh)), sh3)).
  { simpl. apply get_record_Some in Hrec as [_ ->]. done. }
  assert (H3 : task_step Resolve (TGetBrowserHandle n (BNewContext ic (next_handle sh))) sh3
               = Some (TGetBrowserHandle n (BResolved (S (next_handle sh))), sh4)).
  { done. }
  exists {| shared := sh4; tasks := [TGetBrowserHandle n (BResolved (S (next_handle sh)))] |},
    o, (contextOption c),
    (set_browserHandle (Some (S (next_handle sh)))
       (set_nonPersistantBrowserHandle (Some (next_handle sh)) c)).
  split.
  { cbn [run]. rewrite (step_single _ _ _ _ _ H1). cbn [mbind option_bind].
    rewrite (step_single _ _ _ _ _ H2). cbn [mbind option_bind].
    by rewrite (step_single _ _ _ _ _ H3). }
  split; [done|]. split.
  { simpl. by rewrite <- !app_assoc. }
  split.
  { cbn [shared store sh4 sh3 sh2 sh1 release update_record with_store emit new_handle
         acquire].
    erewrite get_record_alter.
    2:{ erewrite get_record_alter; [|exact Hrec]. by rewrite decide_True. }
    by rewrite decide_True. }
  split; [done|]. split; [done|]. lia.
Qed.

Lemma failed_newContext_leaves_browser_open_witness :
  ∃ sh1,
    browser_step "default" (Reject (LibraryError 3%nat)) (BNewContext 0%nat 0%nat)
      example_shared_context_pending
    = Some (BRejected (LibraryError 3%nat), sh1)
    ∧ store sh1 = store example_shared_context_pending
    ∧ ∃ s2,
        run [(0%nat, Resolve); (0%nat, Resolve); (0%nat, Resolve)]
          {| shared := sh1; tasks := [TGetBrowserHandle "default" BStart] |} = Some s2
        ∧ tasks s2 = [TGetBrowserHandle "default" (BResolved 2%nat)].
Proof.
  assert (Hrec : get_record (store example_shared_context_pending) "default"
                 = Some (0%nat, set_nonPersistantBrowserHandle (Some 0%nat) defaultConfig))
    by by_evaluation.
  assert (Hnext : next_handle example_shared_context_pending = 1%nat) by by_evaluation.
  assert (Ha : is_Some (arg_arrays (store example_shared_context_pending)
                          !! args (set_nonPersistantBrowserHandle (Some 0%nat)
                                     defaultConfig))).
  { exists []. by_evaluation. }
  assert (Hlt : (0 < next_handle example_shared_context_pending)%nat)
    by (rewrite Hnext; lia).
  destruct (failed_newContext_leaves_browser_open "default" example_shared_context_pending
              0%nat _ 0%nat (LibraryError 3%nat) Hrec eq_refl eq_refl eq_refl Ha Hlt)
    as (sh1 & Hstep & _ & Hstore & s2 & o & co & c2 & Hrun & Hts & _).
  exists sh1. split; [exact Hstep|]. split; [exact Hstore|].
  exists s2. split; [exact Hrun|]. by rewrite Hts, Hnext.
Defined.


(** ** [makePageFaster], call by call *)

Lemma hook_calls_filter (f : PageEvent → bool) (hs : list Hook) (page : Page) :
  (∀ a, f (PHookAction a page) = false) →
  filter (λ ev, f ev = true) (hook_calls hs page) = [].
Proof.
  intros Hf. unfold hook_calls.
  induction (filter (λ v, hook_name v = "make_page_faster") hs) as [|h l IH]; [done|].
  simpl. rewrite filter_cons_False; [done|]. by rewrite Hf.
Qed.

Ltac page_cases c env :=
  destruct (decide (browser c = chromium));
  destruct (env_newCDPSession env);
  destruct (enableStealth c);
  destruct (env_pageStealth env) as [[]|];
  destruct (env_addScriptTag env) as [[]|];
  destruct (showPageError c);
  destruct (blockCSS c || blockFonts c || blockImages c);
  destruct (env_send env) as [[]|].

(** X14.  [makePageFaster] on a configured instance begins with the
    hooks: it calls the action of every hook registered under the name
    ["make_page_faster"], in the order of registration, each once, with
    the page, and no hook of another name.  Then it sets the navigation
    time-out and the default time-out of the page, both to
    [defaultNavigationTimeout].  All this happens before the first
    awaited call and whatever the awaited calls do; no later call is a
    hook or sets a time-out. *)
Theorem makePageFaster_starts_with_hooks_and_timeouts (page : Page) (n : string)
    (st : Store) (env : PageEnv) (ic : loc) (c : ConfigValue) (hs : list Hook) :
  get_record st n = Some (ic, c) →
  hook_arrays st !! hooks c = Some hs →
  ∃ rest,
    (makePageFaster page n st env).1
    = hook_calls hs page
      ++ PSetDefaultNavigationTimeout page (defaultNavigationTimeout c)
         :: PSetDefaultTimeout page (defaultNavigationTimeout c) :: rest
    ∧ Forall (λ ev, is_hook_or_timeout ev = false) rest.
Proof.
  intros Hrec Hhooks. unfold makePageFaster. rewrite Hrec, Hhooks.
  unfold loadHooks, call, await, when, ret. fold (hook_calls hs page).
  page_cases c env; cbn; eexists; (split; [reflexivity|]); repeat constructor.
Qed.

Lemma makePageFaster_starts_with_hooks_and_timeouts_witness :
  ∃ rest,
    (makePageFaster 3%nat "b" (store (shared example_session_state)) example_env).1
    = PHookAction 5%nat 3%nat
      :: PSetDefaultNavigationTimeout 3%nat 30000
      :: PSetDefaultTimeout 3%nat 30000 :: rest.
Proof.
  assert (Hrec : get_record (store (shared example_session_state)) "b"
                 = Some (2%nat, defaultConfig)) by by_evaluation.
  assert (Hh : hook_arrays (store (shared example_session_state)) !! hooks defaultConfig
               = Some [{| hook_name := "make_page_faster"; hook_action := 5%nat |}])
    by by_evaluation.
  destruct (makePageFaster_starts_with_hooks_and_timeouts 3%nat "b" _ example_env
              _ _ _ Hrec Hh) as (rest & Hev & _).
  exists rest. exact Hev.
Defined.

Lemma makePageFaster_hook_calls (page : Page) (n : string) (st : Store) (env : PageEnv)
    (ic : loc) (c : ConfigValue) (hs : list Hook) :
  get_record st n = Some (ic, c) → hook_arrays st !! hooks c = Some hs →
  filter (λ ev, is_hook_action ev = true) (makePageFaster page n st env).1
  = hook_calls hs page.
Proof.
  intros Hrec Hhooks. unfold makePageFaster. rewrite Hrec, Hhooks.
  unfold loadHooks, call, await, when, ret. fold (hook_calls hs page).
  assert (Hall : filter (λ ev, is_hook_action ev = true) (hook_calls hs page)
                 = hook_calls hs page).
  { unfold hook_calls.
    induction (filter (λ v, hook_name v = "make_page_faster") hs) as [|h l IH]; [done|].
    simpl. rewrite filter_cons_True by done. by rewrite IH. }
  page_cases c env; cbn; rewrite filter_app, Hall; by rewrite app_nil_r.
Qed.

Lemma addHook_get_record (st st' : Store) (m n : string) (name : string) (action : nat) :
  fastPage.addHook m name action st = Ok st' → get_record st' n = get_record st n.
Proof.
  unfold fastPage.addHook. destruct (get_record st m) as [[l c]|]; [|done].
  destruct (hook_arrays st !! hooks c); [|done]. by intros [= <-].
Qed.

(** X15.  In every state a program can reach, a hook added with
    [addHook] under the name ["make_page_faster"] on any configured
    instance is called by [makePageFaster] for the pages of every
    configured instance, after the hooks registered before; a hook added
    under any other name is never called: [makePageFaster] makes the
    same calls, with the same outcome, as without it. *)
Theorem added_hook_runs_for_every_instance (acts : list Action) (s : System)
    (m n : string) (name : string) (action : nat) (st' : Store) (vn : ConfigView)
    (page : Page) (env : PageEnv) :
  session acts loaded = Some s →
  fastPage.addHook m name action (store (shared s)) = Ok st' →
  view (store (shared s)) n = Some vn →
  (name = "make_page_faster" →
     filter (λ ev, is_hook_action ev = true) (makePageFaster page n st' env).1
     = filter (λ ev, is_hook_action ev = true)
         (makePageFaster page n (store (shared s)) env).1
       ++ [PHookAction action page])
  ∧ (name ≠ "make_page_faster" →
     makePageFaster page n st' env = makePageFaster page n (store (shared s)) env).
Proof.
  intros Hrun Hadd Hn.
  pose proof (session_store_inv acts s Hrun) as Hinv.
  pose proof (addHook_view _ _ m n name action vn Hinv Hadd Hn) as Hn'.
  apply view_Some in Hn as (l & Hrec & _ & Hh).
  apply view_Some in Hn' as (l' & Hrec' & _ & Hh'). simpl in Hrec', Hh'.
  rewrite (addHook_get_record _ _ _ n _ _ Hadd), Hrec in Hrec'.
  injection Hrec' as <-.
  pose proof (addHook_get_record _ _ _ n _ _ Hadd) as Hrec'. rewrite Hrec in Hrec'.
  split.
  - intros ->.
    rewrite (makePageFaster_hook_calls page n st' env _ _ _ Hrec' Hh').
    rewrite (makePageFaster_hook_calls page n _ env _ _ _ Hrec Hh).
    unfold hook_calls. rewrite filter_app, map_app.
    f_equal; by rewrite ?filter_cons_True.
  - intros Hne. unfold makePageFaster. rewrite Hrec, Hrec', Hh, Hh'.
    unfold loadHooks. rewrite filter_app, filter_cons_False, app_nil_r; done.
Qed.

Lemma added_hook_runs_for_every_instance_witness :
  ∃ st',
    fastPage.addHook "a" "make_page_faster" 9%nat (store (shared example_session_state))
    = Ok st'
    ∧ filter (λ ev, is_hook_action ev = true) (makePageFaster 3%nat "b" st' example_env).1
      = [PHookAction 5%nat 3%nat; PHookAction 9%nat 3%nat].
Proof.
  assert (Hrun : session example_session loaded = Some example_session_state)
    by by_evaluation.
  destruct (fastPage.addHook "a" "make_page_faster" 9%nat
              (store (shared example_session_state))) as [st'|] eqn:Hadd;
    [|by vm_compute in Hadd].
  assert (Hb : view (store (shared example_session_state)) "b"
               = Some {| view_record := defaultConfig; view_args := ["--foo"];
                         view_hooks := [{| hook_name := "make_page_faster";
                                           hook_action := 5%nat |}] |})
    by by_evaluation.
  assert (Hold : filter (λ ev, is_hook_action ev = true)
                   (makePageFaster 3%nat "b" (store (shared example_session_state))
                      example_env).1 = [PHookAction 5%nat 3%nat]) by by_evaluation.
  exists st'. split; [reflexivity|].
  rewrite (proj1 (added_hook_runs_for_every_instance example_session
                    example_session_state "a" "b" "make_page_faster" 9%nat st' _
                    3%nat example_env Hrun Hadd Hb) eq_refl).
  by rewrite Hold.
Defined.


Ltac page_cases_eqn c env :=
  destruct (decide (browser c = chromium));
  destruct (env_newCDPSession env) eqn:?;
  destruct (enableStealth c);
  destruct (env_pageStealth env) as [[]|] eqn:?;
  destruct (env_addScriptTag env) as [[]|] eqn:?;
  destruct (showPageError c);
  destruct (blockCSS c || blockFonts c || blockImages c);
  destruct (env_send env) as [[]|] eqn:?.

(** X16.  How [makePageFaster] fails.  On a name without a record it
    rejects with a [TypeError] before any call is made on the page.  On
    a configured instance, when it rejects, the last call it made is an
    awaited call — [newCDPSession], [pageStealth], [addScriptTag] or
    [send] — which rejected with the same error: nothing is caught and
    nothing runs after the failure.  Unless the failing call is the final
    [send], no listener has been installed on the page. *)
Theorem makePageFaster_stops_at_first_failure (page : Page) (n : string) (st : Store)
    (env : PageEnv) :
  (get_record st n = None → makePageFaster page n st env = ([], Throw TypeError))
  ∧ (∀ ic c hs e,
       get_record st n = Some (ic, c) →
       hook_arrays st !! hooks c = Some hs →
       (makePageFaster page n st env).2 = Throw e →
       ∃ before ev,
         (makePageFaster page n st env).1 = before ++ [ev]
         ∧ rejects env ev e
         ∧ (is_send ev = false →
            filter (λ ev, is_listener ev = true) (makePageFaster page n st env).1 = [])).
Proof.
  split.
  - intros Hrec. unfold makePageFaster. by rewrite Hrec.
  - intros ic c hs e Hrec Hhooks. unfold makePageFaster. rewrite Hrec, Hhooks.
    unfold loadHooks, call, await, when, ret. fold (hook_calls hs page).
    pose proof (hook_calls_filter is_listener hs page (λ _, eq_refl)) as Hnone.
    page_cases_eqn c env; cbn; intros Hres; try discriminate Hres;
      injection Hres as ->;
      lazymatch goal with
      | |- context [hook_calls hs page ++ ?L] =>
          exists (hook_calls hs page ++ removelast L); eexists;
          (split; [rewrite <- app_assoc; reflexivity|])
      end;
      (split; [done|]); intros Hs; try discriminate Hs;
      by rewrite filter_app, Hnone.
Qed.

Lemma makePageFaster_stops_at_first_failure_witness :
  makePageFaster 3%nat "nobody" initial_store example_env = ([], Throw TypeError)
  ∧ ∃ before ev,
      (makePageFaster 3%nat "default" initial_store
         {| env_newCDPSession := Ok 7%nat; env_pageStealth := Throw (LibraryError 4%nat);
            env_addScriptTag := Ok tt; env_send := Ok tt |}).1 = before ++ [ev]
      ∧ ev = PPageStealth 3%nat.
Proof.
  destruct (makePageFaster_stops_at_first_failure 3%nat "nobody" initial_store example_env)
    as [Hnone _].
  split; [exact (Hnone eq_refl)|].
  destruct (makePageFaster_stops_at_first_failure 3%nat "default" initial_store
              {| env_newCDPSession := Ok 7%nat;
                 env_pageStealth := Throw (LibraryError 4%nat);
                 env_addScriptTag := Ok tt; env_send := Ok tt |}) as [_ Hfail].
  destruct (Hfail 0%nat defaultConfig [] (LibraryError 4%nat) eq_refl eq_refl eq_refl)
    as (before & ev & Hev & Hrej & _).
  exists before, ev. split; [exact Hev|].
  apply (f_equal (last (A:=PageEvent))) in Hev. rewrite last_snoc in Hev.
  by injection Hev as <-.
Defined.


Lemma elem_of_hook_calls_other (hs : list Hook) (page : Page) (ev : PageEvent) :
  is_hook_action ev = false → ev ∉ hook_calls hs page.
Proof.
  intros Hev Hin. unfold hook_calls in Hin.
  apply list_elem_of_fmap in Hin as (h & -> & _). done.
Qed.

Lemma makePageFaster_sets_timeouts (page : Page) (n : string) (st : Store)
    (env : PageEnv) (ic : loc) (c : ConfigValue) (hs : list Hook) :
  get_record st n = Some (ic, c) →
  hook_arrays st !! hooks c = Some hs →
  PSetDefaultNavigationTimeout page (defaultNavigationTimeout c)
    ∈ (makePageFaster page n st env).1
  ∧ PSetDefaultTimeout page (defaultNavigationTimeout c)
    ∈ (makePageFaster page n st env).1.
Proof.
  intros Hrec Hhooks. unfold makePageFaster. rewrite Hrec, Hhooks.
  unfold loadHooks, call, await, when, ret. fold (hook_calls hs page).
  page_cases c env; cbn; split; apply elem_of_app; right;
    (apply list_elem_of_here || (apply list_elem_of_further, list_elem_of_here)).
Qed.

(** X17.  What the setters of the page options do to the next page of a
    configured instance.  After [setStealth(false)], [makePageFaster]
    never calls [pageStealth].  After [setDefaultNavigationTimeout(v)] it
    sets both the navigation time-out and the default time-out of the
    page to [v].  After [setShowPageError(true)], when it resolves, it
    has installed two listeners for ["pageerror"], so that every page
    error is logged twice; after [setShowPageError(false)] it installs
    none. *)
Theorem page_setters_take_effect (page : Page) (n : string) (st : Store) (env : PageEnv)
    (ic : loc) (c : ConfigValue) (hs : list Hook) :
  get_record st n = Some (ic, c) →
  hook_arrays st !! hooks c = Some hs →
  (∀ st', fastPage.setStealth n false st = Ok st' →
     PPageStealth page ∉ (makePageFaster page n st' env).1)
  ∧ (∀ v st', fastPage.setDefaultNavigationTimeout n v st = Ok st' →
       PSetDefaultNavigationTimeout page v ∈ (makePageFaster page n st' env).1
       ∧ PSetDefaultTimeout page v ∈ (makePageFaster page n st' env).1)
  ∧ (∀ st' r, fastPage.setShowPageError n true st = Ok st' →
       (makePageFaster page n st' env).2 = Ok r →
       filter (λ ev, is_page_error_listener ev = true) (makePageFaster page n st' env).1
       = [POn page "pageerror" PageErrorListener1;
          POn page "pageerror" PageErrorListener2])
  ∧ (∀ st', fastPage.setShowPageError n false st = Ok st' →
       filter (λ ev, is_page_error_listener ev = true) (makePageFaster page n st' env).1
       = []).
Proof.
  intros Hrec Hhooks.
  assert (Hafter : ∀ f st', (∀ c, hooks (f c) = hooks c) → assign n f st = Ok st' →
            get_record st' n = Some (ic, f c)
            ∧ hook_arrays st' !! hooks (f c) = Some hs).
  { intros f st' Hf Hassign.
    destruct (assign_get_record _ _ _ _ Hassign) as (l & c0 & H0 & H1 & _ & Hh).
    rewrite Hrec in H0. injection H0 as <- <-. by rewrite Hh, Hf. }
  pose proof (hook_calls_filter is_page_error_listener hs page (λ _, eq_refl)) as Hnone.
  split; [|split; [|split]].
  - intros st' Hset. destruct (Hafter (set_enableStealth false) _ (λ _, eq_refl) Hset) as [Hrec' Hh'].
    unfold makePageFaster. rewrite Hrec', Hh'.
    unfold loadHooks, call, await, when, ret. fold (hook_calls hs page).
    change (enableStealth (set_enableStealth false c)) with false.
    cbn [browser set_enableStealth showPageError blockCSS blockFonts blockImages
         defaultNavigationTimeout].
    page_cases c env; cbn; rewrite elem_of_app;
      (intros [Hin|Hin]; [by apply elem_of_hook_calls_other in Hin|]);
      repeat (apply elem_of_cons in Hin as [Hin|Hin]; [discriminate Hin|]);
      by apply elem_of_nil in Hin.
  - intros v st' Hset. destruct (Hafter (set_defaultNavigationTimeout v) _ (λ _, eq_refl) Hset) as [Hrec' Hh'].
    apply (makePageFaster_sets_timeouts page n st' env ic _ hs Hrec' Hh').
  - intros st' r Hset. destruct (Hafter (set_showPageError true) _ (λ _, eq_refl) Hset) as [Hrec' Hh'].
    unfold makePageFaster. rewrite Hrec', Hh'.
    unfold loadHooks, call, await, when, ret. fold (hook_calls hs page).
    change (showPageError (set_showPageError true c)) with true.
    cbn [browser set_showPageError enableStealth blockCSS blockFonts blockImages
         defaultNavigationTimeout].
    page_cases c env; cbn; intros Hres; try discriminate Hres;
      by rewrite filter_app, Hnone.
  - intros st' Hset. destruct (Hafter (set_showPageError false) _ (λ _, eq_refl) Hset) as [Hrec' Hh'].
    unfold makePageFaster. rewrite Hrec', Hh'.
    unfold loadHooks, call, await, when, ret. fold (hook_calls hs page).
    change (showPageError (set_showPageError false c)) with false.
    cbn [browser set_showPageError enableStealth blockCSS blockFonts blockImages
         defaultNavigationTimeout].
    page_cases c env; cbn; by rewrite filter_app, Hnone.
Qed.

Lemma page_setters_take_effect_witness :
  ∃ st',
    fastPage.setStealth "default" false initial_store = Ok st'
    ∧ PPageStealth 3%nat ∉ (makePageFaster 3%nat "default" st' example_env).1.
Proof.
  destruct (fastPage.setStealth "default" false initial_store) as [st'|] eqn:Hset;
    [|discriminate Hset].
  exists st'. split; [reflexivity|].
  exact (proj1 (page_setters_take_effect 3%nat "default" initial_store example_env
                  0%nat defaultConfig [] eq_refl eq_refl) st' Hset).
Defined.


(** ** [waitForFrame] with an empty pattern *)

Lemma includes_empty (s : string) : includes s "" = true.
Proof. by destruct s. Qed.

(** X18.  Every URL contains the empty string, so
    [waitForFrame(page, "")] does not wait for any frame in particular:
    it returns the first frame of the first scan in which the page has a
    frame at all, after one sleep of 100 ms for every scan that found the
    page without frames. *)
Theorem waitForFrame_empty_pattern (frames : FrameSource) (k : nat) (f : Frame)
    (rest : list Frame) (fuel : nat) :
  (∀ j, (j < k)%nat → frames j = []) →
  frames k = f :: rest →
  (k < fuel)%nat →
  waitForFrame fuel frames "" = Some (f, replicate k 100%Z).
Proof.
  intros Hnone Hk Hfuel. unfold waitForFrame.
  rewrite (waitForFrame_loop_found frames "" k 0 [] f fuel); try done.
  - intros j Hj. rewrite Hnone by lia. done.
  - simpl. rewrite Hk. simpl. unfold matches. by rewrite includes_empty.
Qed.

Lemma waitForFrame_empty_pattern_witness :
  waitForFrame 1 example_frames "" = Some ({| frame_id := 0; url := "about:blank" |}, []).
Proof.
  apply (waitForFrame_empty_pattern example_frames 0
           {| frame_id := 0; url := "about:blank" |} [] 1).
  - intros j Hj. lia.
  - reflexivity.
  - lia.
Defined.


(** ** [pageStealth] *)

Ltac stealth_cases env :=
  destruct (env_userAgent env) eqn:?;
  destruct (env_setUserAgent env) as [[]|] eqn:?;
  destruct (env_evaluateOnNewDocument env RuntimeStealth) as [[]|] eqn:?;
  destruct (env_evaluateOnNewDocument env ConsoleDebug) as [[]|] eqn:?;
  destruct (env_evaluateOnNewDocument env NavigatorLanguages) as [[]|] eqn:?;
  destruct (env_evaluateOnNewDocument env NavigatorPermissions) as [[]|] eqn:?;
  destruct (env_evaluateOnNewDocument env NavigatorWebDriver) as [[]|] eqn:?;
  destruct (env_evaluateOnNewDocument env WebGlVendor) as [[]|] eqn:?;
  destruct (env_evaluateOnNewDocument env OuterWindow) as [[]|] eqn:?.

(** X19.  [pageStealth] asks the browser for its user agent, sets the
    rewritten user agent on the page, and registers seven scripts, in the
    order [runtimeStealth], [consoleDebug], [navigatorLanguages],
    [navigatorPermissions], [navigatorWebDriver], [webGlVendor],
    [outerWindow].  When every call resolves it makes exactly these
    calls and resolves.  The script of [navigatorPlugin], which the file
    defines, is never registered.  When [pageStealth] rejects, the last
    call it made is the one that rejected, with the same error: the
    scripts after it are not registered. *)
Theorem pageStealth_registers_seven_scripts (page : Page) (env : StealthEnv) :
  (∀ ua,
     env_userAgent env = Ok ua → env_setUserAgent env = Ok tt →
     (∀ p, env_evaluateOnNewDocument env p = Ok tt) →
     pageStealth page env = (stealth_calls page ua, Ok tt))
  ∧ (SEvaluateOnNewDocument page NavigatorPlugin ∉ (pageStealth page env).1)
  ∧ (∀ e, (pageStealth page env).2 = Throw e →
       ∃ before c, (pageStealth page env).1 = before ++ [c] ∧ stealth_rejects env c e)
  ∧ (∀ ua, env_userAgent env = Ok ua →
       ((pageStealth page env).1) `prefix_of` (stealth_calls page ua)).
Proof.
  split; [|split; [|split]].
  - intros ua Hua Hset Hev. unfold pageStealth, runtimeStealth, consoleDebug,
      navigatorLanguages, navigatorPermissions, navigatorWebDriver, webGlVendor,
      outerWindow, evaluateOnNewDocument.
    by rewrite Hua, Hset, !Hev.
  - unfold pageStealth, runtimeStealth, consoleDebug,
      navigatorLanguages, navigatorPermissions, navigatorWebDriver, webGlVendor,
      outerWindow, evaluateOnNewDocument.
    stealth_cases env; cbn; intros Hin;
      repeat (apply elem_of_cons in Hin as [Hin|Hin]; [discriminate Hin|]);
      by apply elem_of_nil in Hin.
  - intros e. unfold pageStealth, runtimeStealth, consoleDebug,
      navigatorLanguages, navigatorPermissions, navigatorWebDriver, webGlVendor,
      outerWindow, evaluateOnNewDocument.
    stealth_cases env; cbn; intros Hres; try discriminate Hres; injection Hres as ->;
      lazymatch goal with
      | |- ∃ before c, ?L = _ ∧ _ =>
          exists (removelast L); eexists; (split; [reflexivity|]); done
      end.
  - intros ua Hua. unfold pageStealth, runtimeStealth, consoleDebug,
      navigatorLanguages, navigatorPermissions, navigatorWebDriver, webGlVendor,
      outerWindow, evaluateOnNewDocument, stealth_calls. rewrite Hua.
    stealth_cases env; cbn; try discriminate;
      lazymatch goal with
      | |- ?L `prefix_of` ?M => exists (drop (length L) M); reflexivity
      end.
Qed.

Lemma pageStealth_registers_seven_scripts_witness :
  pageStealth 3%nat example_stealth_env
  = (stealth_calls 3%nat
       "Mozilla/5.0 (X11; Linux x86_64) AppleWebKit/537.36 (KHTML, like Gecko) HeadlessChrome/80.0.3987.87 Safari/537.36",
     Ok tt).
Proof.
  apply (proj1 (pageStealth_registers_seven_scripts 3%nat example_stealth_env)).
  - reflexivity.
  - reflexivity.
  - intros p. reflexivity.
Defined.


(** ** The user agent of [pageStealth] *)

Lemma string_app_cons (a : Ascii.ascii) (x y : string) :
  String a x +:+ y = String a (x +:+ y).
Proof. done. Qed.

Lemma string_app_nil (y : string) : "" +:+ y = y.
Proof. done. Qed.

Lemma includes_cons (a : Ascii.ascii) (s sub : string) :
  includes (String a s) sub = String.prefix sub (String a s) || includes s sub.
Proof. done. Qed.

Lemma includes_cons_false (a : Ascii.ascii) (s sub : string) :
  includes (String a s) sub = false →
  String.prefix sub (String a s) = false ∧ includes s sub = false.
Proof. rewrite includes_cons. by intros [? ?]%orb_false_iff. Qed.

Lemma includes_nil_false (sub : string) :
  includes "" sub = false → String.prefix sub "" = false.
Proof. cbn [includes]. by rewrite orb_false_r. Qed.

Lemma not_includes_char (c : string) (a : Ascii.ascii) (s : string) :
  String.length c = 1%nat → includes (String a s) c = false → is_char c a = false.
Proof.
  intros Hlen [Hp _]%includes_cons_false. unfold is_char.
  destruct c as [|q [|? ?]]; try done. cbn in Hp.
  destruct (Ascii.ascii_dec q a) as [->|Hne]; [by destruct s|].
  apply bool_decide_eq_false. intros [= ->]. done.
Qed.

Lemma is_char_refl (c : string) (a : Ascii.ascii) :
  c = String a "" → is_char c a = true.
Proof. intros ->. unfold is_char. by apply bool_decide_eq_true. Qed.

Lemma match_group_found (p r : string) (seen : bool) :
  includes p ")" = false → seen = true ∨ p ≠ "" →
  match_group seen (p +:+ ")" +:+ r) = Some r.
Proof.
  revert seen. induction p as [|a p IH]; intros seen Hp Hseen.
  - destruct Hseen as [-> | ?]; [|done]. rewrite string_app_nil, string_app_cons.
    cbn [match_group]. by rewrite (is_char_refl ")" _ eq_refl).
  - rewrite string_app_cons. cbn [match_group].
    rewrite (not_includes_char ")" a p eq_refl Hp).
    apply IH; [|by left]. by apply includes_cons_false in Hp as [_ ?].
Qed.

Lemma replace_group_found (w a p b : string) :
  includes a "(" = false → p ≠ "" → includes p ")" = false →
  replace_group w (a +:+ "(" +:+ p +:+ ")" +:+ b) = a +:+ w +:+ b.
Proof.
  intros Ha Hp Hnp. induction a as [|c a IH].
  - rewrite !string_app_nil, string_app_cons. cbn [replace_group].
    rewrite (is_char_refl "(" _ eq_refl), string_app_nil.
    by rewrite (match_group_found p b false Hnp (or_intror Hp)).
  - rewrite !string_app_cons. cbn [replace_group].
    rewrite (not_includes_char "(" c a eq_refl Ha). f_equal.
    apply IH. by apply includes_cons_false in Ha as [_ ?].
Qed.

Lemma replace_group_none (w s : string) :
  includes s "(" = false → replace_group w s = s.
Proof.
  induction s as [|c s IH]; intros Hs; [done|]. cbn [replace_group].
  rewrite (not_includes_char "(" c s eq_refl Hs). f_equal.
  apply IH. by apply includes_cons_false in Hs as [_ ?].
Qed.

Lemma replace_first_none (pat rep s : string) :
  includes s pat = false → replace_first pat rep s = s.
Proof.
  induction s as [|c s IH]; intros Hs.
  - cbn [replace_first]. by rewrite (includes_nil_false pat Hs).
  - cbn [replace_first]. apply includes_cons_false in Hs as [-> Hs]. f_equal. by apply IH.
Qed.

Lemma prefix_refl_app (pat post : string) : String.prefix pat (pat +:+ post) = true.
Proof. apply prefix_spec. by exists post. Qed.

Lemma string_drop_app (pat post : string) :
  string_drop (String.length pat) (pat +:+ post) = post.
Proof. induction pat as [|a pat IH]; [done|]. by rewrite string_app_cons. Qed.

Lemma string_app_assoc (x y z : string) : (x +:+ y) +:+ z = x +:+ (y +:+ z).
Proof. induction x as [|a x IH]; [done|]. by rewrite !string_app_cons, IH. Qed.

(** A prefix of [u +:+ v] that is no longer than [u] is a prefix of [u]. *)
Lemma prefix_app_short (pat u v : string) :
  String.prefix pat (u +:+ v) = true → (String.length pat ≤ String.length u)%nat →
  String.prefix pat u = true.
Proof.
  revert u. induction pat as [|q pat IH]; intros u Hp Hlen; [by destruct u|].
  destruct u as [|c u]; [simpl in Hlen; lia|].
  rewrite string_app_cons in Hp. cbn in Hp |- *.
  destruct (Ascii.ascii_dec q c); [|done]. apply IH; [done|]. simpl in Hlen. lia.
Qed.

Lemma prefix_includes (pat s : string) :
  String.prefix pat s = true → includes s pat = true.
Proof. intros Hp. destruct s; cbn [includes]; by rewrite Hp. Qed.

Lemma replace_first_here (pat rep s : string) :
  String.prefix pat s = true →
  replace_first pat rep s = rep +:+ string_drop (String.length pat) s.
Proof. intros Hp. destruct s; cbn [replace_first]; by rewrite Hp. Qed.

(** The first occurrence: no occurrence of the pattern begins in [pre]. *)
Lemma replace_first_found (init last rep pre post : string) :
  String.length last = 1%nat →
  includes (pre +:+ init) (init +:+ last) = false →
  replace_first (init +:+ last) rep (pre +:+ (init +:+ last) +:+ post)
  = pre +:+ rep +:+ post.
Proof.
  intros Hlast. induction pre as [|c pre IH]; intros Hpre.
  - rewrite !string_app_nil.
    rewrite (replace_first_here _ _ _ (prefix_refl_app _ _)).
    by rewrite string_drop_app.
  - rewrite !string_app_cons. cbn [replace_first].
    rewrite string_app_cons in Hpre. apply includes_cons_false in Hpre as [Hp Hpre].
    destruct (String.prefix (init +:+ last)
                (String c (pre +:+ (init +:+ last) +:+ post))) eqn:Hpat.
    + exfalso. rewrite <- string_app_cons in Hpat.
      rewrite (string_app_assoc init last post) in Hpat.
      rewrite <- (string_app_assoc (String c pre) init (last +:+ post)) in Hpat.
      apply prefix_app_short in Hpat.
      * rewrite string_app_cons in Hpat. congruence.
      * rewrite !string_length_app, Hlast. simpl. lia.
    + f_equal. by apply IH.
Qed.

(** A pattern without [")"] does not reach across a [")"]. *)
Lemma prefix_before_paren (pat u b : string) :
  includes pat ")" = false →
  String.prefix pat (u +:+ ")" +:+ b) = true → String.prefix pat (u +:+ ")") = true.
Proof.
  revert u. induction pat as [|q pat IH]; intros u Hpat Hp.
  - by destruct (u +:+ ")").
  - pose proof (not_includes_char ")" q pat eq_refl Hpat) as Hq.
    apply includes_cons_false in Hpat as [_ Hpat].
    destruct u as [|c u].
    + rewrite string_app_nil, string_app_cons in Hp. cbn in Hp.
      destruct (Ascii.ascii_dec q _) as [->|]; [|done].
      by rewrite (is_char_refl ")" _ eq_refl) in Hq.
    + rewrite string_app_cons in Hp |- *. cbn in Hp |- *.
      destruct (Ascii.ascii_dec q c); [|done]. by apply IH.
Qed.

Lemma replace_first_after_paren (pat rep x b : string) :
  includes pat ")" = false →
  includes (x +:+ ")") pat = false →
  replace_first pat rep (x +:+ ")" +:+ b) = x +:+ ")" +:+ replace_first pat rep b.
Proof.
  intros Hpat. induction x as [|c x IH]; intros Hx.
  - rewrite !string_app_nil in *. rewrite !string_app_cons, !string_app_nil.
    cbn [replace_first].
    lazymatch goal with
    | |- context [String.prefix pat ?s] => destruct (String.prefix pat s) eqn:Hp
    end; [|done].
    exfalso. apply (prefix_before_paren pat "" b Hpat) in Hp.
    apply prefix_includes in Hp. rewrite string_app_nil in Hp. congruence.
  - rewrite !string_app_cons in *. cbn [replace_first].
    lazymatch goal with
    | |- context [String.prefix pat ?s] => destruct (String.prefix pat s) eqn:Hp
    end.
    + exfalso. rewrite <- string_app_cons in Hp.
      apply (prefix_before_paren pat (String c x) b Hpat) in Hp.
      apply prefix_includes in Hp. rewrite string_app_cons in Hp. congruence.
    + f_equal. apply IH. by apply includes_cons_false in Hx as [_ ?].
Qed.

Lemma prefix_char (q c : Ascii.ascii) (s : string) :
  String.prefix (String q "") (String c s) = bool_decide (q = c).
Proof.
  change (String.prefix (String q "") (String c s))
    with (if Ascii.ascii_dec q c then String.prefix "" s else false).
  destruct (Ascii.ascii_dec q c) as [->|Hne].
  - rewrite bool_decide_eq_true_2 by done. by destruct s.
  - by rewrite bool_decide_eq_false_2.
Qed.

Lemma includes_char_cons (q c : Ascii.ascii) (s : string) :
  includes (String c s) (String q "") = bool_decide (q = c) || includes s (String q "").
Proof. by rewrite includes_cons, prefix_char. Qed.

Lemma includes_char_app (q : Ascii.ascii) (x y : string) :
  includes (x +:+ y) (String q "") = includes x (String q "") || includes y (String q "").
Proof.
  induction x as [|c x IH]; [done|].
  by rewrite string_app_cons, !includes_char_cons, IH, orb_assoc.
Qed.

Lemma includes_char_drop (q : Ascii.ascii) (k : nat) (s : string) :
  includes s (String q "") = false → includes (string_drop k s) (String q "") = false.
Proof.
  revert s. induction k as [|k IH]; intros s Hs; [done|].
  destruct s as [|c s]; [done|]. cbn [string_drop]. apply IH.
  rewrite includes_char_cons in Hs. by apply orb_false_iff in Hs as [_ ?].
Qed.

(** Replacing brings in no character that neither the string nor the
    replacement has. *)
Lemma replace_first_char (q : Ascii.ascii) (pat rep s : string) :
  includes rep (String q "") = false → includes s (String q "") = false →
  includes (replace_first pat rep s) (String q "") = false.
Proof.
  intros Hrep. induction s as [|c s IH]; intros Hs.
  - cbn [replace_first]. destruct (String.prefix pat ""); [|done].
    rewrite includes_char_app, Hrep. by destruct (String.length pat).
  - cbn [replace_first]. destruct (String.prefix pat (String c s)).
    + by rewrite includes_char_app, Hrep, (includes_char_drop q _ _ Hs).
    + rewrite includes_char_cons in Hs |- *. apply orb_false_iff in Hs as [-> Hs].
      by rewrite (IH Hs).
Qed.

(** X20.  The user agent [pageStealth] sets.  Take a user agent made of
    a text without ["("], a group in parentheses that is not empty (and so
    holds no [")"]), and a rest, where no ["HeadlessChrome/"] occurs up
    to the end of the group.  Then the group is replaced by
    ["(Windows NT 10.0; Win64; x64)"], and in the rest the first
    ["HeadlessChrome/"] is replaced by ["Chrome/"]; the text before the
    group, later groups in parentheses and later occurrences of
    ["HeadlessChrome/"] stay as they are.  A user agent without ["("]
    keeps everything but its first ["HeadlessChrome/"]. *)
Theorem stealth_user_agent_rewrites (a p b : string) :
  includes a "(" = false →
  p ≠ "" →
  includes p ")" = false →
  includes (a +:+ "(" +:+ p +:+ ")") "HeadlessChrome/" = false →
  stealth_user_agent (a +:+ "(" +:+ p +:+ ")" +:+ b)
  = a +:+ "(Windows NT 10.0; Win64; x64)"
      +:+ replace_first "HeadlessChrome/" "Chrome/" b
  ∧ (includes b "HeadlessChrome/" = false →
     replace_first "HeadlessChrome/" "Chrome/" b = b)
  ∧ (∀ pre post,
       b = pre +:+ "HeadlessChrome/" +:+ post →
       includes (pre +:+ "HeadlessChrome") "HeadlessChrome/" = false →
       replace_first "HeadlessChrome/" "Chrome/" b = pre +:+ "Chrome/" +:+ post)
  ∧ (∀ ua, includes ua "(" = false →
       stealth_user_agent ua = replace_first "HeadlessChrome/" "Chrome/" ua).
Proof.
  intros Ha Hp Hnp Hhead. split; [|split; [|split]].
  - unfold stealth_user_agent.
    assert (Heq : a +:+ "(" +:+ p +:+ ")" +:+ b = (a +:+ "(" +:+ p) +:+ ")" +:+ b)
      by (by rewrite !string_app_assoc).
    rewrite Heq, replace_first_after_paren; [|done|by rewrite !string_app_assoc].
    rewrite !string_app_assoc. by apply replace_group_found.
  - apply replace_first_none.
  - intros pre post -> Hpre.
    apply (replace_first_found "HeadlessChrome" "/" "Chrome/" pre post eq_refl Hpre).
  - intros ua Hua. unfold stealth_user_agent. apply replace_group_none.
    by apply (replace_first_char _ "HeadlessChrome/" "Chrome/" ua).
Qed.

Lemma stealth_user_agent_rewrites_witness :
  stealth_user_agent
    "Mozilla/5.0 (X11; Linux x86_64) AppleWebKit/537.36 (KHTML, like Gecko) HeadlessChrome/80.0.3987.87 Safari/537.36"
  = "Mozilla/5.0 (Windows NT 10.0; Win64; x64) AppleWebKit/537.36 (KHTML, like Gecko) Chrome/80.0.3987.87 Safari/537.36".
Proof.
  assert (Hp : "X11; Linux x86_64" ≠ "") by discriminate.
  destruct (stealth_user_agent_rewrites "Mozilla/5.0 " "X11; Linux x86_64"
              " AppleWebKit/537.36 (KHTML, like Gecko) HeadlessChrome/80.0.3987.87 Safari/537.36"
              eq_refl Hp eq_refl eq_refl) as (Hua & _ & Hfirst & _).
  rewrite (Hfirst " AppleWebKit/537.36 (KHTML, like Gecko) "
             "80.0.3987.87 Safari/537.36" eq_refl eq_refl) in Hua.
  exact Hua.
Defined.


(** ** What the asynchronous methods leave alone *)

Lemma same_settings_refl (c : ConfigValue) : same_settings c c.
Proof. done. Qed.

Lemma same_settings_browserHandle (c c' : ConfigValue) (v : option Handle) :
  same_settings c c' → same_settings c (set_browserHandle v c').
Proof. unfold same_settings. by intros ->. Qed.

Lemma same_settings_nonPersistantBrowserHandle (c c' : ConfigValue) (v : option Handle) :
  same_settings c c' → same_settings c (set_nonPersistantBrowserHandle v c').
Proof. unfold same_settings. by intros ->. Qed.

(** X21.  [getBrowserHandle], [newPage], [newPage1] and [closeBrowser]
    change nothing of the configuration but the two handle fields.  In
    every run of any such calls, an instance that was configured when the
    run began is still bound to the same record, every field of the
    record other than [browserHandle] and [nonPersistantBrowserHandle]
    has the value it had, and the arrays behind [args] and [hooks] hold
    what they held. *)
Theorem asynchronous_methods_keep_settings (s0 s : System)
    (sched : list (nat * Response)) (n : string) (l : loc) (c : ConfigValue) :
  run sched s0 = Some s →
  get_record (store (shared s0)) n = Some (l, c) →
  ∃ c',
    get_record (store (shared s)) n = Some (l, c')
    ∧ same_settings c c'
    ∧ arg_arrays (store (shared s)) = arg_arrays (store (shared s0))
    ∧ hook_arrays (store (shared s)) = hook_arrays (store (shared s0)).
Proof.
  intros Hrun Hrec.
  set (P := λ st : Store,
         ∃ c', get_record st n = Some (l, c') ∧ same_settings c c'
               ∧ arg_arrays st = arg_arrays (store (shared s0))
               ∧ hook_arrays st = hook_arrays (store (shared s0))).
  assert (Hstep : ∀ i r s1 s2, True → P (store (shared s1)) →
                    step_at i r s1 = Some s2 → P (store (shared s2))).
  { intros i r s1 s2 _ HP (t & t' & _ & Hstep & _)%step_at_inv.
    revert HP. apply (task_step_store_ind P) with (r := r) (t := t) (t' := t'); [| | |done].
    - intros st l0 v (c' & Hc' & Hs & Ha & Hh).
      eexists. split; [by apply get_record_alter|]. split; [|done].
      case_decide; [by apply same_settings_browserHandle | done].
    - intros st l0 v (c' & Hc' & Hs & Ha & Hh).
      eexists. split; [by apply get_record_alter|]. split; [|done].
      case_decide; [by apply same_settings_nonPersistantBrowserHandle | done].
    - intros st st' m (c' & Hc' & Hs & Ha & Hh) Hm Hinit.
      unfold fastPage.init in Hinit. simpl in Hinit.
      destruct (get_record st "default") as [[? d]|]; [|done].
      injection Hinit as <-. exists c'. split; [|done].
      apply get_record_bind_copy; [|done]. intros ->.
      apply get_record_Some in Hc' as [Hc' _]. congruence. }
  apply (run_invariant (λ s, P (store (shared s))) (λ _, True) Hstep sched s0 s);
    [by apply Forall_true | | done].
  by exists c.
Qed.

Lemma asynchronous_methods_keep_settings_witness :
  ∃ c',
    get_record (store (shared example_mixed_done)) "default" = Some (0%nat, c')
    ∧ same_settings (set_userDataDir (Some "/tmp/profile") defaultConfig) c'.
Proof.
  assert (Hrun : run (example_mixed_schedule ++ [(2%nat, Resolve); (2%nat, Resolve)])
                   example_close_and_launch = Some example_mixed_done) by by_evaluation.
  destruct (asynchronous_methods_keep_settings example_close_and_launch
              example_mixed_done _ "default" 0%nat
              (set_userDataDir (Some "/tmp/profile") defaultConfig) Hrun eq_refl)
    as (c' & Hrec & Hsame & _).
  exists c'. exact (conj Hrec Hsame).
Defined.


(** ** [closeBrowser] never launches *)

Lemma run_snoc (sched : list (nat * Response)) (i : nat) (r : Response)
    (s0 s s' : System) :
  run sched s0 = Some s → step_at i r s = Some s' →
  run (sched ++ [(i, r)]) s0 = Some s'.
Proof.
  revert s0. induction sched as [|[j q] sched IH]; intros s0; simpl.
  - intros [= ->] ->. done.
  - destruct (step_at j q s0) as [s1|]; [|done]. simpl. apply IH.
Qed.

(** A step of [browser] never takes a handle away. *)
Lemma browser_step_keeps_handle (m n : string) (r : Response) (b b' : BrowserPc)
    (sh sh' : Shared) (l : loc) (c : ConfigValue) :
  browser_step m r b sh = Some (b', sh') →
  get_record (store sh) n = Some (l, c) → is_Some (browserHandle c) →
  ∃ c', get_record (store sh') n = Some (l, c') ∧ is_Some (browserHandle c').
Proof.
  intros Hstep Hrec Hh. destruct b as [|ic|ic|ic h| |]; simpl in Hstep; try done.
  - destruct (decide (launch_key m ∈ held sh)); [done|]. injection Hstep as Hstep.
    unfold browser_enter, launch_failed in Hstep.
    destruct (get_record (store sh) m) as [[ic cm]|];
      [|injection Hstep as <- <-; by exists c].
    destruct (browserHandle cm); [injection Hstep as <- <-; by exists c|].
    destruct (arg_arrays (store sh) !! args cm);
      [|injection Hstep as <- <-; by exists c].
    destruct (truthy (userDataDir cm)); injection Hstep as <- <-; by exists c.
  - destruct r; injection Hstep as <- <-; [|by exists c]. simpl.
    eexists. split; [by apply get_record_alter|]. case_decide; [by eexists | done].
  - destruct r.
    + destruct (records (store sh) !! ic); [|done]. injection Hstep as <- <-. simpl.
      eexists. split; [by apply get_record_alter|]. by case_decide.
    + injection Hstep as <- <-. by exists c.
  - destruct r; injection Hstep as <- <-; [|by exists c]. simpl.
    eexists. split; [by apply get_record_alter|]. case_decide; [by eexists | done].
Qed.

Lemma close_clear_other (m n : string) (sh sh' : Shared) (c' : ClosePc) (l : loc)
    (c : ConfigValue) :
  store_wf (store sh) → m ≠ n →
  close_clear m sh = (c', sh') →
  get_record (store sh) n = Some (l, c) → get_record (store sh') n = Some (l, c).
Proof.
  intros Hwf Hne. unfold close_clear, close_failed.
  destruct (get_record (store sh) m) as [[lm cm]|] eqn:Hm; intros [= <- <-] Hn; [|done].
  assert (Hl : l ≠ lm).
  { intros ->. apply Hne. apply get_record_Some in Hm as [Hm _].
    apply get_record_Some in Hn as [Hn _]. by eapply wf_inj. }
  cbn [store update_record with_store]. erewrite get_record_alter.
  2:{ erewrite get_record_alter; [|exact Hn]. by rewrite decide_False. }
  by rewrite decide_False.
Qed.

(** A step of a call other than a [closeBrowser] of the instance never
    takes the handle of the instance away. *)
Lemma task_step_keeps_handle (n : string) (r : Response) (t t' : Task)
    (sh sh' : Shared) (l : loc) (c : ConfigValue) :
  store_wf (store sh) →
  (∀ pc, t ≠ TCloseBrowser n pc) →
  task_step r t sh = Some (t', sh') →
  get_record (store sh) n = Some (l, c) → is_Some (browserHandle c) →
  ∃ c', get_record (store sh') n = Some (l, c') ∧ is_Some (browserHandle c').
Proof.
  intros Hwf Hnot Hstep Hrec Hh. destruct t as [m b|m p|m b|m pc]; simpl in Hstep.
  - destruct (browser_step m r b sh) as [[b' sh'']|] eqn:Hb; [|done].
    injection Hstep as <- <-. by eapply browser_step_keeps_handle.
  - destruct p as [| |b]; simpl in Hstep.
    + destruct (config (store sh) !! m) eqn:Hm.
      * injection Hstep as <- <-. by exists c.
      * unfold fastPage.init in Hstep. simpl in Hstep.
        destruct (get_record (store sh) "default") as [[? d]|]; [|done].
        injection Hstep as <- <-. exists c. split; [|done]. simpl.
        apply get_record_bind_copy; [|done]. intros ->.
        apply get_record_Some in Hrec as [Hrec _]. congruence.
    + injection Hstep as <- <-. by exists c.
    + destruct (browser_step m r b sh) as [[b' sh'']|] eqn:Hb; [|done].
      injection Hstep as <- <-. by eapply browser_step_keeps_handle.
  - destruct (browser_step m r b sh) as [[b' sh'']|] eqn:Hb; [|done].
    injection Hstep as <- <-. by eapply browser_step_keeps_handle.
  - assert (Hne : m ≠ n) by (intros ->; by apply (Hnot pc)).
    destruct (close_step m r pc sh) as [[c1 sh1]|] eqn:Hc; [|done].
    injection Hstep as <- <-. destruct pc as [|b|h|v].
    + simpl in Hc. destruct (decide (close_key m ∈ held sh)); [done|].
      injection Hc as Hc. unfold close_enter, close_failed in Hc.
      destruct (get_record (store sh) m) as [[lm cm]|];
        [|injection Hc as <- <-; by exists c].
      destruct (nonPersistantBrowserHandle cm).
      { exists c. split; [|done].
        by eapply (close_clear_other m n); [| |exact Hc|]. }
      destruct (browserHandle cm); [injection Hc as <- <-; by exists c|].
      exists c. split; [|done]. by eapply (close_clear_other m n); [| |exact Hc|].
    + apply close_step_browser in Hc
        as [(h & -> & -> & ->)|[(e & -> & -> & ->)|(b'' & _ & Hb & ->)]];
        [by exists c | by exists c |].
      by eapply browser_step_keeps_handle.
    + simpl in Hc. destruct r.
      * injection Hc as Hc. exists c. split; [|done].
        by eapply (close_clear_other m n); [| |exact Hc|].
      * injection Hc as <- <-. by exists c.
    + done.
Qed.

Lemma no_events (sh sh' : Shared) :
  trace sh' = trace sh → next_handle sh' = next_handle sh →
  ∃ evs, trace sh' = trace sh ++ evs ∧ no_launch evs
         ∧ next_handle sh' = next_handle sh.
Proof. intros Ht Hn. exists []. rewrite app_nil_r. split; [done|]. split; [constructor|done]. Qed.

Lemma one_event (sh sh' : Shared) (ev : Event) :
  trace sh' = trace sh ++ [ev] → (∀ m, is_launch m ev = false) →
  next_handle sh' = next_handle sh →
  ∃ evs, trace sh' = trace sh ++ evs ∧ no_launch evs
         ∧ next_handle sh' = next_handle sh.
Proof.
  intros Ht Hev Hn. exists [ev]. split; [done|]. split; [|done].
  constructor; [done | constructor].
Qed.

Lemma close_clear_trace (n : string) (sh sh' : Shared) (c' : ClosePc) :
  close_clear n sh = (c', sh') →
  ∃ evs, trace sh' = trace sh ++ evs ∧ no_launch evs
         ∧ next_handle sh' = next_handle sh.
Proof.
  unfold close_clear, close_failed.
  destruct (get_record (store sh) n) as [[l c]|]; intros [= <- <-].
  - by apply no_events.
  - by eapply one_event.
Qed.

(** A step of [closeBrowser] that does not launch. *)
Lemma close_step_trace (n : string) (r : Response) (pc pc' : ClosePc) (sh sh' : Shared) :
  close_step n r pc sh = Some (pc', sh') →
  (∀ b, pc = CBrowser b →
     (b = BStart ∧ ∃ l c, get_record (store sh) n = Some (l, c)
                          ∧ is_Some (browserHandle c))
     ∨ (∃ h, b = BResolved h)) →
  ∃ evs, trace sh' = trace sh ++ evs ∧ no_launch evs
         ∧ next_handle sh' = next_handle sh.
Proof.
  intros Hstep Hinv. destruct pc as [|b|h|v].
  - simpl in Hstep. destruct (decide (close_key n ∈ held sh)); [done|].
    injection Hstep as Hstep. unfold close_enter, close_failed in Hstep.
    destruct (get_record (store sh) n) as [[l c]|].
    2:{ injection Hstep as <- <-. by eapply one_event. }
    destruct (nonPersistantBrowserHandle c) as [b|].
    { apply close_clear_trace in Hstep as (evs & Htr & Hno & Hnext).
      exists (EvClose b false :: evs). simpl in *.
      rewrite Htr, <- app_assoc. split; [done|]. split; [|done].
      by constructor. }
    destruct (browserHandle c).
    { injection Hstep as <- <-. by apply no_events. }
    by apply close_clear_trace in Hstep.
  - destruct (Hinv b eq_refl) as [(-> & l & c & Hrec & [h Hh])|[h ->]].
    + simpl in Hstep. destruct (decide (launch_key n ∈ held sh)); [done|].
      simpl in Hstep. unfold browser_enter in Hstep. rewrite Hrec, Hh in Hstep.
      injection Hstep as <- <-. by apply no_events.
    + simpl in Hstep. injection Hstep as <- <-. by eapply one_event.
  - simpl in Hstep. destruct r.
    + injection Hstep as Hstep. by apply close_clear_trace in Hstep.
    + injection Hstep as <- <-. by eapply one_event.
  - done.
Qed.

Lemma close_inv_step (s0 s s' : System) (sched : list (nat * Response)) (i : nat)
    (r : Response) :
  quiescent s0 → run sched s0 = Some s →
  store_wf (store (shared s)) → close_inv s →
  step_at i r s = Some s' → close_inv s'.
Proof.
  intros Hq Hrun Hwf Hinv Hs.
  pose proof Hs as (t & t' & Hi & Hstep & Htasks)%step_at_inv.
  intros j n b Hj. rewrite Htasks in Hj.
  destruct (decide (j = i)) as [->|Hne].
  - rewrite list_lookup_insert_eq in Hj by (by eapply lookup_lt_Some).
    injection Hj as ->.
    destruct t as [m b0|m p|m b0|m pc]; simpl in Hstep;
      repeat (match type of Hstep with
              | context [mbind _ ?x] => destruct x as [[??]|] eqn:?; simpl in Hstep
              end); try done.
    injection Hstep as Hm Hc' Hs1. subst.
    match goal with H : close_step _ _ _ _ = _ |- _ => rename H into Hc end.
    destruct pc as [|b0|h|v].
    + simpl in Hc. destruct (decide (close_key n ∈ held (shared s))); [done|].
      injection Hc as Hc. unfold close_enter, close_failed in Hc.
      destruct (get_record (store (shared s)) n) as [[l c]|] eqn:Hrec; [|done].
      destruct (nonPersistantBrowserHandle c).
      { by apply close_clear_held in Hc as [_ [v ?]]. }
      destruct (browserHandle c) as [h|] eqn:Hh.
      * injection Hc as <- <-. left. split; [done|]. exists l, c. simpl.
        split; [done|]. rewrite Hh. by eexists.
      * by apply close_clear_held in Hc as [_ [v ?]].
    + destruct (Hinv i n b0 Hi) as [(-> & l & c & Hrec & [h Hh])|[h ->]].
      * simpl in Hc. destruct (decide (launch_key n ∈ held (shared s))); [done|].
        simpl in Hc. unfold browser_enter in Hc. rewrite Hrec, Hh in Hc.
        injection Hc as <- <-. right. by exists h.
      * simpl in Hc. by simplify_eq/=.
    + simpl in Hc. destruct r.
      * injection Hc as Hc. by apply close_clear_held in Hc as [_ [v ?]].
      * unfold close_failed in Hc. by simplify_eq/=.
    + done.
  - rewrite list_lookup_insert_ne in Hj by done.
    destruct (Hinv j n b Hj) as [(-> & l & c & Hrec & Hh)|?]; [|by right].
    left. split; [done|].
    assert (Hcase : (∃ pc, t = TCloseBrowser n pc) ∨ ∀ pc, t ≠ TCloseBrowser n pc).
    { destruct t as [m b0|m p|m b0|m pc]; try (by right).
      destruct (decide (m = n)) as [->|Hmn]; [left; by eexists|].
      right. intros pc' [= ? ?]. done. }
    destruct Hcase as [[pc ->]|Hnot].
    + exfalso.
      apply (same_kind_exclusive CloseSection n s0 sched s j i
               (TCloseBrowser n (CBrowser BStart)) (TCloseBrowser n pc) r s');
        try done.
      * split; [done|]. by eexists.
      * split; [done|]. eexists. split; [done|].
        by destruct pc.
    + destruct (task_step_keeps_handle n r t t' _ _ l c Hwf Hnot Hstep Hrec Hh)
        as (c' & Hrec' & Hh').
      by exists l, c'.
Qed.

Lemma run_snoc_inv (sched : list (nat * Response)) (i : nat) (r : Response)
    (s0 s' : System) :
  run (sched ++ [(i, r)]) s0 = Some s' →
  ∃ s, run sched s0 = Some s ∧ step_at i r s = Some s'.
Proof.
  revert s0. induction sched as [|[j q] sched IH]; intros s0; simpl.
  - destruct (step_at i r s0) as [s1|] eqn:Hs; [|done]. simpl. intros [= <-].
    by exists s0.
  - destruct (step_at j q s0) as [s1|]; [|done]. simpl. apply IH.
Qed.

Lemma close_inv_run (sched : list (nat * Response)) (s0 s : System) :
  store_wf (store (shared s0)) → quiescent s0 → run sched s0 = Some s →
  store_wf (store (shared s)) ∧ close_inv s.
Proof.
  intros Hwf Hq. revert s. induction sched as [|[i r] sched IH] using rev_ind; intros s.
  - intros [= <-]. split; [done|]. intros j n b Hj. destruct Hq as [_ Hns].
    rewrite Forall_forall in Hns.
    by specialize (Hns _ (list_elem_of_lookup_2 _ _ _ Hj)).
  - intros (s1 & Hrun & Hs)%run_snoc_inv. destruct (IH s1 Hrun) as [Hwf1 Hinv1]. split.
    + apply step_at_inv in Hs as (t & t' & _ & Hstep & _). by eapply task_step_wf.
    + by eapply close_inv_step.
Qed.

Lemma launch_count_no_launch (m : string) (tr evs : list Event) :
  no_launch evs → launch_count m (tr ++ evs) = launch_count m tr.
Proof.
  intros Hno. unfold launch_count. rewrite filter_app, length_app.
  assert (Hnil : filter (λ ev, is_launch m ev = true) evs = []).
  { induction Hno as [|ev evs Hev _ IH]; [done|].
    rewrite filter_cons_False; [done|]. by rewrite Hev. }
  rewrite Hnil. simpl. lia.
Qed.

(** X22.  [closeBrowser] never launches.  It calls [browser] to get the
    handle it is about to close, and [browser] launches when it finds no
    handle; but in every run of calls issued while nothing was in flight,
    whatever the other calls are and whatever the external library
    answers, the handle is still there when [closeBrowser] asks for it.
    So no step of a [closeBrowser] call makes a launch call, for any
    instance, and none obtains a new object from the external library. *)
Theorem closeBrowser_never_launches (s0 s s' : System) (sched : list (nat * Response))
    (i : nat) (r : Response) (n : string) (pc : ClosePc) :
  store_wf (store (shared s0)) →
  quiescent s0 →
  run sched s0 = Some s →
  tasks s !! i = Some (TCloseBrowser n pc) →
  step_at i r s = Some s' →
  (∀ m, launch_count m (trace (shared s')) = launch_count m (trace (shared s)))
  ∧ next_handle (shared s') = next_handle (shared s).
Proof.
  intros Hwf Hq Hrun Hi Hs.
  destruct (close_inv_run sched s0 s Hwf Hq Hrun) as [_ Hinv].
  apply step_at_inv in Hs as (t & t' & Hi' & Hstep & _).
  rewrite Hi in Hi'. injection Hi' as <-. simpl in Hstep.
  destruct (close_step n r pc (shared s)) as [[pc' sh']|] eqn:Hc; [|done].
  injection Hstep as _ <-.
  destruct (close_step_trace n r pc pc' _ _ Hc) as (evs & Htr & Hno & Hnext).
  { intros b ->. by apply (Hinv i n b). }
  split; [|done]. intros m. rewrite Htr. by apply launch_count_no_launch.
Qed.

Lemma closeBrowser_never_launches_witness :
  ∃ s',
    tasks (run_or [(0%nat, Resolve)] example_prefixed) !! 0%nat
    = Some (TCloseBrowser "default" (CBrowser BStart))
    ∧ step_at 0 Resolve (run_or [(0%nat, Resolve)] example_prefixed) = Some s'
    ∧ launch_count "default" (trace (shared s')) = 1%nat.
Proof.
  assert (Hrun : run [(0%nat, Resolve)] example_prefixed
                 = Some (run_or [(0%nat, Resolve)] example_prefixed)) by by_evaluation.
  assert (Hs : step_at 0 Resolve (run_or [(0%nat, Resolve)] example_prefixed)
               = Some (run_or [(0%nat, Resolve); (0%nat, Resolve)] example_prefixed))
    by by_evaluation.
  assert (Hi : tasks (run_or [(0%nat, Resolve)] example_prefixed) !! 0%nat
               = Some (TCloseBrowser "default" (CBrowser BStart))) by by_evaluation.
  assert (Hc : launch_count "default"
                 (trace (shared (run_or [(0%nat, Resolve)] example_prefixed)))
               = 1%nat) by by_evaluation.
  assert (Hq : quiescent example_prefixed).
  { split; [by_evaluation | repeat constructor]. }
  eexists. split; [exact Hi|]. split; [exact Hs|].
  rewrite (proj1 (closeBrowser_never_launches example_prefixed _ _
                    [(0%nat, Resolve)] 0 Resolve "default" (CBrowser BStart)
                    example_shared_persistent_launched_wf Hq Hrun Hi Hs) "default").
  exact Hc.
Defined.


(** ** Concurrent calls of [closeBrowser] *)

Lemma key_holder_unique (ts : list Task) (i j : nat) (t u : Task) (k : string) :
  NoDup (all_keys ts) → ts !! i = Some t → ts !! j = Some u → i ≠ j →
  k ∈ task_keys t → k ∉ task_keys u.
Proof.
  intros Hnd Hi Hj Hij Hkt Hku.
  destruct (lookup_middle _ j u u Hj) as (ts1 & ts2 & Hts & _ & Hlen).
  rewrite Hts, all_keys_middle in Hnd.
  apply NoDup_app in Hnd as (_ & Hdisj1 & Hnd).
  apply NoDup_app in Hnd as (_ & Hdisj2 & _).
  rewrite Hts in Hi. destruct (decide (i < j)%nat) as [Hlt|Hge].
  - rewrite lookup_app_l in Hi by lia.
    apply (Hdisj1 k); [by apply (task_keys_in_all ts1 i t)|].
    rewrite elem_of_app. by left.
  - rewrite lookup_app_r in Hi by lia.
    destruct (i - length ts1)%nat as [|i'] eqn:Hd; [lia|]. simpl in Hi.
    apply (Hdisj2 k Hku). by apply (task_keys_in_all ts2 i' t).
Qed.

Lemma Forall_insert_others {A} (P Q : A → Prop) (l : list A) (i : nat) (x : A) :
  Forall P l → Q x →
  (∀ j y, l !! j = Some y → j ≠ i → P y → Q y) →
  Forall Q (<[i := x]> l).
Proof.
  intros HP Hx Hothers. apply Forall_lookup. intros j y Hj.
  destruct (decide (j = i)) as [->|Hne].
  - destruct (decide (i < length l)%nat) as [Hlt|Hge].
    + rewrite list_lookup_insert_eq in Hj by done. by injection Hj as <-.
    + rewrite list_insert_ge in Hj by lia. apply lookup_lt_Some in Hj. lia.
  - rewrite list_lookup_insert_ne in Hj by done.
    apply (Hothers j y Hj Hne). by eapply (proj1 (Forall_lookup _ _) HP).
Qed.

Lemma close_count_snoc (tr : list Event) (ev : Event) :
  close_count (tr ++ [ev]) = (close_count tr + if is_close ev then 1 else 0)%nat.
Proof.
  unfold close_count. rewrite filter_app, length_app. f_equal.
  destruct (is_close ev) eqn:He.
  - by rewrite filter_cons_True.
  - rewrite filter_cons_False; [done|]. by rewrite He.
Qed.

Lemma get_record_cleared (st : Store) (n : string) (l : loc) (c : ConfigValue) :
  get_record st n = Some (l, c) →
  get_record
    (set_records (alter (set_nonPersistantBrowserHandle None) l
                    (records (set_records (alter (set_browserHandle None) l (records st))
                                st)))
       (set_records (alter (set_browserHandle None) l (records st)) st)) n
  = Some (l, set_nonPersistantBrowserHandle None (set_browserHandle None c)).
Proof.
  intros Hrec. erewrite get_record_alter.
  2:{ erewrite get_record_alter; [|exact Hrec]. by rewrite decide_True. }
  by rewrite decide_True.
Qed.

Lemma closing_inv_step (n : string) (k : nat) (i : nat) (s s' : System) :
  lock_inv s → closing_inv n k s →
  step_at i Resolve s = Some s' → closing_inv n k s'.
Proof.
  intros [Hnd Hheld] (l & c & Hrec & Hphase) Hs.
  pose proof Hs as (t & t' & Hi & Hstep & Htasks)%step_at_inv.
  assert (Hothers : ∀ j u, tasks s !! j = Some u → j ≠ i →
                    close_key n ∈ task_keys t → close_key n ∉ task_keys u).
  { intros j u Hj Hne Hk. by apply (key_holder_unique (tasks s) i j t u). }
  destruct Hphase as [(Hcount & Hnp & Hall)|[(Hcount & Hnp & Hbh & Hall)|
                     [(Hcount & Hkey & Hall)|(Hcount & Hbh & Hnp & Hall)]]].
  - (* a browser launched without a profile directory *)
    destruct (proj1 (Forall_lookup _ _) Hall i t Hi) as (pc & -> & ->).
    destruct Hnp as [b Hb]. simpl in Hstep.
    destruct (decide (close_key n ∈ held (shared s))); [done|]. simpl in Hstep.
    unfold close_enter in Hstep. rewrite Hrec, Hb in Hstep.
    unfold close_clear in Hstep. simpl in Hstep. rewrite Hrec in Hstep.
    injection Hstep as <- Hsh.
    exists l, (set_nonPersistantBrowserHandle None (set_browserHandle None c)).
    rewrite <- Hsh. split; [by apply get_record_cleared|].
    right. right. right. simpl. rewrite close_count_snoc, Hcount. simpl.
    split; [lia|]. split; [done|]. split; [done|]. rewrite Htasks.
    apply (Forall_insert_others _ _ _ _ _ Hall); [eexists; split; [done|]; by right|].
    intros j u _ _ (pc & -> & ->). eexists. split; [done|]. by left.
  - (* a persistent context, not yet closed *)
    destruct (proj1 (Forall_lookup _ _) Hall i t Hi) as (pc & -> & Hpc).
    destruct Hbh as [h Hh].
    destruct Hpc as [->|[->|[h' ->]]]; simpl in Hstep.
    + destruct (decide (close_key n ∈ held (shared s))); [done|]. simpl in Hstep.
      unfold close_enter in Hstep. rewrite Hrec, Hnp, Hh in Hstep.
      injection Hstep as <- Hsh. exists l, c. rewrite <- Hsh. split; [done|].
      right. left. simpl. split; [done|]. split; [done|]. split; [by eexists|].
      rewrite Htasks. apply Forall_insert; [done|]. eexists. split; [done|]. by right; left.
    + destruct (decide (launch_key n ∈ held (shared s))); [done|]. simpl in Hstep.
      unfold browser_enter in Hstep. rewrite Hrec, Hh in Hstep.
      injection Hstep as <- Hsh. exists l, c. rewrite <- Hsh. split; [done|].
      right. left. split; [done|]. split; [done|]. split; [by eexists|].
      rewrite Htasks. apply Forall_insert; [done|]. eexists. split; [done|].
      right; right. by eexists.
    + injection Hstep as <- Hsh. exists l, c. rewrite <- Hsh. split; [done|].
      right. right. left. simpl. rewrite close_count_snoc, Hcount. simpl.
      split; [lia|]. split.
      { apply Hheld. apply (task_keys_in_all (tasks s) i _ _ Hi). simpl. set_solver. }
      rewrite Htasks.
      apply (Forall_insert_others _ _ _ _ _ Hall);
        [eexists; split; [done|]; right; by eexists|].
      intros j u Hj Hne (pc & -> & Hpc). eexists. split; [done|]. left.
      assert (Hk : close_key n ∉ task_keys (TCloseBrowser n pc)).
      { apply (Hothers j _ Hj Hne). simpl. set_solver. }
      destruct Hpc as [->|[->|[h'' ->]]]; [done| |]; exfalso; apply Hk; simpl; set_solver.
  - (* [close()] is awaited *)
    destruct (proj1 (Forall_lookup _ _) Hall i t Hi) as (pc & -> & Hpc).
    destruct Hpc as [->|[h ->]]; simpl in Hstep.
    + by rewrite decide_True in Hstep.
    + unfold close_clear in Hstep. simpl in Hstep. rewrite Hrec in Hstep.
      injection Hstep as <- Hsh.
      exists l, (set_nonPersistantBrowserHandle None (set_browserHandle None c)).
      rewrite <- Hsh. split; [by apply get_record_cleared|].
      right. right. right. simpl. split; [done|]. split; [done|]. split; [done|].
      rewrite Htasks.
      apply (Forall_insert_others _ _ _ _ _ Hall);
        [eexists; split; [done|]; by right|].
      intros j u Hj Hne (pc & -> & Hpc). eexists. split; [done|]. left.
      assert (Hk : close_key n ∉ task_keys (TCloseBrowser n pc)).
      { apply (Hothers j _ Hj Hne). simpl. set_solver. }
      destruct Hpc as [->|[h' ->]]; [done|]. exfalso. apply Hk. simpl. set_solver.
  - (* the handles are cleared *)
    destruct (proj1 (Forall_lookup _ _) Hall i t Hi) as (pc & -> & Hpc).
    destruct Hpc as [->| ->]; simpl in Hstep; [|done].
    destruct (decide (close_key n ∈ held (shared s))); [done|]. simpl in Hstep.
    unfold close_enter in Hstep. rewrite Hrec, Hnp, Hbh in Hstep.
    unfold close_clear in Hstep. rewrite Hrec in Hstep.
    injection Hstep as <- Hsh.
    exists l, (set_nonPersistantBrowserHandle None (set_browserHandle None c)).
    rewrite <- Hsh. split; [by apply get_record_cleared|].
    right. right. right. simpl. split; [done|]. split; [done|]. split; [done|].
    rewrite Htasks. apply Forall_insert; [done|]. eexists. split; [done|]. by right.
Qed.

Lemma closing_inv_run (n : string) (k : nat) (sched : list (nat * Response))
    (s0 s : System) :
  lock_inv s0 → closing_inv n k s0 → all_resolve sched → run sched s0 = Some s →
  lock_inv s ∧ closing_inv n k s.
Proof.
  intros Hlock Hinv Hres Hrun.
  apply (run_invariant (λ s, lock_inv s ∧ closing_inv n k s) (λ x, x.2 = Resolve))
    with (sched := sched) (s := s0); try done.
  intros i r s1 s2 Hr [Hl Hc] Hs. simpl in Hr. subst r. split.
  - by eapply lock_inv_step.
  - by eapply closing_inv_step.
Qed.

Lemma closing_inv_facts (n : string) (k : nat) (s : System) :
  closing_inv n k s →
  (close_count (trace (shared s)) ≤ S k)%nat
  ∧ ∀ t, t ∈ tasks s → completed t = true →
      t = TCloseBrowser n (CResolved (Some "closed"))
      ∧ handles_cleared n (store (shared s))
      ∧ close_count (trace (shared s)) = S k.
Proof.
  intros (l & c & Hrec & Hphase).
  destruct Hphase as [(Hcount & Hnp & Hall)|[(Hcount & Hnp & Hbh & Hall)|
                     [(Hcount & Hkey & Hall)|(Hcount & Hbh & Hnp & Hall)]]];
    (split; [lia|]); intros t Ht Hc;
    destruct (proj1 (Forall_forall _ _) Hall t Ht) as (pc & -> & Hpc).
  - by subst pc.
  - by destruct Hpc as [->|[->|[h ->]]].
  - by destruct Hpc as [->|[h ->]].
  - destruct Hpc as [->| ->]; [done|]. split; [done|]. split; [|done].
    by exists l, c.
Qed.

(** X23.  Concurrent calls of [closeBrowser] close once.  Take any number
    of calls of [closeBrowser] for one instance that has a browser,
    issued while nothing is in flight, and any run of them in which the
    external library resolves.  At most one call of [close()] is made.
    A call that has settled has resolved with ["closed"], and then the
    handle fields are cleared and [close()] was called exactly once.  And
    the run can be continued until every call has settled. *)
Theorem concurrent_closes_close_once (n : string) (s0 s : System)
    (sched : list (nat * Response)) :
  store_wf (store (shared s0)) →
  quiescent s0 →
  Forall (λ t, t = TCloseBrowser n CStart) (tasks s0) →
  (∃ l c, get_record (store (shared s0)) n = Some (l, c)
          ∧ (is_Some (nonPersistantBrowserHandle c) ∨ is_Some (browserHandle c))) →
  all_resolve sched →
  run sched s0 = Some s →
  (close_count (trace (shared s)) ≤ S (close_count (trace (shared s0))))%nat
  ∧ (∀ t, t ∈ tasks s → completed t = true →
       t = TCloseBrowser n (CResolved (Some "closed"))
       ∧ handles_cleared n (store (shared s))
       ∧ close_count (trace (shared s)) = S (close_count (trace (shared s0))))
  ∧ ∃ sched' s',
      all_resolve sched' ∧ run sched' s = Some s'
      ∧ Forall (λ t, completed t = true) (tasks s')
      ∧ ∀ t, t ∈ tasks s' →
          t = TCloseBrowser n (CResolved (Some "closed"))
          ∧ handles_cleared n (store (shared s'))
          ∧ close_count (trace (shared s')) = S (close_count (trace (shared s0))).
Proof.
  intros Hwf Hq Hall (l & c & Hrec & Hbrowser) Hres Hrun.
  assert (Hinv0 : closing_inv n (close_count (trace (shared s0))) s0).
  { exists l, c. split; [done|].
    destruct (nonPersistantBrowserHandle c) as [b|] eqn:Hnp.
    - left. split; [done|]. split; [by eexists|].
      eapply Forall_impl; [exact Hall|]. intros t ->. by eexists.
    - right. left. split; [done|]. split; [done|].
      split; [by destruct Hbrowser as [[? ?]|?]|].
      eapply Forall_impl; [exact Hall|]. intros t ->. eexists. split; [done|]. by left. }
  destruct (closing_inv_run n _ sched s0 s (quiescent_lock_inv s0 Hq) Hinv0 Hres Hrun)
    as [Hlock Hinv].
  destruct (closing_inv_facts n _ s Hinv) as [Hle Hdone].
  split; [done|]. split; [done|].
  assert (Hsys : sys_inv s)
    by (eapply sys_inv_run; [by apply sys_inv_quiescent | done]).
  destruct (calls_complete s Hsys) as (sched' & s' & Hres' & Hrun' & Hcomp).
  exists sched', s'. split; [done|]. split; [done|]. split; [done|].
  destruct (closing_inv_run n _ sched' s s' Hlock Hinv Hres' Hrun') as [_ Hinv'].
  destruct (closing_inv_facts n _ s' Hinv') as [_ Hdone'].
  intros t Ht. apply Hdone'; [done|]. by apply (proj1 (Forall_forall _ _) Hcomp).
Qed.

Lemma concurrent_closes_close_once_witness :
  ∃ s,
    run [(1%nat, Resolve); (0%nat, Resolve); (2%nat, Resolve)] example_three_closes
    = Some s
    ∧ Forall (λ t, t = TCloseBrowser "default" (CResolved (Some "closed"))) (tasks s)
    ∧ close_count (trace (shared s)) = 1%nat.
Proof.
  assert (∃ s, run [(1%nat, Resolve); (0%nat, Resolve); (2%nat, Resolve)]
                 example_three_closes = Some s
               ∧ tasks s = [TCloseBrowser "default" (CResolved (Some "closed"));
                            TCloseBrowser "default" (CResolved (Some "closed"));
                            TCloseBrowser "default" (CResolved (Some "closed"))])
    as (s & Hrun & Hts).
  { eexists. split; vm_compute; reflexivity. }
  assert (Hrec : get_record (store example_shared_launched) "default"
                 = Some (0%nat, set_browserHandle (Some 1%nat)
                                  (set_nonPersistantBrowserHandle (Some 0%nat)
                                     defaultConfig))) by by_evaluation.
  assert (Hst : store example_shared_launched
                = set_records
                    (alter (set_browserHandle (Some 1%nat)
                              ∘ set_nonPersistantBrowserHandle (Some 0%nat)) 0%nat
                       (records initial_store)) initial_store) by by_evaluation.
  assert (Hwf : store_wf (store example_shared_launched)).
  { rewrite Hst. apply store_wf_alter; [done | apply initial_store_wf]. }
  assert (Hq : quiescent example_three_closes).
  { split; [by_evaluation | repeat constructor]. }
  assert (Hk : close_count (trace example_shared_launched) = 0%nat) by by_evaluation.
  destruct (concurrent_closes_close_once "default" example_three_closes s
              [(1%nat, Resolve); (0%nat, Resolve); (2%nat, Resolve)] Hwf Hq)
    as (_ & Hdone & _); [repeat constructor | | repeat constructor | exact Hrun |].
  { eexists _, _. split; [exact Hrec|]. left. by eexists. }
  exists s. split; [exact Hrun|]. split.
  - rewrite Hts. repeat constructor.
  - destruct (Hdone (TCloseBrowser "default" (CResolved (Some "closed")))) as (_ & _ & Hc);
      [rewrite Hts; apply list_elem_of_here | done |].
    simpl in Hc. by rewrite Hk in Hc.
Defined.


(** ** [init] while a launch is awaited *)

(** X24.  [browser] keeps the record it read when it entered its
    section, and stores the handle there.  When [init] is called for the
    instance while its launch is awaited, the name is bound to a new
    record; the launch then resolves, the caller receives the handle, and
    the handle is stored in the old record: the record of the instance
    is the copy [init] made, unchanged, so that with
    [init(false)] the instance has no handle although its browser
    runs. *)
Theorem init_during_launch_loses_handle (n : string) (sh : Shared) (ic : loc)
    (c : ConfigValue) (u : option bool) (st' : Store) (pc : BrowserPc) :
  records (store sh) !! ic = Some c →
  fastPage.init n u (store sh) = Some st' →
  pc = BLaunchPersistent ic ∨ (∃ b, pc = BNewContext ic b) →
  ∃ sh' d,
    browser_step n Resolve pc (with_store st' sh) = Some (BResolved (next_handle sh), sh')
    ∧ get_record st' n = Some (length (records (store sh)), d)
    ∧ get_record (store sh') n = Some (length (records (store sh)), d)
    ∧ (u = Some false → d = defaultConfig)
    ∧ records (store sh') !! ic = Some (set_browserHandle (Some (next_handle sh)) c).
Proof.
  intros Hc Hinit Hpc.
  assert (Hlt : (ic < length (records (store sh)))%nat) by by eapply lookup_lt_Some.
  assert (Hst : ∃ d, st' = bind_copy n d (store sh) ∧ (u = Some false → d = defaultConfig)).
  { unfold fastPage.init in Hinit. destruct u as [[|]|]; simpl in Hinit.
    - destruct (get_record (store sh) "default") as [[? d]|]; [|done].
      injection Hinit as <-. by exists d.
    - injection Hinit as <-. by exists defaultConfig.
    - destruct (get_record (store sh) "default") as [[? d]|]; [|done].
      injection Hinit as <-. by exists d. }
  destruct Hst as (d & -> & Hd).
  assert (Hstep : browser_step n Resolve pc (with_store (bind_copy n d (store sh)) sh)
                  = Some (BResolved (next_handle sh),
                          release (launch_key n)
                            (update_record ic (set_browserHandle (Some (next_handle sh)))
                               (new_handle (with_store (bind_copy n d (store sh)) sh))))).
  { by destruct Hpc as [->|[b ->]]. }
  eexists _, d. split; [exact Hstep|].
  split; [apply get_record_bind_copy_eq|]. split; [|split; [done|]].
  - cbn [store release update_record with_store new_handle].
    erewrite get_record_alter; [|apply get_record_bind_copy_eq].
    rewrite decide_False by lia. done.
  - cbn [store release update_record with_store new_handle set_records records bind_copy].
    rewrite list_lookup_alter_eq, lookup_app_l, Hc by done. done.
Qed.

Lemma init_during_launch_loses_handle_witness :
  ∃ st' sh',
    fastPage.init "default" (Some false) (store example_shared_context_pending)
    = Some st'
    ∧ browser_step "default" Resolve (BNewContext 0%nat 0%nat)
        (with_store st' example_shared_context_pending)
      = Some (BResolved 1%nat, sh')
    ∧ get_record (store sh') "default" = Some (1%nat, defaultConfig).
Proof.
  assert (Hc : records (store example_shared_context_pending) !! 0%nat
               = Some (set_nonPersistantBrowserHandle (Some 0%nat) defaultConfig))
    by by_evaluation.
  assert (Hnext : next_handle example_shared_context_pending = 1%nat) by by_evaluation.
  assert (Hlen : length (records (store example_shared_context_pending)) = 1%nat)
    by by_evaluation.
  assert (Hinit : fastPage.init "default" (Some false)
                    (store example_shared_context_pending)
                  = Some (bind_copy "default" defaultConfig
                            (store example_shared_context_pending))) by done.
  destruct (init_during_launch_loses_handle "default" example_shared_context_pending
              0%nat _ (Some false) _ (BNewContext 0%nat 0%nat) Hc Hinit
              (or_intror (ex_intro _ 0%nat eq_refl)))
    as (sh' & d & Hstep & _ & Hrec & Hd & _).
  rewrite Hnext in Hstep. rewrite Hlen, (Hd eq_refl) in Hrec.
  exists (bind_copy "default" defaultConfig (store example_shared_context_pending)), sh'.
  exact (conj Hinit (conj Hstep Hrec)).
Defined.


(** ** Scripts that run in the page *)

(** X25.  The script of [outerWindow] leaves a window alone whose outer
    width and outer height are both not 0.  Otherwise it sets the outer
    width to the inner width and the outer height to the inner height
    plus 85, both of them, also when only one was 0.  It never changes
    the inner size, and running it twice is the same as running it
    once.  When the inner width is not 0 and the inner height is not
    -85, the window has an outer width and an outer height other than 0
    afterwards. *)
Theorem outerWindow_script_sets_outer_size (window : Window) :
  (outerWidth window ≠ 0%Z → outerHeight window ≠ 0%Z →
   outerWindow_script window = window)
  ∧ (outerWidth window = 0%Z ∨ outerHeight window = 0%Z →
     outerWidth (outerWindow_script window) = innerWidth window
     ∧ outerHeight (outerWindow_script window) = (innerHeight window + 85)%Z)
  ∧ innerWidth (outerWindow_script window) = innerWidth window
  ∧ innerHeight (outerWindow_script window) = innerHeight window
  ∧ outerWindow_script (outerWindow_script window) = outerWindow_script window
  ∧ (innerWidth window ≠ 0%Z → innerHeight window ≠ (-85)%Z →
     outerWidth (outerWindow_script window) ≠ 0%Z
     ∧ outerHeight (outerWindow_script window) ≠ 0%Z).
Proof.
  set (patched := {| outerWidth := innerWidth window;
                     outerHeight := (innerHeight window + 85)%Z;
                     innerWidth := innerWidth window;
                     innerHeight := innerHeight window |}).
  assert (Hpatched : outerWindow_script patched = patched).
  { unfold outerWindow_script. by destruct (_ && _). }
  assert (Hcases : (outerWidth window ≠ 0%Z ∧ outerHeight window ≠ 0%Z
                    ∧ outerWindow_script window = window)
                   ∨ ((outerWidth window = 0%Z ∨ outerHeight window = 0%Z)
                      ∧ outerWindow_script window = patched)).
  { unfold outerWindow_script.
    destruct (decide (outerWidth window = 0%Z)) as [Hw|Hw].
    { right. split; [by left|]. by rewrite bool_decide_eq_false_2 by tauto. }
    destruct (decide (outerHeight window = 0%Z)) as [Hh|Hh].
    { right. split; [by right|].
      rewrite (bool_decide_eq_false_2 (outerHeight window ≠ 0%Z)) by tauto.
      by rewrite andb_false_r. }
    left. by rewrite !bool_decide_eq_true_2. }
  destruct Hcases as [(Hw & Hh & ->)|(Hzero & ->)].
  - split; [done|]. split; [by intros [?|?]|]. split; [done|]. split; [done|].
    split; [|done]. unfold outerWindow_script. by rewrite !bool_decide_eq_true_2.
  - split; [intros ? ?; by destruct Hzero|]. split; [done|].
    split; [done|]. split; [done|]. split; [done|].
    intros Hiw Hih. simpl. split; [done|lia].
Qed.

Section GetSubsetProperties.

Context {V : Type} (undefined : V).

Lemma getSubset_snoc (keys : list string) (c : string) (obj : gmap string V) :
  getSubset undefined (keys ++ [c]) obj
  = <[c := property undefined obj c]> (getSubset undefined keys obj).
Proof. unfold getSubset. by rewrite foldl_app. Qed.

Lemma getSubset_lookup (keys : list string) (obj : gmap string V) (k : string) :
  getSubset undefined keys obj !! k
  = if decide (k ∈ keys) then Some (property undefined obj k) else None.
Proof.
  induction keys as [|c keys IH] using rev_ind.
  - rewrite decide_False by apply not_elem_of_nil. done.
  - rewrite getSubset_snoc. destruct (decide (k = c)) as [->|Hne].
    + rewrite lookup_insert_eq, decide_True; [done|]. set_solver.
    + rewrite lookup_insert_ne, IH by done.
      destruct (decide (k ∈ keys)).
      * rewrite decide_True; [done|]. set_solver.
      * rewrite decide_False; [done|]. set_solver.
Qed.

(** X26.  [getSubset(keys, obj)] is an object with the properties named
    in [keys] and no others.  Each has the value it has in [obj], and
    the value [undefined] when [obj] has no such property: the property
    is there all the same.  Taking the subset of the subset for the same
    keys changes nothing. *)
Theorem getSubset_has_exactly_the_keys (keys : list string) (obj : gmap string V) :
  (∀ k, k ∈ keys →
     getSubset undefined keys obj !! k = Some (property undefined obj k))
  ∧ (∀ k v, k ∈ keys → obj !! k = Some v → getSubset undefined keys obj !! k = Some v)
  ∧ (∀ k, k ∈ keys → obj !! k = None →
       getSubset undefined keys obj !! k = Some undefined)
  ∧ (∀ k, k ∉ keys → getSubset undefined keys obj !! k = None)
  ∧ getSubset undefined keys (getSubset undefined keys obj)
    = getSubset undefined keys obj.
Proof.
  split; [|split; [|split; [|split]]].
  - intros k Hk. by rewrite getSubset_lookup, decide_True.
  - intros k v Hk Hv. rewrite getSubset_lookup, decide_True by done.
    unfold property. by rewrite Hv.
  - intros k Hk Hv. rewrite getSubset_lookup, decide_True by done.
    unfold property. by rewrite Hv.
  - intros k Hk. by rewrite getSubset_lookup, decide_False.
  - apply map_eq. intros k. rewrite !getSubset_lookup.
    destruct (decide (k ∈ keys)); [|done]. f_equal. unfold property.
    by rewrite getSubset_lookup, decide_True.
Qed.

End GetSubsetProperties.
